(** * DMARC report processor

    A shallow embedding of [dmarc_processor.py] (class [DMARCProcessor]):
    the archive unwrapper [_extract_files] / [_find_xml_files], the report
    parser [_parse_dmarc_xml], the aggregator [_generate_analytics] with
    [_identify_threats], and the entry point [process_files].

    Python integers are [Z]; [None]-or-[str] values are [option string];
    dictionaries whose iteration order matters ([defaultdict]) are
    association lists kept in insertion order; exceptions are values of
    [exn] threaded through an error monad; the file system and the logger
    are an explicit [world] that the effectful functions pass along. *)

From Stdlib Require Import ZArith List String Ascii Bool Lia.
From Stdlib Require Import Permutation Sorted DecimalString QArith Qround.
Import ListNotations.

Local Open Scope string_scope.
Local Open Scope Z_scope.

(** ** Exceptions and the error monad *)

Inductive exn_kind : Type :=
| ZeroDivisionError | OverflowError | OSError | ValueError | TypeError
| AttributeError | SyntaxError | ParseError | FileNotFoundError
| IsADirectoryError | BadZipFile | BadGzipFile | ReadError.

(** An exception instance: its class and [str(e)]. *)
Record exn : Type := Exn { exn_class : exn_kind; exn_str : string }.

Definition result (A : Type) : Type := (exn + A)%type.

Definition ret {A : Type} (a : A) : result A := inr a.
Definition raise {A : Type} (e : exn) : result A := inl e.

Definition bind {A B : Type} (m : result A) (k : A -> result B) : result B :=
  match m with
  | inl e => inl e
  | inr a => k a
  end.

Notation "x <- m ;; k" := (bind m (fun x => k))
  (at level 61, m at next level, right associativity).

(** A [for] loop whose body may raise: the first exception leaves the loop. *)
Fixpoint for_each {A S : Type} (body : S -> A -> result S) (l : list A) (s : S)
  : result S :=
  match l with
  | [] => ret s
  | x :: l' => s' <- body s x ;; for_each body l' s'
  end.

(** A list built by a loop whose body may raise. *)
Fixpoint map_result {A B : Type} (f : A -> result B) (l : list A)
  : result (list B) :=
  match l with
  | [] => ret []
  | x :: l' => y <- f x ;; ys <- map_result f l' ;; ret (y :: ys)
  end.

(** ** Strings *)

(** A value that is [None] or a [str]. *)
Definition pystr : Type := option string.

Definition pystr_eqb (a b : pystr) : bool :=
  match a, b with
  | None, None => true
  | Some x, Some y => String.eqb x y
  | _, _ => false
  end.

(** [str(x)] for such a value. *)
Definition pystr_str (a : pystr) : string :=
  match a with
  | None => "None"
  | Some s => s
  end.

(** [x == 'pass'] *)
Definition is_pass (a : pystr) : bool := pystr_eqb a (Some "pass").

(** [str(n)] for an [int]. *)
Definition int_str (n : Z) : string := NilZero.string_of_int (Z.to_int n).

(** [str(len(l))] *)
Definition len_str {A : Type} (l : list A) : string :=
  int_str (Z.of_nat (List.length l)).

(** ** The data model: the dictionaries built by [_parse_dmarc_xml] *)

Record record : Type := mkRecord {
  r_source_ip : pystr;
  r_count : Z;
  r_disposition : pystr;
  r_dkim : pystr;
  r_spf : pystr;
  r_header_from : pystr
}.

Record report : Type := mkReport {
  org_name : pystr;
  report_id : pystr;
  domain : pystr;
  policy : pystr;
  date_begin : Z;
  date_end : Z;
  records : list record
}.

(** ** [defaultdict]: an association list in insertion order *)

Section DefaultDict.
Context {K V : Type} (eqb : K -> K -> bool) (default : V).

(** [d[k] = f(d[k])], where a missing key is first inserted (at the
    end) with the default value. *)
Fixpoint dd_update (k : K) (f : V -> V) (d : list (K * V)) : list (K * V) :=
  match d with
  | [] => [(k, f default)]
  | (k', v) :: d' =>
      if eqb k k' then (k', f v) :: d' else (k', v) :: dd_update k f d'
  end.

(** The value stored under [k], the default when there is none. *)
Fixpoint dd_get (k : K) (d : list (K * V)) : V :=
  match d with
  | [] => default
  | (k', v) :: d' => if eqb k k' then v else dd_get k d'
  end.

End DefaultDict.

(** [set.add] *)
Definition set_add (x : pystr) (s : list pystr) : list pystr :=
  if existsb (pystr_eqb x) s then s else (s ++ [x])%list.

(** ** Floating point and the environment

    The aggregator computes its rates in binary floating point and asks the
    operating system for local dates and host names; [int] reads a
    number off a string.  These are taken as an interface; nothing is
    assumed about them. *)

Class FloatOps (float : Type) : Type := {
  (** [a / b] on integers, [b <> 0]: the nearest double to the quotient,
      [None] when the quotient is out of range (OverflowError). *)
  float_of_quot : Z -> Z -> option float;
  (** [x * n] for a float [x] and an int [n] *)
  float_mul_int : float -> Z -> float;
  (** [round(x, n)] *)
  float_round : float -> Z -> float;
  (** [x < n] for a float [x] and an int [n] *)
  float_ltb_int : float -> Z -> bool;
  (** [str(x)] *)
  float_repr : float -> string
}.

Class Env : Type := {
  (** [datetime.fromtimestamp(t).strftime('%Y-%m-%d')]; raises for a
      timestamp outside the platform's range. *)
  strftime_local : Z -> result string;
  (** [socket.gethostbyaddr(ip)[0]], [None] when the lookup raises. *)
  gethostbyaddr : pystr -> option string;
  (** [int(s)] for a [str], [None] when it raises ValueError. *)
  int_of_str : string -> option Z
}.

(** A rate is the int [0] or a float. *)
Inductive pynum (float : Type) : Type :=
| PInt (z : Z)
| PFloat (x : float).

Arguments PInt {float} z.
Arguments PFloat {float} x.

Definition num_ltb {float : Type} `{FloatOps float} (x : pynum float) (n : Z)
  : bool :=
  match x with
  | PInt z => z <? n
  | PFloat f => float_ltb_int f n
  end.

Definition num_str {float : Type} `{FloatOps float} (x : pynum float) : string :=
  match x with
  | PInt z => int_str z
  | PFloat f => float_repr f
  end.

(** [a / b]: true division of two ints. *)
Definition truediv {float : Type} `{FloatOps float} (a b : Z) : result float :=
  if b =? 0 then raise (Exn ZeroDivisionError "division by zero")
  else match float_of_quot a b with
       | Some x => ret x
       | None =>
           raise (Exn OverflowError
                    "integer division result too large for a float")
       end.

(** [round((num / den * 100), 2) if den > 0 else 0] *)
Definition rate {float : Type} `{FloatOps float} (num den : Z)
  : result (pynum float) :=
  if den >? 0 then
    q <- truediv num den ;;
    ret (PFloat (float_round (float_mul_int q 100) 2))
  else ret (PInt 0).

(** ** The aggregator's working state *)

Record ip_stats : Type := mkIpStats {
  s_count : Z;
  s_dkim_pass : Z;
  s_spf_pass : Z;
  s_dmarc_pass : Z
}.

Record day_stats : Type := mkDayStats {
  d_total : Z;
  d_dkim_pass : Z;
  d_spf_pass : Z;
  d_dmarc_pass : Z
}.

Definition ip_default : ip_stats := mkIpStats 0 0 0 0.
Definition day_default : day_stats := mkDayStats 0 0 0 0.

(** The local variables of [_generate_analytics]. *)
Record acc : Type := mkAcc {
  total_messages : Z;
  dkim_pass : Z;
  dkim_fail : Z;
  spf_pass : Z;
  spf_fail : Z;
  dmarc_pass : Z;
  dmarc_fail : Z;
  ip_data : list (pystr * ip_stats);
  source_orgs : list (pystr * Z);
  domains : list pystr;
  dispositions : list (pystr * Z);
  earliest : option Z;
  latest : option Z;
  daily_stats : list (string * day_stats)
}.

Definition acc_init : acc :=
  mkAcc 0 0 0 0 0 0 0 [] [] [] [] None None [].

Definition ip_update := dd_update pystr_eqb ip_default.
Definition day_update := dd_update String.eqb day_default.
Definition int_update := dd_update pystr_eqb 0.

Definition add_s_count (c : Z) (s : ip_stats) : ip_stats :=
  mkIpStats (s_count s + c) (s_dkim_pass s) (s_spf_pass s) (s_dmarc_pass s).
Definition add_s_dkim_pass (c : Z) (s : ip_stats) : ip_stats :=
  mkIpStats (s_count s) (s_dkim_pass s + c) (s_spf_pass s) (s_dmarc_pass s).
Definition add_s_spf_pass (c : Z) (s : ip_stats) : ip_stats :=
  mkIpStats (s_count s) (s_dkim_pass s) (s_spf_pass s + c) (s_dmarc_pass s).
Definition add_s_dmarc_pass (c : Z) (s : ip_stats) : ip_stats :=
  mkIpStats (s_count s) (s_dkim_pass s) (s_spf_pass s) (s_dmarc_pass s + c).

Definition add_d_total (c : Z) (s : day_stats) : day_stats :=
  mkDayStats (d_total s + c) (d_dkim_pass s) (d_spf_pass s) (d_dmarc_pass s).
Definition add_d_dkim_pass (c : Z) (s : day_stats) : day_stats :=
  mkDayStats (d_total s) (d_dkim_pass s + c) (d_spf_pass s) (d_dmarc_pass s).
Definition add_d_spf_pass (c : Z) (s : day_stats) : day_stats :=
  mkDayStats (d_total s) (d_dkim_pass s) (d_spf_pass s + c) (d_dmarc_pass s).
Definition add_d_dmarc_pass (c : Z) (s : day_stats) : day_stats :=
  mkDayStats (d_total s) (d_dkim_pass s) (d_spf_pass s) (d_dmarc_pass s + c).

(** [if cond: d = upd(d)] *)
Definition when {A : Type} (cond : bool) (upd : A -> A) (d : A) : A :=
  if cond then upd d else d.

(** ** The dictionaries [_generate_analytics] returns *)

Record ip_info (float : Type) : Type := mkIpInfo {
  i_ip : pystr;
  i_count : Z;
  i_dkim_pass : Z;
  i_spf_pass : Z;
  i_dmarc_pass : Z;
  i_compliance_rate : pynum float;
  i_hostname : string
}.

Record timeline_entry (float : Type) : Type := mkTimeline {
  t_date : string;
  t_total : Z;
  t_dkim_pass : Z;
  t_spf_pass : Z;
  t_dmarc_pass : Z;
  t_compliance_rate : pynum float
}.

Record threat : Type := mkThreat {
  level : string;
  title : string;
  description : string
}.

(** The result; the nested dictionaries are flattened into one record. *)
Record analytics (float : Type) : Type := mkAnalytics {
  summary_total_messages : Z;
  summary_total_reports : nat;
  summary_domains : list pystr;
  summary_date_range_start : pystr;
  summary_date_range_end : pystr;
  auth_dkim_pass : Z;
  auth_dkim_fail : Z;
  auth_dkim_pass_rate : pynum float;
  auth_spf_pass : Z;
  auth_spf_fail : Z;
  auth_spf_pass_rate : pynum float;
  auth_dmarc_compliance : pynum float;
  out_dispositions : list (pystr * Z);
  source_organizations : list (pystr * Z);
  top_sources : list (ip_info float);
  timeline : list (timeline_entry float);
  threats : list threat
}.

Arguments mkIpInfo {float}.
Arguments i_ip {float}.
Arguments i_count {float}.
Arguments i_dkim_pass {float}.
Arguments i_spf_pass {float}.
Arguments i_dmarc_pass {float}.
Arguments i_compliance_rate {float}.
Arguments i_hostname {float}.
Arguments mkTimeline {float}.
Arguments t_date {float}.
Arguments t_total {float}.
Arguments t_dkim_pass {float}.
Arguments t_spf_pass {float}.
Arguments t_dmarc_pass {float}.
Arguments t_compliance_rate {float}.
Arguments mkAnalytics {float}.
Arguments summary_total_messages {float}.
Arguments summary_total_reports {float}.
Arguments summary_domains {float}.
Arguments summary_date_range_start {float}.
Arguments summary_date_range_end {float}.
Arguments auth_dkim_pass {float}.
Arguments auth_dkim_fail {float}.
Arguments auth_dkim_pass_rate {float}.
Arguments auth_spf_pass {float}.
Arguments auth_spf_fail {float}.
Arguments auth_spf_pass_rate {float}.
Arguments auth_dmarc_compliance {float}.
Arguments out_dispositions {float}.
Arguments source_organizations {float}.
Arguments top_sources {float}.
Arguments timeline {float}.
Arguments threats {float}.

(** ** [_generate_analytics]: the accumulation loop *)

Section Aggregator.
Context {float : Type} {FO : FloatOps float} {EV : Env}.

(** The body of [for record in report['records']]. *)
Definition process_record (rep : report) (a : acc) (r : record) : result acc :=
  let count := r_count r in
  let total_messages' := total_messages a + count in
  (* DKIM stats *)
  let dkim_pass' := if is_pass (r_dkim r) then dkim_pass a + count else dkim_pass a in
  let dkim_fail' := if is_pass (r_dkim r) then dkim_fail a else dkim_fail a + count in
  (* SPF stats *)
  let spf_pass' := if is_pass (r_spf r) then spf_pass a + count else spf_pass a in
  let spf_fail' := if is_pass (r_spf r) then spf_fail a else spf_fail a + count in
  (* DMARC pass = both DKIM and SPF pass *)
  let both := is_pass (r_dkim r) && is_pass (r_spf r) in
  let dmarc_pass' := if both then dmarc_pass a + count else dmarc_pass a in
  let dmarc_fail' := if both then dmarc_fail a else dmarc_fail a + count in
  (* IP statistics *)
  let ip := r_source_ip r in
  let ip_data1 := ip_update ip (add_s_count count) (ip_data a) in
  let ip_data2 := when (is_pass (r_dkim r)) (ip_update ip (add_s_dkim_pass count)) ip_data1 in
  let ip_data3 := when (is_pass (r_spf r)) (ip_update ip (add_s_spf_pass count)) ip_data2 in
  let ip_data4 := when both (ip_update ip (add_s_dmarc_pass count)) ip_data3 in
  (* Disposition stats *)
  let dispositions' := int_update (r_disposition r) (fun n => n + count) (dispositions a) in
  (* Daily stats *)
  date_str <- strftime_local (date_begin rep) ;;
  let daily1 := day_update date_str (add_d_total count) (daily_stats a) in
  let daily2 := when (is_pass (r_dkim r)) (day_update date_str (add_d_dkim_pass count)) daily1 in
  let daily3 := when (is_pass (r_spf r)) (day_update date_str (add_d_spf_pass count)) daily2 in
  let daily4 := when both (day_update date_str (add_d_dmarc_pass count)) daily3 in
  ret (mkAcc total_messages' dkim_pass' dkim_fail' spf_pass' spf_fail'
         dmarc_pass' dmarc_fail' ip_data4 (source_orgs a) (domains a)
         dispositions' (earliest a) (latest a) daily4).

(** The body of [for report in reports]. *)
Definition process_report (a : acc) (rep : report) : result acc :=
  let source_orgs' := int_update (org_name rep) (fun n => n + 1) (source_orgs a) in
  let domains' := set_add (domain rep) (domains a) in
  (* Update date range *)
  let earliest' :=
    match earliest a with
    | None => Some (date_begin rep)
    | Some e => if date_begin rep <? e then Some (date_begin rep) else Some e
    end in
  let latest' :=
    match latest a with
    | None => Some (date_end rep)
    | Some l => if date_end rep >? l then Some (date_end rep) else Some l
    end in
  (* Process records *)
  for_each (process_record rep) (records rep)
    (mkAcc (total_messages a) (dkim_pass a) (dkim_fail a) (spf_pass a)
       (spf_fail a) (dmarc_pass a) (dmarc_fail a) (ip_data a) source_orgs'
       domains' (dispositions a) earliest' latest' (daily_stats a)).

(** The whole loop, from the initial counters. *)
Definition accumulate (reports : list report) : result acc :=
  for_each process_report reports acc_init.

(** ** [_generate_analytics]: the derived lists *)

(** The body of [for ip, stats in ip_data.items()]. *)
Definition make_ip_info (entry : pystr * ip_stats) : result (ip_info float) :=
  let (ip, stats) := entry in
  cr <- rate (s_dmarc_pass stats) (s_count stats) ;;
  (* Try to get hostname *)
  let hostname :=
    match gethostbyaddr ip with
    | Some h => h
    | None => "Unknown"
    end in
  ret (mkIpInfo ip (s_count stats) (s_dkim_pass stats) (s_spf_pass stats)
         (s_dmarc_pass stats) cr hostname).

(** [ip_list.sort(key=lambda x: x['count'], reverse=True)].  Python's sort
    is stable, also with [reverse=True]: an entry goes before the first
    entry whose count is not larger than its own. *)
Fixpoint insert_by_count (x : ip_info float) (l : list (ip_info float))
  : list (ip_info float) :=
  match l with
  | [] => [x]
  | y :: l' =>
      if i_count y >? i_count x then y :: insert_by_count x l'
      else x :: y :: l'
  end.

Definition sort_by_count (l : list (ip_info float)) : list (ip_info float) :=
  fold_right insert_by_count [] l.

(** [sorted(keys)] on strings. *)
Fixpoint insert_string (x : string) (l : list string) : list string :=
  match l with
  | [] => [x]
  | y :: l' => if String.leb x y then x :: y :: l' else y :: insert_string x l'
  end.

Definition sorted_strings (l : list string) : list string :=
  fold_right insert_string [] l.

(** The body of [for date_str in sorted(daily_stats.keys())]. *)
Definition make_timeline_entry (daily : list (string * day_stats))
  (date_str : string) : result (timeline_entry float) :=
  let stats := dd_get String.eqb day_default date_str daily in
  cr <- rate (d_dmarc_pass stats) (d_total stats) ;;
  ret (mkTimeline date_str (d_total stats) (d_dkim_pass stats)
         (d_spf_pass stats) (d_dmarc_pass stats) cr).

(** ** [_identify_threats] *)

Definition low_compliance (dmarc_compliance : pynum float) : threat :=
  mkThreat "warning" "Low DMARC Compliance"
    ("Only " ++ num_str dmarc_compliance ++
     "% of emails are fully compliant. Consider strengthening your DMARC policy.").

Definition suspicious_ip (info : ip_info float) : threat :=
  mkThreat "high" ("Suspicious IP: " ++ pystr_str (i_ip info))
    ("Low compliance rate (" ++ num_str (i_compliance_rate info) ++ "%) with "
     ++ int_str (i_count info) ++ " messages. Potential spoofing attempt.").

Definition no_threats : threat :=
  mkThreat "success" "No Major Threats Detected"
    "Your email authentication is working well!".

(** The body of [for ip_info in ip_list[:10]]. *)
Definition check_ip (threats : list threat) (info : ip_info float)
  : list threat :=
  if num_ltb (i_compliance_rate info) 50 && (i_count info >? 10)
  then (threats ++ [suspicious_ip info])%list
  else threats.

Definition _identify_threats (ip_list : list (ip_info float))
  (dmarc_compliance : pynum float)
  : list threat :=
  let threats : list threat := [] in
  (* Check for low compliance rate *)
  let threats :=
    if num_ltb dmarc_compliance 80
    then (threats ++ [low_compliance dmarc_compliance])%list else threats in
  (* Check for IPs with high failure rates *)
  let threats := fold_left check_ip (firstn 10 ip_list) threats in
  match threats with
  | [] => (threats ++ [no_threats])%list
  | _ :: _ => threats
  end.

(** [strftime(...) if t else None]: a timestamp that is [None] or [0] is
    falsy. *)
Definition date_or_none (t : option Z) : result pystr :=
  match t with
  | None => ret None
  | Some z => if z =? 0 then ret None else s <- strftime_local z ;; ret (Some s)
  end.

(** Everything after the accumulation loop. *)
Definition finish (n_reports : nat) (a : acc) : result (analytics float) :=
  (* Prepare IP list with additional info *)
  ip_list <- map_result make_ip_info (ip_data a) ;;
  (* Sort IPs by count *)
  let ip_list := sort_by_count ip_list in
  (* Prepare daily timeline *)
  timeline <- map_result (make_timeline_entry (daily_stats a))
                (sorted_strings (map fst (daily_stats a))) ;;
  (* Calculate percentages *)
  dkim_pass_rate <- rate (dkim_pass a) (total_messages a) ;;
  spf_pass_rate <- rate (spf_pass a) (total_messages a) ;;
  dmarc_compliance <- rate (dmarc_pass a) (total_messages a) ;;
  start <- date_or_none (earliest a) ;;
  end_ <- date_or_none (latest a) ;;
  ret (mkAnalytics (total_messages a) n_reports (domains a) start end_
         (dkim_pass a) (dkim_fail a) dkim_pass_rate
         (spf_pass a) (spf_fail a) spf_pass_rate dmarc_compliance
         (dispositions a) (source_orgs a) (firstn 20 ip_list) timeline
         (_identify_threats ip_list dmarc_compliance)).

Definition _generate_analytics (reports : list report)
  : result (analytics float) :=
  a <- accumulate reports ;;
  finish (List.length reports) a.

End Aggregator.

(** ** XML trees as [xml.etree.ElementTree] presents them *)

(** An element: its tag (a namespaced tag reads [{uri}local]), its text
    ([None] for an empty element) and its children in document order. *)
#[warnings="-register-all"]
Inductive Element : Type :=
| Elem (tag : string) (text : pystr) (children : list Element).

Definition tag_of (e : Element) : string :=
  match e with Elem t _ _ => t end.
Definition text_of (e : Element) : pystr :=
  match e with Elem _ t _ => t end.
Definition children_of (e : Element) : list Element :=
  match e with Elem _ _ c => c end.

(** [bool(element)]: an element without children is falsy. *)
Definition elem_truthy (e : Element) : bool :=
  match children_of e with
  | [] => false
  | _ :: _ => true
  end.

(** [bool(s)] for a [None]-or-[str] value. *)
Definition text_truthy (s : pystr) : bool :=
  match s with
  | None => false
  | Some t => negb (String.eqb t "")
  end.

(** The paths this program searches: ['name'] and ['prefix:name']. *)
Inductive xpath : Type :=
| Plain (name : string)
| Prefixed (prefix name : string).

Definition xpath_str (p : xpath) : string :=
  match p with
  | Plain n => n
  | Prefixed pre n => pre ++ ":" ++ n
  end.

(** A prefix map, as passed in the [namespaces] argument. *)
Definition nsmap : Type := list (string * string).

Fixpoint ns_lookup (pre : string) (ns : nsmap) : option string :=
  match ns with
  | [] => None
  | (p, uri) :: ns' => if String.eqb pre p then Some uri else ns_lookup pre ns'
  end.

(** [element.find(path)] without a prefix map: the path (even one with a
    colon) is compared with the children's tags as it stands. *)
Definition find1 (e : Element) (p : xpath) : option Element :=
  List.find (fun c => String.eqb (tag_of c) (xpath_str p)) (children_of e).

Definition findall1 (e : Element) (p : xpath) : list Element :=
  filter (fun c => String.eqb (tag_of c) (xpath_str p)) (children_of e).

(** The tag a path selects under a prefix map; a prefix that the map
    does not bind is a SyntaxError. *)
Definition resolve (p : xpath) (ns : nsmap) : result string :=
  match p with
  | Plain n => ret n
  | Prefixed pre n =>
      match ns_lookup pre ns with
      | Some uri => ret ("{" ++ uri ++ "}" ++ n)
      | None =>
          raise (Exn SyntaxError ("prefix '" ++ pre ++ "' not found in prefix map"))
      end
  end.

(** [element.find(path, namespaces)] with a prefix map (possibly empty). *)
Definition find2 (e : Element) (p : xpath) (ns : nsmap) : result (option Element) :=
  t <- resolve p ns ;;
  ret (List.find (fun c => String.eqb (tag_of c) t) (children_of e)).

Definition findall2 (e : Element) (p : xpath) (ns : nsmap) : result (list Element) :=
  t <- resolve p ns ;;
  ret (filter (fun c => String.eqb (tag_of c) t) (children_of e)).

(** [a or b]: [b] is evaluated only when [a] is falsy. *)
Definition por {A : Type} (truthy : A -> bool) (a b : result A) : result A :=
  x <- a ;; if truthy x then ret x else b.

Definition opt_elem_truthy (e : option Element) : bool :=
  match e with
  | None => false
  | Some x => elem_truthy x
  end.

Definition list_truthy {A : Type} (l : list A) : bool :=
  match l with
  | [] => false
  | _ :: _ => true
  end.

(** ** [_parse_dmarc_xml]: the part after [ET.parse] *)

Definition dmarc_ns : nsmap := [("ns", "urn:ietf:params:xml:ns:dmarc-2.0")].

Definition none_has_no_find {A : Type} : result A :=
  raise (Exn AttributeError "'NoneType' object has no attribute 'find'").

Section Parser.
Context {EV : Env}.

(** The inner helper [find_text(element, path, namespaces=None)]. *)
Definition find_text (element : option Element) (path : xpath)
  (namespaces : option nsmap) : result pystr :=
  match element with
  | None => none_has_no_find
  | Some el =>
      elem <- match namespaces with
              | Some ((_ :: _) as m) => find2 el path m
              | _ => ret (find1 el path)
              end ;;
      ret (match elem with
           | Some c => text_of c
           | None => None
           end)
  end.

(** [element.find(path)] where [element] may be [None]. *)
Definition find1_opt (element : option Element) (p : xpath) : result (option Element) :=
  match element with
  | None => none_has_no_find
  | Some el => ret (find1 el p)
  end.

Definition find2_opt (element : option Element) (p : xpath) (ns : nsmap)
  : result (option Element) :=
  match element with
  | None => none_has_no_find
  | Some el => find2 el p ns
  end.

(** [find_text(e, 'name') or find_text(e, 'ns:name', ns)] *)
Definition text_field (ns : nsmap) (e : option Element) (name : string) : result pystr :=
  por text_truthy (find_text e (Plain name) None)
    (find_text e (Prefixed "ns" name) (Some ns)).

(** [e.find('name') or e.find('ns:name', ns)] *)
Definition child_field (ns : nsmap) (e : option Element) (name : string)
  : result (option Element) :=
  por opt_elem_truthy (find1_opt e (Plain name)) (find2_opt e (Prefixed "ns" name) ns).

(** [int(v or 0)] *)
Definition int_or_zero (v : pystr) : result Z :=
  match v with
  | Some s =>
      if String.eqb s "" then ret 0
      else match int_of_str s with
           | Some z => ret z
           | None =>
               raise (Exn ValueError
                        ("invalid literal for int() with base 10: '" ++ s ++ "'"))
           end
  | None => ret 0
  end.

(** [int(find_text(e, 'name') or find_text(e, 'ns:name', ns) or 0)] *)
Definition int_field (ns : nsmap) (e : option Element) (name : string) : result Z :=
  v <- text_field ns e name ;; int_or_zero v.

(** The body of [for record in ...]. *)
Definition parse_record (ns : nsmap) (rec : Element) : result record :=
  row <- child_field ns (Some rec) "row" ;;
  source_ip <- text_field ns row "source_ip" ;;
  count <- int_field ns row "count" ;;
  policy_eval <- child_field ns row "policy_evaluated" ;;
  disposition <- text_field ns policy_eval "disposition" ;;
  dkim <- text_field ns policy_eval "dkim" ;;
  spf <- text_field ns policy_eval "spf" ;;
  identifiers <- child_field ns (Some rec) "identifiers" ;;
  header_from <- text_field ns identifiers "header_from" ;;
  ret (mkRecord source_ip count disposition dkim spf header_from).

(** [ns = {...} if root.tag.startswith('{') else {}] *)
Definition ns_for (root : Element) : nsmap :=
  if String.prefix "{" (tag_of root) then dmarc_ns else [].

(** [root.find('report_metadata') or root.find('ns:report_metadata', ns)] *)
Definition find_metadata (root : Element) : result (option Element) :=
  child_field (ns_for root) (Some root) "report_metadata".

(** Everything after the test [metadata is None]. *)
Definition parse_with_metadata (root metadata : Element) : result report :=
  let ns := ns_for root in
  org_name <- text_field ns (Some metadata) "org_name" ;;
  report_id <- text_field ns (Some metadata) "report_id" ;;
  date_range <- child_field ns (Some metadata) "date_range" ;;
  begin_ <- int_field ns date_range "begin" ;;
  end_ <- int_field ns date_range "end" ;;
  (* Parse policy *)
  policy <- child_field ns (Some root) "policy_published" ;;
  domain <- text_field ns policy "domain" ;;
  policy_p <- text_field ns policy "p" ;;
  (* Parse records *)
  recs <- por list_truthy (ret (findall1 root (Plain "record")))
            (findall2 root (Prefixed "ns" "record") ns) ;;
  records <- map_result (parse_record ns) recs ;;
  ret (mkReport org_name report_id domain policy_p begin_ end_ records).

End Parser.

(** ** Paths and file names *)

Definition slash : ascii := "/"%char.

Fixpoint has_slash (s : string) : bool :=
  match s with
  | EmptyString => false
  | String c s' => Ascii.eqb c slash || has_slash s'
  end.

(** [os.path.basename]: what follows the last slash. *)
Fixpoint basename (s : string) : string :=
  match s with
  | EmptyString => EmptyString
  | String _ s' => if has_slash s then basename s' else s
  end.

(** [s.endswith(suffix)] *)
Definition endswith (s suffix : string) : bool :=
  (String.length suffix <=? String.length s)%nat &&
  String.eqb
    (substring (String.length s - String.length suffix) (String.length suffix) s)
    suffix.

(** [s[:-n]] *)
Definition drop_last (n : nat) (s : string) : string :=
  substring 0 (String.length s - n) s.

(** [os.path.join(a, b)] on POSIX. *)
Definition path_join (a b : string) : string :=
  if String.prefix "/" b then b
  else if String.eqb a "" || endswith a "/" then a ++ b
  else a ++ "/" ++ b.

(** ** The world: files on disk and the logger *)

(** What a file holds, as the libraries that open it see it: a
    well-formed XML document, a ZIP or TAR archive with its member files
    (name relative to the extraction root, already resolved), a gzip
    stream, or something none of them can read. *)
#[warnings="-register-all"]
Inductive content : Type :=
| XmlDoc (root : Element)
| ZipArchive (members : list (string * content))
| TarArchive (members : list (string * content))
| Gzip (inner : content)
| Other.

Inductive log_level : Type := INFO | WARNING | ERROR.

Record world : Type := mkWorld {
  files : list (string * content);
  logged : list (log_level * string)
}.

(** Computations that read and change the world and may raise. *)
Definition M (A : Type) : Type := world -> result A * world.

Definition retM {A : Type} (a : A) : M A := fun w => (inr a, w).
Definition raiseM {A : Type} (e : exn) : M A := fun w => (inl e, w).

Definition bindM {A B : Type} (m : M A) (k : A -> M B) : M B :=
  fun w =>
    match m w with
    | (inl e, w') => (inl e, w')
    | (inr a, w') => k a w'
    end.

Notation "x <~ m ;; k" := (bindM m (fun x => k))
  (at level 61, m at next level, right associativity).
Notation "m ;;; k" := (bindM m (fun _ => k))
  (at level 61, right associativity).

(** A pure computation that may raise, run in the world. *)
Definition lift {A : Type} (r : result A) : M A := fun w => (r, w).

(** [try: body except Exception as e: handler(e)] *)
Definition try_except {A : Type} (body : M A) (handler : exn -> M A) : M A :=
  fun w =>
    match body w with
    | (inl e, w') => handler e w'
    | (inr a, w') => (inr a, w')
    end.

(** [self.logger.info / warning / error] *)
Definition log (lvl : log_level) (msg : string) : M unit :=
  fun w => (inr tt, mkWorld (files w) (logged w ++ [(lvl, msg)])).

Fixpoint lookup_file (p : string) (fs : list (string * content)) : option content :=
  match fs with
  | [] => None
  | (q, c) :: fs' => if String.eqb p q then Some c else lookup_file p fs'
  end.

(** Creating or overwriting the file at [p]. *)
Fixpoint write_file (p : string) (c : content) (fs : list (string * content))
  : list (string * content) :=
  match fs with
  | [] => [(p, c)]
  | (q, c') :: fs' =>
      if String.eqb p q then (q, c) :: fs' else (q, c') :: write_file p c fs'
  end.

Definition no_such_file {A : Type} (p : string) : M A :=
  raiseM (Exn FileNotFoundError
            ("[Errno 2] No such file or directory: '" ++ p ++ "'")).

(** Opening [p] for reading. *)
Definition read_file (p : string) : M content :=
  fun w =>
    match lookup_file p (files w) with
    | Some c => (inr c, w)
    | None => no_such_file p w
    end.

Definition put_file (p : string) (c : content) : M unit :=
  fun w => (inr tt, mkWorld (write_file p c (files w)) (logged w)).

(** [archive.extractall(extract_dir)]: every member is written below the
    extraction directory. *)
Fixpoint extractall (members : list (string * content)) (extract_dir : string)
  : M unit :=
  match members with
  | [] => retM tt
  | (name, c) :: rest =>
      put_file (path_join extract_dir name) c ;;; extractall rest extract_dir
  end.

(** [zipfile.ZipFile(file_path, 'r')] followed by [extractall]. *)
Definition unzip (file_path extract_dir : string) : M unit :=
  c <~ read_file file_path ;;
  match c with
  | ZipArchive members => extractall members extract_dir
  | _ => raiseM (Exn BadZipFile "File is not a zip file")
  end.

(** [tarfile.open(file_path, 'r:*')] followed by [extractall]; the mode
    reads through gzip compression. *)
Definition untar (file_path extract_dir : string) : M unit :=
  c <~ read_file file_path ;;
  match c with
  | TarArchive members => extractall members extract_dir
  | Gzip (TarArchive members) => extractall members extract_dir
  | _ => raiseM (Exn ReadError "file could not be opened successfully")
  end.

(** [gzip.open(file_path, 'rb')], [open(output_path, 'wb')] and
    [shutil.copyfileobj]: the output file is created before the first
    read, so a file that is not gzip leaves an empty output behind.  An
    output path without a last component cannot be opened for writing. *)
Definition gunzip (file_path output_path : string) : M unit :=
  c <~ read_file file_path ;;
  if String.eqb output_path "" then no_such_file output_path
  else if String.eqb (basename output_path) "" then
    raiseM (Exn IsADirectoryError
              ("[Errno 21] Is a directory: '" ++ output_path ++ "'"))
  else
    match c with
    | Gzip inner => put_file output_path inner
    | _ =>
        put_file output_path Other ;;;
        raiseM (Exn BadGzipFile "Not a gzipped file")
    end.

(** ** [_find_xml_files] *)

(** The file at [p] lies somewhere below [directory]. *)
Definition below (directory p : string) : bool :=
  let d := path_join directory "" in
  String.prefix d p && (String.length d <? String.length p)%nat.

(** [os.walk(directory)] visits the files below the directory; each is
    kept when its name ends in [.xml]. *)
Definition _find_xml_files (directory : string) : M (list string) :=
  fun w =>
    (inr (filter (fun p => below directory p && endswith (basename p) ".xml")
            (map fst (files w))), w).

(** ** [_extract_files] *)

(** The function calls itself on the output of a [.gz] file, whose name
    is three characters shorter; [depth] bounds the nesting. *)
Fixpoint extract_files_at (depth : nat) (file_path extract_dir : string)
  : M (list string) :=
  let filename := basename file_path in
  try_except
    (if endswith filename ".zip" then
       (* Handle ZIP files *)
       log INFO ("Extracting ZIP: " ++ filename) ;;;
       unzip file_path extract_dir ;;;
       _find_xml_files extract_dir
     else if endswith filename ".gz" then
       (* Handle GZ files *)
       log INFO ("Extracting GZ: " ++ filename) ;;;
       let output_path := path_join extract_dir (drop_last 3 filename) in
       gunzip file_path output_path ;;;
       if endswith output_path ".xml" then
         (* If extracted file is XML, add it *)
         retM [output_path]
       else
         (* Recursively extract if it's another archive *)
         match depth with
         | O => retM []
         | S depth' => extract_files_at depth' output_path extract_dir
         end
     else if endswith filename ".tar" || endswith filename ".tar.gz" then
       (* Handle TAR files *)
       log INFO ("Extracting TAR: " ++ filename) ;;;
       untar file_path extract_dir ;;;
       _find_xml_files extract_dir
     else if endswith filename ".xml" then
       (* Handle XML files directly *)
       retM [file_path]
     else
       log WARNING ("Unknown file type: " ++ filename) ;;;
       retM [])
    (fun e =>
       log ERROR ("Error extracting " ++ filename ++ ": " ++ exn_str e) ;;;
       retM []).

Definition _extract_files (file_path extract_dir : string) : M (list string) :=
  extract_files_at (String.length (basename file_path)) file_path extract_dir.

(** ** [_parse_dmarc_xml] *)

(** [ET.parse(xml_file).getroot()] *)
Definition ET_parse (xml_file : string) : M Element :=
  c <~ read_file xml_file ;;
  match c with
  | XmlDoc root => retM root
  | _ => raiseM (Exn ParseError "syntax error: line 1, column 0")
  end.

(** The dictionary [process_files] returns: one of the two error shapes
    or the analytics with [files_processed] and [parse_errors] added. *)
Inductive response (float : Type) : Type :=
| ErrorResponse (error : string) (parse_errors : option (list string))
    (files_processed : Z)
| AnalyticsResponse (a : analytics float) (files_processed : Z)
    (parse_errors : list string).

Arguments ErrorResponse {float}.
Arguments AnalyticsResponse {float}.

Section Processor.
Context {float : Type} {FO : FloatOps float} {EV : Env}.

Definition _parse_dmarc_xml (xml_file : string) : M (option report) :=
  try_except
    (root <~ ET_parse xml_file ;;
     (* Parse metadata *)
     metadata <~ lift (find_metadata root) ;;
     match metadata with
     | None =>
         log WARNING ("No metadata found in " ++ xml_file) ;;;
         retM None
     | Some metadata =>
         report <~ lift (parse_with_metadata root metadata) ;;
         retM (Some report)
     end)
    (fun e =>
       log ERROR ("Error parsing XML " ++ xml_file ++ ": " ++ exn_str e) ;;;
       raiseM e).

(** ** [process_files] *)

(** A [for] loop in the world. *)
Fixpoint for_eachM {A S : Type} (body : S -> A -> M S) (l : list A) (s : S) : M S :=
  match l with
  | [] => retM s
  | x :: l' => s' <~ body s x ;; for_eachM body l' s'
  end.

(** The body of [for file_path in file_paths]. *)
Definition extract_one (session_dir : string) (xml_files : list string)
  (file_path : string) : M (list string) :=
  extracted <~ _extract_files file_path session_dir ;;
  retM (xml_files ++ extracted)%list.

(** The body of [for xml_file in xml_files], on [reports] and
    [parse_errors]. *)
Definition parse_one (st : list report * list string) (xml_file : string)
  : M (list report * list string) :=
  let (reports, parse_errors) := st in
  try_except
    (report <~ _parse_dmarc_xml xml_file ;;
     match report with
     | Some r =>
         log INFO ("Successfully parsed: " ++ basename xml_file) ;;;
         retM ((reports ++ [r])%list, parse_errors)
     | None => retM (reports, parse_errors)
     end)
    (fun e =>
       let error_msg :=
         "Error parsing " ++ basename xml_file ++ ": " ++ exn_str e in
       log ERROR error_msg ;;;
       retM (reports, (parse_errors ++ [error_msg])%list)).

(** The [try] block of [process_files]. *)
Definition process_files_body (file_paths : list string) (session_dir : string)
  : M (response float) :=
  (* Extract all XML files *)
  xml_files <~ for_eachM (extract_one session_dir) file_paths [] ;;
  log INFO ("Found " ++ len_str xml_files ++ " XML file(s) to process") ;;;
  match xml_files with
  | [] => retM (ErrorResponse "No valid DMARC XML files found" None 0)
  | _ :: _ =>
      (* Parse all XML files *)
      st <~ for_eachM parse_one xml_files ([], []) ;;
      let (reports, parse_errors) := st in
      match reports with
      | [] =>
          retM (ErrorResponse "No valid DMARC reports could be parsed"
                  (Some parse_errors) 0)
      | _ :: _ =>
          (* Generate analytics *)
          analytics <~ lift (_generate_analytics reports) ;;
          retM (AnalyticsResponse analytics (Z.of_nat (List.length reports))
                  parse_errors)
      end
  end.

Definition process_files (file_paths : list string) (session_dir : string)
  : M (response float) :=
  try_except (process_files_body file_paths session_dir)
    (fun e =>
       log ERROR ("Error in process_files: " ++ exn_str e) ;;;
       retM (ErrorResponse ("Processing failed: " ++ exn_str e) None 0)).

End Processor.

(** ** [allowed_file] of the upload endpoint ([app.py]) *)

Definition ALLOWED_EXTENSIONS : list string := ["xml"; "zip"; "gz"; "tar"].

Definition dot : ascii := "."%char.

Fixpoint has_dot (s : string) : bool :=
  match s with
  | EmptyString => false
  | String c s' => Ascii.eqb c dot || has_dot s'
  end.

(** [filename.rsplit('.', 1)[1]] for a name with a dot. *)
Fixpoint after_last_dot (s : string) : string :=
  match s with
  | EmptyString => EmptyString
  | String _ s' => if has_dot s then after_last_dot s' else s
  end.

(** [c.lower()] on an ASCII character. *)
Definition lower_ascii (c : ascii) : ascii :=
  let n := nat_of_ascii c in
  if ((65 <=? n) && (n <=? 90))%nat then ascii_of_nat (n + 32) else c.

Fixpoint lower (s : string) : string :=
  match s with
  | EmptyString => EmptyString
  | String c s' => String (lower_ascii c) (lower s')
  end.

Definition allowed_file (filename : string) : bool :=
  has_dot filename &&
  existsb (String.eqb (lower (after_last_dot filename))) ALLOWED_EXTENSIONS.

(** ** An environment to run the model in

    The examples below need an implementation of the two interfaces.
    [exact_floats] computes with exact rationals in place of binary64
    (rounding half to even), and [utc_env] gives dates in UTC, resolves no
    host name and reads plain decimal numbers.  The theorems about the
    program hold for every implementation; these two only serve to
    evaluate it. *)

Definition q_of_quot (a b : Z) : option Q :=
  if b =? 0 then None else Some (Qred (Qdiv (inject_Z a) (inject_Z b))).

Definition q_mul_int (x : Q) (n : Z) : Q := Qred (Qmult x (inject_Z n)).

(** The integer nearest to [x], a tie going to the even one. *)
Definition q_nearest (x : Q) : Z :=
  let fl := Qfloor x in
  match Qcompare (Qminus x (inject_Z fl)) (1 # 2) with
  | Lt => fl
  | Gt => fl + 1
  | Eq => if Z.even fl then fl else fl + 1
  end.

Definition q_round (x : Q) (n : Z) : Q :=
  let scale := 10 ^ n in
  Qred (Qdiv (inject_Z (q_nearest (Qmult x (inject_Z scale)))) (inject_Z scale)).

Definition q_ltb_int (x : Q) (n : Z) : bool :=
  match Qcompare x (inject_Z n) with
  | Lt => true
  | _ => false
  end.

Definition two_digits (n : Z) : string :=
  if n <? 10 then "0" ++ int_str n else int_str n.

(** A decimal rendering with one or two places. *)
Definition q_repr (x : Q) : string :=
  let h := q_nearest (Qmult x (inject_Z 100)) in
  let sign := if h <? 0 then "-" else "" in
  let ip := Z.abs h / 100 in
  let fp := Z.abs h mod 100 in
  sign ++ int_str ip ++ "." ++
  (if fp mod 10 =? 0 then int_str (fp / 10) else two_digits fp).

Definition exact_floats : FloatOps Q :=
  Build_FloatOps Q q_of_quot q_mul_int q_round q_ltb_int q_repr.

(** The proleptic Gregorian date of a day number counted from
    1970-01-01. *)
Definition civil_from_days (days : Z) : Z * Z * Z :=
  let z := days + 719468 in
  let era := z / 146097 in
  let doe := z - era * 146097 in
  let yoe := (doe - doe / 1460 + doe / 36524 - doe / 146096) / 365 in
  let doy := doe - (365 * yoe + yoe / 4 - yoe / 100) in
  let mp := (5 * doy + 2) / 153 in
  let d := doy - (153 * mp + 2) / 5 + 1 in
  let m := if mp <? 10 then mp + 3 else mp - 9 in
  let y := yoe + era * 400 + (if m <=? 2 then 1 else 0) in
  (y, m, d).

Definition four_digits (n : Z) : string :=
  (if n <? 10 then "000" else if n <? 100 then "00"
   else if n <? 1000 then "0" else "") ++ int_str n.

Definition utc_date (t : Z) : result string :=
  let '(y, m, d) := civil_from_days (t / 86400) in
  if (1 <=? y) && (y <=? 9999) then
    ret (four_digits y ++ "-" ++ two_digits m ++ "-" ++ two_digits d)
  else raise (Exn ValueError "year out of range").

Definition digit_of (c : ascii) : option Z :=
  let n := nat_of_ascii c in
  if ((48 <=? n) && (n <=? 57))%nat then Some (Z.of_nat (n - 48)) else None.

Fixpoint digits_value (s : string) (acc : Z) : option Z :=
  match s with
  | EmptyString => Some acc
  | String c s' =>
      match digit_of c with
      | Some d => digits_value s' (10 * acc + d)
      | None => None
      end
  end.

Definition decimal_of_str (s : string) : option Z :=
  match s with
  | EmptyString => None
  | String "-"%char (String _ _ as s') => option_map Z.opp (digits_value s' 0)
  | String "+"%char (String _ _ as s') => digits_value s' 0
  | _ => digits_value s 0
  end.

Definition utc_env : Env :=
  Build_Env utc_date (fun _ => None) decimal_of_str.

(** * Vocabulary of the properties

    What the statements below speak of: sums over the input, positions in
    a list, the files found below a directory, and the like. *)

Section Vocabulary.
Context {float : Type} {FO : FloatOps float} {EV : Env}.

(** ** Aggregation *)

(** The sum of the [count] field over a list of records. *)
Definition sum_counts (rs : list record) : Z :=
  fold_right (fun r n => r_count r + n) 0 rs.

(** All records of all reports, in the order the loop visits them. *)
Definition all_records (reports : list report) : list record :=
  flat_map records reports.

(** The three partitions of the message total, on the loop's counters. *)
Definition balanced (base : Z) (a : acc) : Prop :=
  dkim_pass a + dkim_fail a = total_messages a /\
  spf_pass a + spf_fail a = total_messages a /\
  dmarc_pass a + dmarc_fail a = total_messages a /\
  total_messages a = base.

(** Descending order of message counts. *)
Definition count_ge (x y : ip_info float) : Prop := i_count y <= i_count x.

(** [x] stands before [y] in [l]. *)
Definition before {A : Type} (x y : A) (l : list A) : Prop :=
  exists l1 l2 l3, l = (l1 ++ x :: l2 ++ y :: l3)%list.

(** The distinct source IPs of the input, in the order first met. *)
Definition distinct_ips (reports : list report) : list pystr :=
  fold_left (fun seen r => set_add (r_source_ip r) seen) (all_records reports) [].

(** What [round(num / den * 100, 2) if den > 0 else 0] evaluates to. *)
Definition guarded_rate (num den : Z) (x : pynum float) : Prop :=
  (0 < den ->
     exists q, float_of_quot num den = Some q /\
               x = PFloat (float_round (float_mul_int q 100) 2)) /\
  (den <= 0 -> x = PInt 0).

(** [compliance_rate < 50 and count > 10] *)
Definition risky (i : ip_info float) : bool :=
  num_ltb (i_compliance_rate i) 50 && (i_count i >? 10).

(** ** The entry point *)

(** [m] returns a value from every world. *)
Definition never_raises {A : Type} (m : M A) : Prop :=
  forall w, exists a w', m w = (inr a, w').

(** The world in which the parsing loop starts. *)
Definition after_found (xml_files : list string) (w : world) : world :=
  snd (log INFO ("Found " ++ len_str xml_files ++ " XML file(s) to process") w).

(** ** Parsing *)

(** The tag of an element of the DMARC namespace. *)
Definition dmarc_tag (name : string) : string :=
  "{urn:ietf:params:xml:ns:dmarc-2.0}" ++ name.

(** No child of [e] carries the tag [name], neither bare nor in the DMARC
    namespace (nor spelled with a literal [ns:] prefix, which the XML
    parser never produces but a tree may hold). *)
Definition lacks (e : Element) (name : string) : Prop :=
  forall c, In c (children_of e) ->
    tag_of c <> name /\ tag_of c <> dmarc_tag name /\ tag_of c <> "ns:" ++ name.

(** The [record] elements the parser iterates over. *)
Definition record_elements (root : Element) : result (list Element) :=
  por list_truthy (ret (findall1 root (Plain "record")))
    (findall2 root (Prefixed "ns" "record") (ns_for root)).

(** ** Archives *)

(** The XML files below a directory, as [_find_xml_files] lists them. *)
Definition xml_below (directory : string) (fs : list (string * content))
  : list string :=
  filter (fun p => below directory p && endswith (basename p) ".xml") (map fst fs).

(** The files after an archive's members were written below [dir]. *)
Definition extract_into (members : list (string * content)) (dir : string)
  (fs : list (string * content)) : list (string * content) :=
  fold_left (fun fs m => write_file (path_join dir (fst m)) (snd m) fs) members fs.

(** The call on the archive at [p] unpacks it below [dir], taking the
    files on disk from [fs] to the last argument. *)
Inductive unpacks (dir p : string) (fs : list (string * content))
  : list (string * content) -> Prop :=
| unpacks_zip (ms : list (string * content)) :
    endswith (basename p) ".zip" = true ->
    lookup_file p fs = Some (ZipArchive ms) ->
    unpacks dir p fs (extract_into ms dir fs)
| unpacks_tar (ms : list (string * content)) (c : content) :
    endswith (basename p) ".tar" = true ->
    lookup_file p fs = Some c ->
    c = TarArchive ms \/ c = Gzip (TarArchive ms) ->
    unpacks dir p fs (extract_into ms dir fs)
| unpacks_tar_gz (ms : list (string * content)) :
    endswith (basename p) ".tar.gz" = true ->
    lookup_file p fs = Some (Gzip (TarArchive ms)) ->
    unpacks dir p fs
      (extract_into ms dir
         (write_file (path_join dir (drop_last 3 (basename p))) (TarArchive ms) fs)).

(** What the parser makes of the file at [x] when the disk holds [fs]. *)
Definition parsed (fs : list (string * content)) (x : string)
  : result (option report) :=
  fst (_parse_dmarc_xml x (mkWorld fs [])).

(** The reports parsed from a list of paths, one per successful parse. *)
Definition reports_of (fs : list (string * content)) (xs : list string)
  : list report :=
  flat_map (fun x => match parsed fs x with
                     | inr (Some r) => [r]
                     | _ => []
                     end) xs.

End Vocabulary.

(** * Further vocabulary *)

(** ** Sums and tallies *)

(** The sum of [f] over a list. *)
Definition sum_of {A : Type} (f : A -> Z) (l : list A) : Z :=
  fold_right (fun x n => f x + n) 0 l.

(** What one record does to the statistics of its source IP. *)
Definition ip_step (r : record) (s : ip_stats) : ip_stats :=
  let both := is_pass (r_dkim r) && is_pass (r_spf r) in
  when both (add_s_dmarc_pass (r_count r))
    (when (is_pass (r_spf r)) (add_s_spf_pass (r_count r))
       (when (is_pass (r_dkim r)) (add_s_dkim_pass (r_count r))
          (add_s_count (r_count r) s))).

(** What one record does to the statistics of its day. *)
Definition day_step (r : record) (s : day_stats) : day_stats :=
  let both := is_pass (r_dkim r) && is_pass (r_spf r) in
  when both (add_d_dmarc_pass (r_count r))
    (when (is_pass (r_spf r)) (add_d_spf_pass (r_count r))
       (when (is_pass (r_dkim r)) (add_d_dkim_pass (r_count r))
          (add_d_total (r_count r) s))).

(** The tallies of the loop agree with its counters, and no key is kept
    twice. *)
Definition tallies_agree (a : acc) : Prop :=
  sum_of (fun e => s_count (snd e)) (ip_data a) = total_messages a /\
  sum_of (fun e => s_dkim_pass (snd e)) (ip_data a) = dkim_pass a /\
  sum_of (fun e => s_spf_pass (snd e)) (ip_data a) = spf_pass a /\
  sum_of (fun e => s_dmarc_pass (snd e)) (ip_data a) = dmarc_pass a /\
  sum_of (fun e => d_total (snd e)) (daily_stats a) = total_messages a /\
  sum_of (fun e => d_dkim_pass (snd e)) (daily_stats a) = dkim_pass a /\
  sum_of (fun e => d_spf_pass (snd e)) (daily_stats a) = spf_pass a /\
  sum_of (fun e => d_dmarc_pass (snd e)) (daily_stats a) = dmarc_pass a /\
  sum_of snd (dispositions a) = total_messages a /\
  NoDup (map fst (ip_data a)) /\
  NoDup (map fst (daily_stats a)).

(** [c] when [b] holds, 0 otherwise. *)
Definition flag (b : bool) (c : Z) : Z := if b then c else 0.

(** Passes never exceed the volume, and both-pass never exceeds either. *)
Definition ip_bounded (s : ip_stats) : Prop :=
  0 <= s_dmarc_pass s /\ s_dmarc_pass s <= s_dkim_pass s /\
  s_dmarc_pass s <= s_spf_pass s /\ s_dkim_pass s <= s_count s /\
  s_spf_pass s <= s_count s.

Definition day_bounded (s : day_stats) : Prop :=
  0 <= d_dmarc_pass s /\ d_dmarc_pass s <= d_dkim_pass s /\
  d_dmarc_pass s <= d_spf_pass s /\ d_dkim_pass s <= d_total s /\
  d_spf_pass s <= d_total s.

Definition counters_bounded (a : acc) : Prop :=
  0 <= dmarc_pass a /\ dmarc_pass a <= dkim_pass a /\
  dmarc_pass a <= spf_pass a /\ dkim_pass a <= total_messages a /\
  spf_pass a <= total_messages a /\
  Forall (fun e => ip_bounded (snd e)) (ip_data a) /\
  Forall (fun e => day_bounded (snd e)) (daily_stats a).

(** The records that name [ip] as their source, and their volume. *)
Definition records_from (ip : pystr) (rs : list record) : list record :=
  filter (fun r => pystr_eqb (r_source_ip r) ip) rs.
Definition ip_volume (reports : list report) (ip : pystr) : Z :=
  sum_counts (records_from ip (all_records reports)).

(** ** Dates *)

(** Ascending order on date strings, as [sorted] compares them. *)
Definition string_le (x y : string) : Prop := String.leb x y = true.

(** The smallest [date_begin] and the largest [date_end] of a batch that
    starts with [rep]. *)
Definition first_begin (rep : report) (rest : list report) : Z :=
  fold_left Z.min (map date_begin rest) (date_begin rep).
Definition last_end (rep : report) (rest : list report) : Z :=
  fold_left Z.max (map date_end rest) (date_end rep).

Section MoreVocabulary.
Context {EV : Env}.

(** How the result renders a bound of the date range. *)
Definition rendered (t : Z) (s : pystr) : Prop :=
  (t = 0 -> s = None) /\
  (t <> 0 -> exists d, strftime_local t = inr d /\ s = Some d).

(** The days met by the loop: those of the reports that have a record. *)
Definition day_of_some_record (reports : list report) (d : string) : Prop :=
  exists rep, In rep reports /\ records rep <> [] /\
              strftime_local (date_begin rep) = inr d.

(** ** The parse loop *)

(** The entry [process_files] keeps for a file whose parse raised [e]. *)
Definition error_message (x : string) (e : exn) : string :=
  "Error parsing " ++ basename x ++ ": " ++ exn_str e.

(** The parse errors of a list of paths, one per parse that raised. *)
Definition errors_of (fs : list (string * content)) (xs : list string)
  : list string :=
  flat_map (fun x => match parsed fs x with
                     | inl e => [error_message x e]
                     | inr _ => []
                     end) xs.

(** The paths whose parse returned [None]. *)
Definition skipped_of (fs : list (string * content)) (xs : list string)
  : list string :=
  filter (fun x => match parsed fs x with
                   | inr None => true
                   | _ => false
                   end) xs.

End MoreVocabulary.

(** ** The unwrapper *)

(** No path is lost between two worlds and the log is only appended to. *)
Definition grows (w w' : world) : Prop :=
  (forall q, In q (map fst (files w)) -> In q (map fst (files w'))) /\
  exists more, logged w' = (logged w ++ more)%list.

(** An unwrapping step on [p], started in [w], returned paths that end in
    [.xml], each the path [p] itself or a file on disk, and lost nothing. *)
Definition returns_xml (p : string) (w : world)
  (out : result (list string) * world) : Prop :=
  exists xs w',
    out = (inr xs, w') /\ grows w w' /\
    forall x, In x xs ->
      endswith x ".xml" = true /\ (x = p \/ In x (map fst (files w'))).

(** The archive library cannot open what the path holds. *)
Definition not_zip (c : option content) : Prop :=
  forall ms, c <> Some (ZipArchive ms).
Definition not_tar (c : option content) : Prop :=
  forall ms, c <> Some (TarArchive ms) /\ c <> Some (Gzip (TarArchive ms)).

(** The suffixes [_extract_files] has a branch for. *)
Definition known_suffix (filename : string) : bool :=
  endswith filename ".zip" || endswith filename ".gz" ||
  (endswith filename ".tar" || endswith filename ".tar.gz") ||
  endswith filename ".xml".

(** * Sample inputs *)

(** An element with text only, and one with children only. *)
Definition leaf (tag text : string) : Element := Elem tag (Some text) [].
Definition node (tag : string) (children : list Element) : Element :=
  Elem tag None children.

(** A complete record, with every tag passed through [q]. *)
Definition sample_record (q : string -> string) (ip count dkim spf : string)
  : Element :=
  node (q "record")
    [node (q "row")
       [leaf (q "source_ip") ip; leaf (q "count") count;
        node (q "policy_evaluated")
          [leaf (q "disposition") "none"; leaf (q "dkim") dkim;
           leaf (q "spf") spf]];
     node (q "identifiers") [leaf (q "header_from") "example.com"]].

Definition sample_metadata (q : string -> string) : Element :=
  node (q "report_metadata")
    [leaf (q "org_name") "Test Org"; leaf (q "report_id") "test-123";
     node (q "date_range")
       [leaf (q "begin") "1640000000"; leaf (q "end") "1640086400"]].

Definition sample_policy (q : string -> string) : Element :=
  node (q "policy_published") [leaf (q "domain") "example.com"; leaf (q "p") "none"].

(** The tag of an element without a namespace. *)
Definition plain (name : string) : string := name.

(** The report of the repository's own test, without a namespace. *)
Definition sample_report_xml : Element :=
  node "feedback"
    [sample_metadata plain; sample_policy plain;
     sample_record plain "10.0.0.1" "100" "pass" "pass";
     sample_record plain "10.0.0.2" "50" "fail" "pass"].

(** The same report without its [report_metadata], plain and namespaced. *)
Definition no_metadata_xml (q : string -> string) : Element :=
  node (q "feedback")
    [sample_policy q; sample_record q "10.0.0.1" "100" "pass" "pass"].

(** A namespaced report whose first record has no [row]. *)
Definition rowless_record_xml : Element :=
  node (dmarc_tag "feedback")
    [sample_metadata dmarc_tag; sample_policy dmarc_tag;
     node (dmarc_tag "record")
       [node (dmarc_tag "identifiers") [leaf (dmarc_tag "header_from") "example.com"]];
     sample_record dmarc_tag "10.0.0.2" "50" "fail" "pass"].

(** A disk with one XML file and an empty log. *)
Definition one_file (path : string) (root : Element) : world :=
  mkWorld [(path, XmlDoc root)] [].

(** The reports of the repository's own test of the aggregator. *)
Definition sample_reports : list report :=
  [mkReport (Some "Test Provider") (Some "test-001") (Some "example.com")
     (Some "none") 1640000000 1640086400
     [mkRecord (Some "10.0.0.1") 100 (Some "none") (Some "pass") (Some "pass")
        (Some "example.com");
      mkRecord (Some "10.0.0.2") 50 (Some "none") (Some "fail") (Some "pass")
        (Some "example.com")]].

(** Three sources, the first and the last with the same volume. *)
Definition tied_reports : list report :=
  [mkReport (Some "Org") (Some "r-1") (Some "example.com") (Some "none")
     1640000000 1640086400
     [mkRecord (Some "10.0.0.1") 5 (Some "none") (Some "pass") (Some "pass") None;
      mkRecord (Some "10.0.0.2") 7 (Some "none") (Some "pass") (Some "fail") None;
      mkRecord (Some "10.0.0.3") 5 (Some "none") (Some "fail") (Some "fail") None]].

(** A report without records, and a record that passes both checks. *)
Definition sample_report : report :=
  mkReport (Some "Test Provider") (Some "test-001") (Some "example.com")
    (Some "none") 1640000000 1640086400 [].

Definition passing_record : record :=
  mkRecord (Some "10.0.0.1") 100 (Some "none") (Some "pass") (Some "pass")
    (Some "example.com").

Definition report_path : string := "/tmp/session/report.xml".
Definition session : string := "/tmp/session".

(** Two archives uploaded into the session directory, one report each. *)
Definition archive_a : list (string * content) :=
  [("a.xml", XmlDoc sample_report_xml)].
Definition archive_b : list (string * content) :=
  [("b.xml", XmlDoc sample_report_xml)].

Definition two_archives : world :=
  mkWorld [("/tmp/session/a.zip", ZipArchive archive_a);
           ("/tmp/session/b.zip", ZipArchive archive_b)] [].

(** The disk after the first and after the second extraction. *)
Definition after_a : list (string * content) :=
  extract_into archive_a session (files two_archives).
Definition after_b : list (string * content) :=
  extract_into archive_b session after_a.

(** A report of the following day, from another organisation. *)
Definition later_report : report :=
  mkReport (Some "Other Provider") (Some "test-002") (Some "example.org")
    (Some "reject") 1640086400 1640172800
    [mkRecord (Some "10.0.0.1") 30 (Some "reject") (Some "fail") (Some "fail")
       (Some "example.org")].

Definition two_day_reports : list report := (sample_reports ++ [later_report])%list.

(** A gzip-compressed report, and a file of that name that is no gzip. *)
Definition gz_path : string := "/tmp/session/report.xml.gz".
Definition gz_upload : world :=
  mkWorld [(gz_path, Gzip (XmlDoc sample_report_xml))] [].
Definition bad_gz_upload : world := mkWorld [(gz_path, Other)] [].

(** * Properties of the program *)

(** ** Reasoning about the error monad *)

Lemma bind_inr {A B : Type} (m : result A) (k : A -> result B) (b : B) :
  bind m k = inr b -> exists a, m = inr a /\ k a = inr b.
Proof.
  destruct m as [e | a]; simpl; intros Hb; [discriminate | eauto].
Qed.

Lemma bind_inl {A B : Type} (m : result A) (k : A -> result B) (e : exn) :
  bind m k = inl e -> m = inl e \/ exists a, m = inr a /\ k a = inl e.
Proof.
  destruct m as [e' | a]; simpl; intros Hb;
    [injection Hb as ->; left; reflexivity | right; eauto].
Qed.

Ltac inv_bind H :=
  let x := fresh "x" in
  let Hx := fresh "Hx" in
  apply bind_inr in H; destruct H as (x & Hx & H).

(** ** The sum of the message counts *)

Lemma sum_counts_app (l1 l2 : list record) :
  sum_counts (l1 ++ l2) = sum_counts l1 + sum_counts l2.
Proof.
  induction l1 as [| r l1 IH]; simpl; [reflexivity | rewrite IH; lia].
Qed.

Section AggregatorFacts.
Context {float : Type} {FO : FloatOps float} {EV : Env}.

Lemma process_record_balanced (rep : report) (a a' : acc) (r : record) (base : Z) :
  balanced base a -> process_record rep a r = inr a' ->
  balanced (base + r_count r) a'.
Proof.
  unfold balanced, process_record.
  intros (Hd & Hs & Hm & Ht) Hrun. inv_bind Hrun.
  injection Hrun as <-; simpl.
  destruct (is_pass (r_dkim r)), (is_pass (r_spf r)); simpl; lia.
Qed.

Lemma records_loop_balanced (rep : report) (rs : list record) :
  forall (a a' : acc) (base : Z),
    balanced base a -> for_each (process_record rep) rs a = inr a' ->
    balanced (base + sum_counts rs) a'.
Proof.
  induction rs as [| r rs IH]; simpl; intros a a' base Ha Hrun.
  - injection Hrun as <-. replace (base + 0) with base by lia. exact Ha.
  - inv_bind Hrun.
    replace (base + (r_count r + sum_counts rs))
      with (base + r_count r + sum_counts rs) by lia.
    eapply IH; [| exact Hrun]. eapply process_record_balanced; eauto.
Qed.

Lemma process_report_balanced (a a' : acc) (rep : report) (base : Z) :
  balanced base a -> process_report a rep = inr a' ->
  balanced (base + sum_counts (records rep)) a'.
Proof.
  unfold process_report; intros Ha Hrun.
  eapply records_loop_balanced; [| exact Hrun]. exact Ha.
Qed.

Lemma accumulate_balanced (reports : list report) :
  forall (a a' : acc) (base : Z),
    balanced base a -> for_each process_report reports a = inr a' ->
    balanced (base + sum_counts (all_records reports)) a'.
Proof.
  unfold all_records.
  induction reports as [| rep reports IH]; simpl; intros a a' base Ha Hrun.
  - injection Hrun as <-. replace (base + 0) with base by lia. exact Ha.
  - inv_bind Hrun. rewrite sum_counts_app.
    replace (base + (sum_counts (records rep) + sum_counts (flat_map records reports)))
      with (base + sum_counts (records rep) + sum_counts (flat_map records reports)) by lia.
    eapply IH; [| exact Hrun]. eapply process_report_balanced; eauto.
Qed.

Lemma generate_analytics_inr (reports : list report) (res : analytics float) :
  _generate_analytics reports = inr res ->
  exists a, accumulate reports = inr a /\ finish (List.length reports) a = inr res.
Proof.
  unfold _generate_analytics; intros Hrun. inv_bind Hrun. eauto.
Qed.

Lemma finish_counters (n : nat) (a : acc) (res : analytics float) :
  finish n a = inr res ->
  summary_total_messages res = total_messages a /\
  auth_dkim_pass res = dkim_pass a /\ auth_dkim_fail res = dkim_fail a /\
  auth_spf_pass res = spf_pass a /\ auth_spf_fail res = spf_fail a.
Proof.
  unfold finish; intros Hrun.
  repeat inv_bind Hrun. injection Hrun as <-; simpl. repeat split; reflexivity.
Qed.

(** Claim C1.  Whenever the aggregator returns a result, the counters of
    its loop satisfy [dkim_pass + dkim_fail = total_messages],
    [spf_pass + spf_fail = total_messages] and
    [dmarc_pass + dmarc_fail = total_messages], where [total_messages] is
    the sum of [count] over all records of all reports.  The total and
    the DKIM and SPF counts are the ones the result carries; [dmarc_pass]
    and [dmarc_fail] stay local to the function. *)
Theorem pass_fail_partition (reports : list report) (res : analytics float) :
  _generate_analytics reports = inr res ->
  exists a : acc,
    accumulate reports = inr a /\
    dkim_pass a + dkim_fail a = total_messages a /\
    spf_pass a + spf_fail a = total_messages a /\
    dmarc_pass a + dmarc_fail a = total_messages a /\
    total_messages a = sum_counts (all_records reports) /\
    summary_total_messages res = total_messages a /\
    auth_dkim_pass res + auth_dkim_fail res = summary_total_messages res /\
    auth_spf_pass res + auth_spf_fail res = summary_total_messages res.
Proof.
  intros Hrun. apply generate_analytics_inr in Hrun as (a & Hacc & Hfin).
  exists a. split; [exact Hacc |].
  assert (Hb : balanced (0 + sum_counts (all_records reports)) a).
  { eapply accumulate_balanced; [| exact Hacc].
    unfold balanced, acc_init; simpl; lia. }
  destruct Hb as (Hd & Hs & Hm & Ht).
  apply finish_counters in Hfin as (E1 & E2 & E3 & E4 & E5).
  rewrite E1, E2, E3, E4, E5. repeat split; assumption.
Qed.

(** ** Facts about [defaultdict] updates *)

Lemma pystr_eqb_eq (a b : pystr) : pystr_eqb a b = true <-> a = b.
Proof.
  destruct a as [x |], b as [y |]; simpl; split; intros E;
    try discriminate; try reflexivity.
  - apply String.eqb_eq in E. now subst.
  - injection E as ->. apply String.eqb_refl.
Qed.

Lemma pystr_eqb_refl (a : pystr) : pystr_eqb a a = true.
Proof. now apply pystr_eqb_eq. Qed.

Lemma is_pass_iff (a : pystr) : is_pass a = true <-> a = Some "pass".
Proof. apply pystr_eqb_eq. Qed.

Lemma dd_get_update_same {K V : Type} (eqb : K -> K -> bool) (dflt : V)
  (k : K) (f : V -> V) (d : list (K * V)) :
  eqb k k = true ->
  dd_get eqb dflt k (dd_update eqb dflt k f d) = f (dd_get eqb dflt k d).
Proof.
  intros Hrefl. induction d as [| [k' v] d IH]; simpl.
  - now rewrite Hrefl.
  - destruct (eqb k k') eqn:E; simpl; rewrite E; [reflexivity | exact IH].
Qed.

Lemma dd_get_when {K V : Type} (eqb : K -> K -> bool) (dflt : V)
  (k : K) (f : V -> V) (b : bool) (d : list (K * V)) :
  eqb k k = true ->
  dd_get eqb dflt k (when b (dd_update eqb dflt k f) d)
  = when b f (dd_get eqb dflt k d).
Proof.
  intros Hrefl. destruct b; simpl; [now apply dd_get_update_same | reflexivity].
Qed.

Lemma both_pass_iff (r : record) :
  is_pass (r_dkim r) && is_pass (r_spf r) = true
  <-> r_dkim r = Some "pass" /\ r_spf r = Some "pass".
Proof.
  rewrite andb_true_iff, !is_pass_iff. reflexivity.
Qed.

(** Claim C2.  One pass of the record loop adds the record's count to
    [dmarc_pass], and to the [dmarc_pass] tally of the record's source IP
    and of the report's day, when [dkim] and [spf] both equal ['pass'];
    in every other case (any other string, or [None]) it adds the count
    to [dmarc_fail] and leaves the three [dmarc_pass] tallies alone. *)
Theorem dmarc_pass_rule (rep : report) (a a' : acc) (r : record) :
  process_record rep a r = inr a' ->
  exists date_str : string,
    strftime_local (date_begin rep) = inr date_str /\
    let c := r_count r in
    let ip_tally (x : acc) :=
      s_dmarc_pass (dd_get pystr_eqb ip_default (r_source_ip r) (ip_data x)) in
    let day_tally (x : acc) :=
      d_dmarc_pass (dd_get String.eqb day_default date_str (daily_stats x)) in
    (r_dkim r = Some "pass" /\ r_spf r = Some "pass" ->
       dmarc_pass a' = dmarc_pass a + c /\ dmarc_fail a' = dmarc_fail a /\
       ip_tally a' = ip_tally a + c /\ day_tally a' = day_tally a + c) /\
    (~ (r_dkim r = Some "pass" /\ r_spf r = Some "pass") ->
       dmarc_pass a' = dmarc_pass a /\ dmarc_fail a' = dmarc_fail a + c /\
       ip_tally a' = ip_tally a /\ day_tally a' = day_tally a).
Proof.
  unfold process_record; intros Hrun.
  apply bind_inr in Hrun as (date_str & Hdate & Hrun).
  exists date_str. split; [exact Hdate |].
  injection Hrun as <-; simpl.
  unfold ip_update, day_update.
  rewrite !dd_get_when, !dd_get_update_same
    by (apply pystr_eqb_refl || apply String.eqb_refl).
  pose proof (both_pass_iff r) as Hboth.
  destruct (is_pass (r_dkim r) && is_pass (r_spf r)) eqn:E.
  - split; [intros _ | intros Hn; exfalso; apply Hn, Hboth; reflexivity].
    destruct (is_pass (r_dkim r)), (is_pass (r_spf r)); simpl;
      repeat split; reflexivity.
  - split; [intros Hp; apply Hboth in Hp; discriminate | intros _].
    destruct (is_pass (r_dkim r)), (is_pass (r_spf r)); simpl;
      repeat split; reflexivity.
Qed.

(** ** Rates *)

Lemma rate_value (num den : Z) (x : pynum float) :
  rate num den = inr x ->
  (0 < den ->
     exists q, float_of_quot num den = Some q /\
               x = PFloat (float_round (float_mul_int q 100) 2)) /\
  (den <= 0 -> x = PInt 0).
Proof.
  unfold rate, truediv. destruct (den >? 0) eqn:Hpos.
  - apply Z.gtb_lt in Hpos.
    destruct (den =? 0) eqn:Hz; [apply Z.eqb_eq in Hz; lia |].
    destruct (float_of_quot num den) as [q |]; simpl; [| discriminate].
    intros E; injection E as <-. split; [eauto | lia].
  - intros E; injection E as <-.
    assert (~ den > 0) by (rewrite Z.gtb_ltb in Hpos; apply Z.ltb_ge in Hpos; lia).
    split; [lia | reflexivity].
Qed.

Lemma rate_error (num den : Z) (e : exn) :
  rate num den = inl e -> exn_class e = OverflowError.
Proof.
  unfold rate, truediv. destruct (den >? 0) eqn:Hpos; [| discriminate].
  apply Z.gtb_lt in Hpos.
  destruct (den =? 0) eqn:Hz; [apply Z.eqb_eq in Hz; lia |].
  destruct (float_of_quot num den); simpl; [discriminate |].
  intros E; injection E as <-. reflexivity.
Qed.

(** ** Lists built by a loop that may raise *)

Lemma map_result_inr {A B : Type} (f : A -> result B) (l : list A) :
  forall l', map_result f l = inr l' -> Forall2 (fun x y => f x = inr y) l l'.
Proof.
  induction l as [| x l IH]; simpl; intros l' Hrun.
  - injection Hrun as <-. constructor.
  - apply bind_inr in Hrun as (y & Hy & Hrun).
    apply bind_inr in Hrun as (ys & Hys & Hrun).
    injection Hrun as <-. constructor; auto.
Qed.

Lemma map_result_inl {A B : Type} (f : A -> result B) (l : list A) (e : exn) :
  map_result f l = inl e -> exists x, In x l /\ f x = inl e.
Proof.
  induction l as [| x l IH]; simpl; intros Hrun; [discriminate |].
  apply bind_inl in Hrun as [Hx | (y & Hy & Hrun)].
  - exists x; auto.
  - apply bind_inl in Hrun as [Hl | (ys & Hys & Hrun)]; [| discriminate].
    destruct (IH Hl) as (x' & Hin & Hx'). exists x'; auto.
Qed.

Lemma Forall2_in_right {A B : Type} (R : A -> B -> Prop) (l : list A) (l' : list B) :
  Forall2 R l l' -> forall y, In y l' -> exists x, In x l /\ R x y.
Proof.
  induction 1 as [| x y l l' Hxy _ IH]; simpl; intros z Hz; [contradiction |].
  destruct Hz as [<- | Hz]; [exists x; auto |].
  destruct (IH z Hz) as (x' & Hin & Hr). exists x'; auto.
Qed.

Lemma for_each_inl {A S : Type} (body : S -> A -> result S) (l : list A) :
  forall s e, for_each body l s = inl e -> exists s0 x, In x l /\ body s0 x = inl e.
Proof.
  induction l as [| x l IH]; simpl; intros s e Hrun; [discriminate |].
  apply bind_inl in Hrun as [Hx | (s1 & Hs1 & Hrun)].
  - exists s, x; auto.
  - destruct (IH _ _ Hrun) as (s0 & x' & Hin & Hx'). exists s0, x'; auto.
Qed.

(** ** The stable sort by count *)

Lemma insert_by_count_perm (x : ip_info float) (l : list (ip_info float)) :
  Permutation (x :: l) (insert_by_count x l).
Proof.
  induction l as [| y l IH]; simpl; [reflexivity |].
  destruct (i_count y >? i_count x); [| reflexivity].
  rewrite perm_swap. now apply perm_skip.
Qed.

Lemma sort_by_count_perm (l : list (ip_info float)) : Permutation l (sort_by_count l).
Proof.
  induction l as [| x l IH]; simpl; [constructor |].
  rewrite <- insert_by_count_perm. now apply perm_skip.
Qed.

Lemma insert_by_count_sorted (x : ip_info float) (l : list (ip_info float)) :
  StronglySorted count_ge l -> StronglySorted count_ge (insert_by_count x l).
Proof.
  induction 1 as [| y l Hs IH Hy]; simpl.
  - repeat constructor.
  - destruct (i_count y >? i_count x) eqn:E.
    + constructor; [exact IH |].
      apply Z.gtb_lt in E.
      rewrite Forall_forall in *. intros z Hz.
      apply (Permutation_in _ (Permutation_sym (insert_by_count_perm x l))) in Hz.
      destruct Hz as [<- | Hz]; [unfold count_ge; lia | auto].
    + assert (Hle : i_count y <= i_count x)
        by (rewrite Z.gtb_ltb in E; apply Z.ltb_ge in E; exact E).
      constructor; [constructor; assumption |].
      constructor; [exact Hle |].
      rewrite Forall_forall in *. intros z Hz. specialize (Hy z Hz).
      unfold count_ge in *; lia.
Qed.

Lemma sort_by_count_sorted (l : list (ip_info float)) :
  StronglySorted count_ge (sort_by_count l).
Proof.
  induction l as [| x l IH]; simpl; [constructor |].
  now apply insert_by_count_sorted.
Qed.

Lemma before_cons {A : Type} (x y z : A) (l : list A) :
  before x y l -> before x y (z :: l).
Proof.
  intros (l1 & l2 & l3 & ->). now exists (z :: l1), l2, l3.
Qed.

Lemma before_head {A : Type} (x y : A) (l : list A) :
  In y l -> before x y (x :: l).
Proof.
  intros Hin. apply in_split in Hin as (l2 & l3 & ->). now exists [], l2, l3.
Qed.

Lemma before_inv {A : Type} (x y z : A) (l : list A) :
  before x y (z :: l) -> (x = z /\ In y l) \/ before x y l.
Proof.
  intros (l1 & l2 & l3 & E). destruct l1 as [| w l1]; simpl in E.
  - injection E as -> ->. left. split; [reflexivity |].
    apply in_or_app; right; now left.
  - injection E as -> ->. right. now exists l1, l2, l3.
Qed.

Lemma before_map {A B : Type} (f : A -> B) (x y : A) (l : list A) :
  before x y l -> before (f x) (f y) (map f l).
Proof.
  intros (l1 & l2 & l3 & ->). exists (map f l1), (map f l2), (map f l3).
  now rewrite map_app, (map_cons f x), map_app.
Qed.

Lemma before_firstn {A : Type} (n : nat) (x y : A) (l : list A) :
  before x y (firstn n l) -> before x y l.
Proof.
  intros (l1 & l2 & l3 & E). exists l1, l2, (l3 ++ skipn n l)%list.
  rewrite <- (firstn_skipn n l) at 1. rewrite E.
  now rewrite <- !app_assoc, <- !app_comm_cons, <- !app_assoc, <- app_comm_cons.
Qed.

(** An entry that ends up behind another one was behind it already, or
    has a strictly smaller count. *)
Lemma insert_by_count_before (z x y : ip_info float) (l : list (ip_info float)) :
  before x y (insert_by_count z l) ->
  (x = z /\ In y l) \/ (y = z /\ i_count z < i_count x) \/ before x y l.
Proof.
  induction l as [| w l IH]; simpl; intros Hb.
  - destruct Hb as (l1 & l2 & l3 & E).
    destruct l1 as [| ? [| ? ?]]; simpl in E; try discriminate.
    + injection E as _ E. destruct l2; discriminate.
  - destruct (i_count w >? i_count z) eqn:E.
    + apply Z.gtb_lt in E.
      apply before_inv in Hb as [(-> & Hin) | Hb].
      * apply (Permutation_in _ (Permutation_sym (insert_by_count_perm z l))) in Hin.
        destruct Hin as [<- | Hin].
        -- right; left; split; [reflexivity | exact E].
        -- right; right. now apply before_head.
      * destruct (IH Hb) as [(-> & Hin) | [(-> & Hlt) | Hb']].
        -- left. split; [reflexivity | now right].
        -- right; left. split; [reflexivity | exact Hlt].
        -- right; right. now apply before_cons.
    + apply before_inv in Hb as [(-> & Hin) | Hb].
      * left. split; [reflexivity | exact Hin].
      * right; right. exact Hb.
Qed.

Lemma sort_by_count_stable (x y : ip_info float) (l : list (ip_info float)) :
  before x y (sort_by_count l) -> i_count x = i_count y -> before x y l.
Proof.
  induction l as [| z l IH]; simpl; intros Hb Heq.
  - destruct Hb as (l1 & l2 & l3 & E). destruct l1; discriminate.
  - apply insert_by_count_before in Hb as [(-> & Hin) | [(-> & Hlt) | Hb]].
    + apply before_head.
      now apply (Permutation_in _ (Permutation_sym (sort_by_count_perm l))).
    + lia.
    + apply before_cons. now apply IH.
Qed.

(** ** The keys of [ip_data]: source IPs in the order first seen *)

Lemma dd_update_keys (dflt : ip_stats) (k : pystr) (f : ip_stats -> ip_stats)
  (d : list (pystr * ip_stats)) :
  map fst (dd_update pystr_eqb dflt k f d) = set_add k (map fst d).
Proof.
  unfold set_add. induction d as [| [k' v] d IH]; simpl; [reflexivity |].
  destruct (pystr_eqb k k') eqn:E; simpl; [reflexivity |].
  rewrite IH. now destruct (existsb (pystr_eqb k) (map fst d)).
Qed.

Lemma set_add_mem (k : pystr) (s : list pystr) :
  existsb (pystr_eqb k) (set_add k s) = true.
Proof.
  unfold set_add. destruct (existsb (pystr_eqb k) s) eqn:E; [exact E |].
  rewrite existsb_app; simpl. now rewrite pystr_eqb_refl, orb_true_r.
Qed.

Lemma set_add_idem (k : pystr) (s : list pystr) :
  set_add k (set_add k s) = set_add k s.
Proof.
  unfold set_add at 1. now rewrite set_add_mem.
Qed.

Lemma when_update_keys (b : bool) (k : pystr) (f : ip_stats -> ip_stats)
  (d : list (pystr * ip_stats)) (s : list pystr) :
  map fst d = set_add k s ->
  map fst (when b (ip_update k f) d) = set_add k s.
Proof.
  intros E. destruct b; simpl; [| exact E].
  unfold ip_update. now rewrite dd_update_keys, E, set_add_idem.
Qed.

Lemma process_record_keys (rep : report) (a a' : acc) (r : record) :
  process_record rep a r = inr a' ->
  map fst (ip_data a') = set_add (r_source_ip r) (map fst (ip_data a)).
Proof.
  unfold process_record; intros Hrun. inv_bind Hrun.
  injection Hrun as <-; simpl.
  repeat apply when_update_keys. unfold ip_update. apply dd_update_keys.
Qed.

Lemma records_loop_keys (rep : report) (rs : list record) :
  forall a a', for_each (process_record rep) rs a = inr a' ->
    map fst (ip_data a')
    = fold_left (fun seen r => set_add (r_source_ip r) seen) rs (map fst (ip_data a)).
Proof.
  induction rs as [| r rs IH]; simpl; intros a a' Hrun.
  - now injection Hrun as <-.
  - inv_bind Hrun. rewrite (IH _ _ Hrun).
    now rewrite (process_record_keys _ _ _ _ Hx).
Qed.

Lemma accumulate_keys (reports : list report) :
  forall a a', for_each process_report reports a = inr a' ->
    map fst (ip_data a')
    = fold_left (fun seen r => set_add (r_source_ip r) seen)
        (all_records reports) (map fst (ip_data a)).
Proof.
  unfold all_records.
  induction reports as [| rep reports IH]; simpl; intros a a' Hrun.
  - now injection Hrun as <-.
  - inv_bind Hrun. rewrite fold_left_app, (IH _ _ Hrun).
    unfold process_report in Hx. apply records_loop_keys in Hx.
    simpl in Hx. now rewrite Hx.
Qed.

Lemma make_ip_info_fields (entry : pystr * ip_stats) (i : ip_info float) :
  make_ip_info entry = inr i ->
  i_ip i = fst entry /\ i_count i = s_count (snd entry) /\
  i_dmarc_pass i = s_dmarc_pass (snd entry) /\
  rate (s_dmarc_pass (snd entry)) (s_count (snd entry)) = inr (i_compliance_rate i).
Proof.
  destruct entry as [ip stats]; unfold make_ip_info; intros Hrun.
  apply bind_inr in Hrun as (cr & Hcr & Hrun).
  injection Hrun as <-; simpl. auto.
Qed.

Lemma ip_list_keys (d : list (pystr * ip_stats)) (l : list (ip_info float)) :
  map_result make_ip_info d = inr l -> map i_ip l = map fst d.
Proof.
  intros Hrun. apply map_result_inr in Hrun.
  induction Hrun as [| x y d l Hxy _ IH]; simpl; [reflexivity |].
  apply make_ip_info_fields in Hxy as (-> & _). now rewrite IH.
Qed.

Lemma StronglySorted_firstn {A : Type} (R : A -> A -> Prop) (n : nat) (l : list A) :
  StronglySorted R l -> StronglySorted R (firstn n l).
Proof.
  intros Hs; revert n. induction Hs as [| x l Hs IH Hx]; intros [| n]; simpl;
    try constructor; [apply IH |].
  rewrite Forall_forall in *. intros y Hy. apply Hx.
  rewrite <- (firstn_skipn n l). apply in_or_app; now left.
Qed.

(** The entries of the sorted IP list, before truncation. *)
Lemma finish_inr (n : nat) (a : acc) (res : analytics float) :
  finish n a = inr res ->
  exists (ip_list : list (ip_info float)) (dc : pynum float),
    map_result make_ip_info (ip_data a) = inr ip_list /\
    map_result (make_timeline_entry (daily_stats a))
      (sorted_strings (map fst (daily_stats a))) = inr (timeline res) /\
    rate (dkim_pass a) (total_messages a) = inr (auth_dkim_pass_rate res) /\
    rate (spf_pass a) (total_messages a) = inr (auth_spf_pass_rate res) /\
    rate (dmarc_pass a) (total_messages a) = inr (auth_dmarc_compliance res) /\
    top_sources res = firstn 20 (sort_by_count ip_list) /\
    threats res = _identify_threats (sort_by_count ip_list) (auth_dmarc_compliance res).
Proof.
  unfold finish; intros Hrun.
  apply bind_inr in Hrun as (ip_list & Hip & Hrun).
  apply bind_inr in Hrun as (tl & Htl & Hrun).
  apply bind_inr in Hrun as (r1 & Hr1 & Hrun).
  apply bind_inr in Hrun as (r2 & Hr2 & Hrun).
  apply bind_inr in Hrun as (r3 & Hr3 & Hrun).
  repeat inv_bind Hrun. injection Hrun as <-; simpl.
  exists ip_list, r3. repeat split; assumption || reflexivity.
Qed.

(** Claim C5.  [top_sources] has [min 20 n] entries for [n] distinct source
    IPs, is sorted by descending count, and two entries of equal count
    stand in the order in which their IPs were first met in the reports.
    Every entry is one of the distinct IPs. *)
Theorem top_sources_order (reports : list report) (res : analytics float) :
  _generate_analytics reports = inr res ->
  List.length (top_sources res) = Nat.min 20 (List.length (distinct_ips reports)) /\
  StronglySorted (fun x y => i_count y <= i_count x) (top_sources res) /\
  (forall x y, before x y (top_sources res) -> i_count x = i_count y ->
     before (i_ip x) (i_ip y) (distinct_ips reports)) /\
  (forall x, In x (top_sources res) -> In (i_ip x) (distinct_ips reports)).
Proof.
  intros Hrun. apply generate_analytics_inr in Hrun as (a & Hacc & Hfin).
  apply finish_inr in Hfin as (ip_list & dc & Hip & _ & _ & _ & _ & Htop & _).
  pose proof (ip_list_keys _ _ Hip) as Hkeys.
  apply accumulate_keys in Hacc. simpl in Hacc. fold (distinct_ips reports) in Hacc.
  rewrite Hacc in Hkeys. rewrite Htop.
  repeat split.
  - rewrite length_firstn, <- Hkeys, length_map.
    now rewrite <- (Permutation_length (sort_by_count_perm ip_list)).
  - apply StronglySorted_firstn, sort_by_count_sorted.
  - intros x y Hb Heq. rewrite <- Hkeys. apply before_map.
    apply sort_by_count_stable; [| exact Heq]. eapply before_firstn; eassumption.
  - intros x Hx. rewrite <- Hkeys. apply in_map.
    apply (Permutation_in _ (Permutation_sym (sort_by_count_perm ip_list))).
    rewrite <- (firstn_skipn 20 (sort_by_count ip_list)).
    apply in_or_app; now left.
Qed.

(** ** Rates in the result *)

Lemma make_timeline_entry_fields (daily : list (string * day_stats))
  (date_str : string) (t : timeline_entry float) :
  make_timeline_entry daily date_str = inr t ->
  rate (t_dmarc_pass t) (t_total t) = inr (t_compliance_rate t).
Proof.
  unfold make_timeline_entry; intros Hrun.
  apply bind_inr in Hrun as (cr & Hcr & Hrun).
  injection Hrun as <-; simpl. exact Hcr.
Qed.

Lemma date_or_none_inl (t : option Z) (e : exn) :
  date_or_none t = inl e -> exists z, strftime_local z = inl e.
Proof.
  destruct t as [z |]; simpl; [| discriminate].
  destruct (z =? 0); [discriminate |].
  intros Hrun. apply bind_inl in Hrun as [Hz | (s & _ & Hs)]; [eauto | discriminate].
Qed.

Lemma finish_inl (n : nat) (a : acc) (e : exn) :
  finish n a = inl e ->
  exn_class e = OverflowError \/ exists z, strftime_local z = inl e.
Proof.
  unfold finish; intros Hrun.
  apply bind_inl in Hrun as [Hip | (ip_list & _ & Hrun)].
  { apply map_result_inl in Hip as ([ip stats] & _ & Hx).
    unfold make_ip_info in Hx.
    apply bind_inl in Hx as [Hr | (? & _ & ?)]; [| discriminate].
    left. eapply rate_error; eassumption. }
  apply bind_inl in Hrun as [Htl | (tl & _ & Hrun)].
  { apply map_result_inl in Htl as (d & _ & Hx).
    unfold make_timeline_entry in Hx.
    apply bind_inl in Hx as [Hr | (? & _ & ?)]; [| discriminate].
    left. eapply rate_error; eassumption. }
  apply bind_inl in Hrun as [Hr | (r1 & _ & Hrun)];
    [left; eapply rate_error; eassumption |].
  apply bind_inl in Hrun as [Hr | (r2 & _ & Hrun)];
    [left; eapply rate_error; eassumption |].
  apply bind_inl in Hrun as [Hr | (r3 & _ & Hrun)];
    [left; eapply rate_error; eassumption |].
  apply bind_inl in Hrun as [Hd | (d1 & _ & Hrun)];
    [right; eapply date_or_none_inl; eassumption |].
  apply bind_inl in Hrun as [Hd | (d2 & _ & Hrun)];
    [right; eapply date_or_none_inl; eassumption | discriminate].
Qed.

Lemma accumulate_inl (reports : list report) (e : exn) :
  accumulate reports = inl e -> exists z, strftime_local z = inl e.
Proof.
  unfold accumulate; intros Hrun.
  apply for_each_inl in Hrun as (a & rep & _ & Hrep).
  unfold process_report in Hrep.
  apply for_each_inl in Hrep as (a1 & r & _ & Hr).
  unfold process_record in Hr.
  apply bind_inl in Hr as [Hd | (? & _ & ?)]; [eauto | discriminate].
Qed.

(** Claim C4.  Every rate the aggregator computes is guarded: the per-IP
    and per-day [compliance_rate] and the overall DKIM, SPF and DMARC
    rates are [round(pass / count * 100, 2)] when the count is positive
    and the int [0] otherwise.  No division by zero happens: [rate] can
    only raise OverflowError, and an exception of the aggregator is that
    one or comes from the date conversion. *)
Theorem rates_guarded (reports : list report) :
  (forall num den e, rate num den = inl e -> exn_class e = OverflowError) /\
  (forall e, _generate_analytics reports = inl e ->
     exn_class e = OverflowError \/ exists z, strftime_local z = inl e) /\
  (forall res, _generate_analytics reports = inr res ->
     Forall (fun i => guarded_rate (i_dmarc_pass i) (i_count i) (i_compliance_rate i))
       (top_sources res) /\
     Forall (fun t => guarded_rate (t_dmarc_pass t) (t_total t) (t_compliance_rate t))
       (timeline res) /\
     guarded_rate (auth_dkim_pass res) (summary_total_messages res)
       (auth_dkim_pass_rate res) /\
     guarded_rate (auth_spf_pass res) (summary_total_messages res)
       (auth_spf_pass_rate res) /\
     exists a, accumulate reports = inr a /\
       guarded_rate (dmarc_pass a) (summary_total_messages res)
         (auth_dmarc_compliance res)).
Proof.
  split; [exact rate_error |]. split.
  - unfold _generate_analytics; intros e Hrun.
    apply bind_inl in Hrun as [Hacc | (a & _ & Hfin)].
    + right. eapply accumulate_inl; eassumption.
    + eapply finish_inl; eassumption.
  - intros res Hrun. apply generate_analytics_inr in Hrun as (a & Hacc & Hfin).
    destruct (finish_counters _ _ _ Hfin) as (E1 & E2 & _ & E4 & _).
    apply finish_inr in Hfin as (ip_list & dc & Hip & Htl & R1 & R2 & R3 & Htop & _).
    rewrite E1, E2, E4, Htop.
    refine (conj _ (conj _ (conj _ (conj _ _)))).
    + apply Forall_forall; intros i Hi.
      assert (Hin : In i ip_list).
      { apply (Permutation_in _ (Permutation_sym (sort_by_count_perm ip_list))).
        rewrite <- (firstn_skipn 20 (sort_by_count ip_list)).
        apply in_or_app; now left. }
      apply map_result_inr in Hip.
      destruct (Forall2_in_right _ _ _ Hip i Hin) as (entry & _ & Hentry).
      apply make_ip_info_fields in Hentry as (_ & -> & -> & Hr).
      apply rate_value; exact Hr.
    + apply Forall_forall; intros t Ht.
      apply map_result_inr in Htl.
      destruct (Forall2_in_right _ _ _ Htl t Ht) as (d & _ & Hd).
      apply rate_value. eapply make_timeline_entry_fields; eassumption.
    + apply rate_value; exact R1.
    + apply rate_value; exact R2.
    + exists a. split; [exact Hacc |]. apply rate_value; exact R3.
Qed.

(** ** Threat findings *)

Lemma fold_check_ip (l : list (ip_info float)) (found : list threat) :
  fold_left check_ip l found
  = (found ++ map suspicious_ip (filter risky l))%list.
Proof.
  revert found; induction l as [| i l IH]; simpl; intros found.
  - now rewrite app_nil_r.
  - rewrite IH. unfold check_ip, risky.
    destruct (num_ltb (i_compliance_rate i) 50 && (i_count i >? 10)); simpl.
    + now rewrite <- app_assoc.
    + reflexivity.
Qed.

Lemma identify_threats_rules (ip_list : list (ip_info float)) (dc : pynum float) :
  let rule1 := if num_ltb dc 80 then [low_compliance dc] else [] in
  let rule2 := map suspicious_ip (filter risky (firstn 10 ip_list)) in
  let rule3 := match (rule1 ++ rule2)%list with
               | [] => [no_threats]
               | _ :: _ => []
               end in
  _identify_threats ip_list dc = (rule1 ++ rule2 ++ rule3)%list.
Proof.
  cbv zeta. unfold _identify_threats. rewrite fold_check_ip.
  generalize (map suspicious_ip (filter risky (firstn 10 ip_list))) as found.
  intros found. destruct (num_ltb dc 80), found; simpl;
    rewrite ?app_nil_r; reflexivity.
Qed.

(** Claim C8.  The threat list is, in this order: one [warning] finding
    when the overall compliance is below 80; one [high] finding for each
    of the first ten sources by volume whose compliance rate is below 50
    and whose count exceeds 10, in their order; and one [success] finding
    when the first two rules produced nothing. *)
Theorem threat_rules (reports : list report) (res : analytics float) :
  _generate_analytics reports = inr res ->
  let dc := auth_dmarc_compliance res in
  let rule1 := if num_ltb dc 80 then [low_compliance dc] else [] in
  let rule2 := map suspicious_ip (filter risky (firstn 10 (top_sources res))) in
  let rule3 := match (rule1 ++ rule2)%list with
               | [] => [no_threats]
               | _ :: _ => []
               end in
  threats res = (rule1 ++ rule2 ++ rule3)%list /\
  level (low_compliance dc) = "warning" /\
  (forall i, level (suspicious_ip i) = "high") /\
  level no_threats = "success".
Proof.
  intros Hrun. apply generate_analytics_inr in Hrun as (a & Hacc & Hfin).
  apply finish_inr in Hfin as (ip_list & dc' & _ & _ & _ & _ & _ & Htop & Hthr).
  cbv zeta. split; [| repeat split].
  rewrite Hthr, Htop, firstn_firstn.
  change (Nat.min 10 20) with 10%nat. apply identify_threats_rules.
Qed.
End AggregatorFacts.

(** ** Computations in the world that cannot raise *)

Lemma retM_never_raises {A : Type} (a : A) : never_raises (retM a).
Proof. intros w; now exists a, w. Qed.

Lemma log_never_raises (lvl : log_level) (msg : string) : never_raises (log lvl msg).
Proof. intros w; unfold log; eauto. Qed.

Lemma bindM_never_raises {A B : Type} (m : M A) (k : A -> M B) :
  never_raises m -> (forall a, never_raises (k a)) -> never_raises (bindM m k).
Proof.
  intros Hm Hk w. unfold bindM.
  destruct (Hm w) as (a & w1 & ->). apply Hk.
Qed.

Lemma try_except_never_raises {A : Type} (body : M A) (handler : exn -> M A) :
  (forall e, never_raises (handler e)) -> never_raises (try_except body handler).
Proof.
  intros Hh w. unfold try_except.
  destruct (body w) as [[e | a] w1]; [apply Hh | eauto].
Qed.

Lemma for_eachM_never_raises {A S : Type} (body : S -> A -> M S) (l : list A) :
  (forall s x, never_raises (body s x)) -> forall s, never_raises (for_eachM body l s).
Proof.
  intros Hb. induction l as [| x l IH]; simpl; intros s.
  - apply retM_never_raises.
  - apply bindM_never_raises; auto.
Qed.

Lemma extract_files_at_never_raises (depth : nat) (file_path extract_dir : string) :
  never_raises (extract_files_at depth file_path extract_dir).
Proof.
  destruct depth; simpl; apply try_except_never_raises; intros e;
    (apply bindM_never_raises;
     [apply log_never_raises | intros _; apply retM_never_raises]).
Qed.

Lemma extract_files_never_raises (file_path extract_dir : string) :
  never_raises (_extract_files file_path extract_dir).
Proof. apply extract_files_at_never_raises. Qed.

Section ProcessorFacts.
Context {float : Type} {FO : FloatOps float} {EV : Env}.

Lemma extract_one_never_raises (session_dir : string) (xml_files : list string)
  (file_path : string) :
  never_raises (extract_one session_dir xml_files file_path).
Proof.
  apply bindM_never_raises;
    [apply extract_files_never_raises | intros ?; apply retM_never_raises].
Qed.

Lemma parse_one_never_raises (st : list report * list string) (xml_file : string) :
  never_raises (parse_one st xml_file).
Proof.
  destruct st as [reports parse_errors]. apply try_except_never_raises; intros e.
  apply bindM_never_raises;
    [apply log_never_raises | intros _; apply retM_never_raises].
Qed.

Lemma string_app_nonempty (c : ascii) (s t : string) : String c s ++ t <> "".
Proof. simpl; discriminate. Qed.

(** Claim C3.  From every world and for every list of paths
    [process_files] returns a dictionary, never an exception.  It is the
    error dictionary, with a non-empty [error] and [files_processed = 0],
    exactly when no XML file was found, or no report was parsed, or the
    aggregator raised; otherwise it is the analytics together with the
    number of parsed reports and the list of per-file parse errors. *)
Theorem process_files_result (file_paths : list string) (session_dir : string)
  (w : world) :
  exists (resp : response float) (w' : world) (xml_files : list string) (w1 : world)
         (reports : list report) (parse_errors : list string) (w2 : world),
    process_files file_paths session_dir w = (inr resp, w') /\
    for_eachM (extract_one session_dir) file_paths [] w = (inr xml_files, w1) /\
    for_eachM parse_one xml_files ([], []) (after_found xml_files w1)
      = (inr (reports, parse_errors), w2) /\
    match resp with
    | ErrorResponse error _ files_processed =>
        error <> "" /\ files_processed = 0 /\
        (xml_files = [] \/ reports = [] \/
         exists e, _generate_analytics reports = inl e)
    | AnalyticsResponse a files_processed errors =>
        xml_files <> [] /\ reports <> [] /\
        _generate_analytics reports = inr a /\
        files_processed = Z.of_nat (List.length reports) /\
        errors = parse_errors
    end.
Proof.
  destruct (for_eachM_never_raises (extract_one session_dir) file_paths
              (extract_one_never_raises session_dir) [] w) as (xml_files & w1 & Hx).
  destruct (for_eachM_never_raises parse_one xml_files parse_one_never_raises
              ([], []) (after_found xml_files w1)) as ([reports errs] & w2 & Hp).
  unfold process_files, try_except, process_files_body, bindM.
  rewrite Hx. unfold after_found in Hp. 
  destruct (log INFO ("Found " ++ len_str xml_files ++ " XML file(s) to process") w1)
    as [[e | []] w1'] eqn:Hlog; [discriminate |].
  simpl in Hp.
  destruct xml_files as [| x xml_files].
  - simpl in Hp. injection Hp as <- <- <-.
    eexists _, _, [], w1, [], [], _. repeat split; eauto. discriminate.
  - rewrite Hp.
    destruct reports as [| r reports].
    + eexists _, _, _, w1, [], errs, w2. unfold after_found; rewrite Hlog.
      repeat split; eauto. discriminate.
    + unfold lift.
      destruct (_generate_analytics (r :: reports)) as [e | a] eqn:Hga.
      * eexists _, _, _, w1, (r :: reports), errs, w2.
        unfold after_found; rewrite Hlog.
        repeat split; eauto. apply string_app_nonempty.
      * eexists _, _, _, w1, (r :: reports), errs, w2.
        unfold after_found; rewrite Hlog.
        repeat split; eauto; discriminate.
Qed.

End ProcessorFacts.

(** ** Facts about the parser *)

Lemma find_absent {A : Type} (f : A -> bool) (l : list A) :
  (forall x, In x l -> f x = false) -> List.find f l = None.
Proof.
  induction l as [| x l IH]; simpl; intros Hf; [reflexivity |].
  rewrite (Hf x (or_introl eq_refl)). apply IH. intros y Hy. apply Hf. now right.
Qed.

Lemma lacks_find (e : Element) (name t : string) :
  lacks e name -> t = name \/ t = dmarc_tag name \/ t = "ns:" ++ name ->
  List.find (fun c => String.eqb (tag_of c) t) (children_of e) = None.
Proof.
  intros Hl Ht. apply find_absent. intros c Hc. apply String.eqb_neq.
  destruct (Hl c Hc) as (N1 & N2 & N3).
  destruct Ht as [-> | [-> | ->]]; assumption.
Qed.

Lemma ns_for_cases (root : Element) : ns_for root = [] \/ ns_for root = dmarc_ns.
Proof. unfold ns_for. destruct (String.prefix "{" (tag_of root)); auto. Qed.

Section ParserFacts.
Context {EV : Env}.

Lemma find1_plain_lacks (e : Element) (name : string) :
  lacks e name -> find1 e (Plain name) = None.
Proof. intros Hl. apply (lacks_find e name name Hl). auto. Qed.

Lemma find1_prefixed_lacks (e : Element) (name : string) :
  lacks e name -> find1 e (Prefixed "ns" name) = None.
Proof. intros Hl. apply (lacks_find e name _ Hl). right; right; reflexivity. Qed.

Lemma find2_prefixed_lacks (e : Element) (name : string) :
  lacks e name -> find2 e (Prefixed "ns" name) dmarc_ns = inr None.
Proof.
  intros Hl. unfold find2, resolve, bind, ret; simpl ns_lookup; cbv iota beta.
  rewrite (lacks_find e name _ Hl); [reflexivity |]. right; left; reflexivity.
Qed.

Lemma find2_unbound (e : Element) (name : string) :
  find2 e (Prefixed "ns" name) []
  = inl (Exn SyntaxError "prefix 'ns' not found in prefix map").
Proof. reflexivity. Qed.

Lemma text_field_lacks (ns : nsmap) (e : Element) (name : string) :
  ns = [] \/ ns = dmarc_ns -> lacks e name ->
  text_field ns (Some e) name = inr None.
Proof.
  intros Hns Hl. unfold text_field, por, find_text.
  rewrite find1_plain_lacks by exact Hl.
  destruct Hns as [-> | ->].
  - simpl. rewrite find1_prefixed_lacks by exact Hl. reflexivity.
  - unfold dmarc_ns at 1. cbv iota beta. fold dmarc_ns.
    unfold bind at 1, ret at 1. cbv iota beta. unfold text_truthy at 1.
    cbv iota beta. rewrite (find2_prefixed_lacks e name Hl). reflexivity.
Qed.

Lemma int_field_lacks (ns : nsmap) (e : Element) (name : string) :
  ns = [] \/ ns = dmarc_ns -> lacks e name ->
  int_field ns (Some e) name = inr 0.
Proof.
  intros Hns Hl. unfold int_field. now rewrite text_field_lacks.
Qed.

Lemma child_field_lacks (ns : nsmap) (e : Element) (name : string) :
  ns = [] \/ ns = dmarc_ns -> lacks e name ->
  child_field ns (Some e) name = inr None \/
  exists err, child_field ns (Some e) name = inl err.
Proof.
  intros Hns Hl. unfold child_field, por, find1_opt, find2_opt.
  unfold bind at 1, ret at 1. rewrite find1_plain_lacks by exact Hl.
  cbv iota beta. unfold opt_elem_truthy.
  destruct Hns as [-> | ->].
  - right. rewrite find2_unbound. eexists; reflexivity.
  - left. apply find2_prefixed_lacks, Hl.
Qed.

(** Without a namespace the fallback lookup of [report_metadata] raises
    before the test [metadata is None] is reached. *)
Lemma find_metadata_plain_absent (root : Element) :
  String.prefix "{" (tag_of root) = false ->
  find1 root (Plain "report_metadata") = None ->
  find_metadata root
  = inl (Exn SyntaxError "prefix 'ns' not found in prefix map").
Proof.
  intros Hplain Habsent.
  unfold find_metadata, child_field, por, find1_opt, find2_opt, ns_for.
  rewrite Hplain. unfold bind at 1, ret at 1. rewrite Habsent.
  cbv iota beta. unfold opt_elem_truthy. apply find2_unbound.
Qed.

(** With the namespace the lookup finds nothing and the test is reached. *)
Lemma find_metadata_namespaced_absent (root : Element) :
  String.prefix "{" (tag_of root) = true ->
  lacks root "report_metadata" ->
  find_metadata root = inr None.
Proof.
  intros Hns Habsent.
  unfold find_metadata, child_field, por, find1_opt, find2_opt, ns_for.
  rewrite Hns. unfold bind at 1, ret at 1.
  rewrite find1_plain_lacks by exact Habsent.
  cbv iota beta. unfold opt_elem_truthy. now apply find2_prefixed_lacks.
Qed.

Lemma parse_record_rowless (ns : nsmap) (rec : Element) :
  ns = [] \/ ns = dmarc_ns -> lacks rec "row" ->
  exists e, parse_record ns rec = inl e.
Proof.
  intros Hns Hl. unfold parse_record.
  destruct (child_field_lacks ns rec "row" Hns Hl) as [-> | (err & ->)]; simpl;
    eexists; reflexivity.
Qed.

Lemma parse_record_no_policy_evaluated (ns : nsmap) (rec row : Element) :
  ns = [] \/ ns = dmarc_ns ->
  child_field ns (Some rec) "row" = inr (Some row) ->
  lacks row "policy_evaluated" ->
  exists e, parse_record ns rec = inl e.
Proof.
  intros Hns Hrow Hl. unfold parse_record. rewrite Hrow; simpl.
  destruct (text_field ns (Some row) "source_ip"); simpl; [eexists; reflexivity |].
  destruct (int_field ns (Some row) "count"); simpl; [eexists; reflexivity |].
  destruct (child_field_lacks ns row "policy_evaluated" Hns Hl) as [-> | (err & ->)];
    simpl; eexists; reflexivity.
Qed.

Lemma parse_record_no_identifiers (ns : nsmap) (rec : Element) :
  ns = [] \/ ns = dmarc_ns -> lacks rec "identifiers" ->
  exists e, parse_record ns rec = inl e.
Proof.
  intros Hns Hl. unfold parse_record.
  destruct (child_field ns (Some rec) "row") as [? | row]; simpl;
    [eexists; reflexivity |].
  destruct (text_field ns row "source_ip"); simpl; [eexists; reflexivity |].
  destruct (int_field ns row "count"); simpl; [eexists; reflexivity |].
  destruct (child_field ns row "policy_evaluated") as [? | pe]; simpl;
    [eexists; reflexivity |].
  destruct (text_field ns pe "disposition"); simpl; [eexists; reflexivity |].
  destruct (text_field ns pe "dkim"); simpl; [eexists; reflexivity |].
  destruct (text_field ns pe "spf"); simpl; [eexists; reflexivity |].
  destruct (child_field_lacks ns rec "identifiers" Hns Hl) as [-> | (err & ->)];
    simpl; eexists; reflexivity.
Qed.

Lemma map_result_fails {A B : Type} (f : A -> result B) (l : list A) (x : A) (e : exn) :
  In x l -> f x = inl e -> exists e', map_result f l = inl e'.
Proof.
  induction l as [| y l IH]; simpl; intros Hin Hx; [contradiction |].
  destruct (f y) as [e1 | b] eqn:Ey; simpl; [eauto |].
  destruct Hin as [-> | Hin]; [congruence |].
  destruct (IH Hin Hx) as (e' & ->). simpl. eauto.
Qed.

Lemma parse_with_metadata_fails (root metadata : Element) (recs : list Element)
  (rec : Element) (e : exn) :
  record_elements root = inr recs -> In rec recs ->
  parse_record (ns_for root) rec = inl e ->
  exists e', parse_with_metadata root metadata = inl e'.
Proof.
  intros Hrecs Hin Hrec. unfold parse_with_metadata. cbv zeta.
  fold (record_elements root). rewrite Hrecs.
  destruct (text_field (ns_for root) (Some metadata) "org_name"); simpl;
    [eexists; reflexivity |].
  destruct (text_field (ns_for root) (Some metadata) "report_id"); simpl;
    [eexists; reflexivity |].
  destruct (child_field (ns_for root) (Some metadata) "date_range") as [? | dr];
    simpl; [eexists; reflexivity |].
  destruct (int_field (ns_for root) dr "begin"); simpl; [eexists; reflexivity |].
  destruct (int_field (ns_for root) dr "end"); simpl; [eexists; reflexivity |].
  destruct (child_field (ns_for root) (Some root) "policy_published") as [? | pol];
    simpl; [eexists; reflexivity |].
  destruct (text_field (ns_for root) pol "domain"); simpl; [eexists; reflexivity |].
  destruct (text_field (ns_for root) pol "p"); simpl; [eexists; reflexivity |].
  destruct (map_result_fails _ _ _ _ Hin Hrec) as (e' & ->). simpl. eauto.
Qed.

Lemma parse_dmarc_xml_unfold (xml_file : string) (root : Element) (w : world) :
  lookup_file xml_file (files w) = Some (XmlDoc root) ->
  _parse_dmarc_xml xml_file w =
  match find_metadata root with
  | inl e =>
      (inl e, mkWorld (files w)
                (logged w ++ [(ERROR, "Error parsing XML " ++ xml_file ++ ": " ++ exn_str e)]))
  | inr None =>
      (inr None, mkWorld (files w)
                   (logged w ++ [(WARNING, "No metadata found in " ++ xml_file)]))
  | inr (Some metadata) =>
      match parse_with_metadata root metadata with
      | inl e =>
          (inl e, mkWorld (files w)
                    (logged w ++ [(ERROR, "Error parsing XML " ++ xml_file ++ ": " ++ exn_str e)]))
      | inr rep => (inr (Some rep), w)
      end
  end.
Proof.
  intros Hfile.
  unfold _parse_dmarc_xml, try_except, bindM, ET_parse, bindM, read_file, lift.
  rewrite Hfile. unfold retM.
  destruct (find_metadata root) as [e | [metadata |]]; simpl; [reflexivity | |
    reflexivity].
  destruct (parse_with_metadata root metadata); reflexivity.
Qed.

Lemma parse_record_inr (ns : nsmap) (rec : Element) (r : record) :
  parse_record ns rec = inr r ->
  exists row pe ids,
    child_field ns (Some rec) "row" = inr (Some row) /\
    child_field ns (Some row) "policy_evaluated" = inr (Some pe) /\
    child_field ns (Some rec) "identifiers" = inr (Some ids) /\
    text_field ns (Some row) "source_ip" = inr (r_source_ip r) /\
    int_field ns (Some row) "count" = inr (r_count r) /\
    text_field ns (Some pe) "disposition" = inr (r_disposition r) /\
    text_field ns (Some pe) "dkim" = inr (r_dkim r) /\
    text_field ns (Some pe) "spf" = inr (r_spf r) /\
    text_field ns (Some ids) "header_from" = inr (r_header_from r).
Proof.
  unfold parse_record; intros Hrun.
  apply bind_inr in Hrun as ([row |] & Hrow & Hrun); [| discriminate].
  apply bind_inr in Hrun as (sip & Hsip & Hrun).
  apply bind_inr in Hrun as (cnt & Hcnt & Hrun).
  apply bind_inr in Hrun as ([pe |] & Hpe & Hrun); [| discriminate].
  apply bind_inr in Hrun as (disp & Hdisp & Hrun).
  apply bind_inr in Hrun as (dk & Hdk & Hrun).
  apply bind_inr in Hrun as (sp & Hsp & Hrun).
  apply bind_inr in Hrun as ([ids |] & Hids & Hrun); [| discriminate].
  apply bind_inr in Hrun as (hf & Hhf & Hrun).
  injection Hrun as <-; simpl.
  exists row, pe, ids. repeat split; assumption.
Qed.

(** Claim C7, as amended.  Records are parsed one after the other with
    nothing to isolate them: when parsing one record element raises, no
    report is produced for the file; a record that lacks its [row] or its
    [identifiers], or whose [row] lacks [policy_evaluated], does raise.
    In a record that parses, a missing [count] reads [0] and a missing
    text field reads [None]. *)
Theorem record_parsing (root : Element) :
  let ns := ns_for root in
  (forall xml_file w recs rec e,
     lookup_file xml_file (files w) = Some (XmlDoc root) ->
     record_elements root = inr recs -> In rec recs ->
     parse_record ns rec = inl e ->
     forall rep w', _parse_dmarc_xml xml_file w <> (inr (Some rep), w')) /\
  (forall rec,
     lacks rec "row" \/ lacks rec "identifiers" \/
     (exists row, child_field ns (Some rec) "row" = inr (Some row) /\
                  lacks row "policy_evaluated") ->
     exists e, parse_record ns rec = inl e) /\
  (forall rec r,
     parse_record ns rec = inr r ->
     exists row pe ids,
       child_field ns (Some rec) "row" = inr (Some row) /\
       child_field ns (Some row) "policy_evaluated" = inr (Some pe) /\
       child_field ns (Some rec) "identifiers" = inr (Some ids) /\
       (lacks row "count" -> r_count r = 0) /\
       (lacks row "source_ip" -> r_source_ip r = None) /\
       (lacks pe "disposition" -> r_disposition r = None) /\
       (lacks pe "dkim" -> r_dkim r = None) /\
       (lacks pe "spf" -> r_spf r = None) /\
       (lacks ids "header_from" -> r_header_from r = None)).
Proof.
  intros ns. pose proof (ns_for_cases root) as Hns. fold ns in Hns.
  refine (conj _ (conj _ _)).
  - intros xml_file w recs rec e Hfile Hrecs Hin Hrec rep w'.
    rewrite (parse_dmarc_xml_unfold _ _ _ Hfile).
    destruct (find_metadata root) as [e1 | [metadata |]]; try discriminate.
    destruct (parse_with_metadata_fails root metadata recs rec e Hrecs Hin Hrec)
      as (e' & ->). discriminate.
  - intros rec [Hl | [Hl | (row & Hrow & Hl)]].
    + apply parse_record_rowless; assumption.
    + apply parse_record_no_identifiers; assumption.
    + eapply parse_record_no_policy_evaluated; eassumption.
  - intros rec r Hrun.
    apply parse_record_inr in Hrun
      as (row & pe & ids & Hrow & Hpe & Hids & Hsip & Hcnt & Hdisp & Hdk & Hsp & Hhf).
    exists row, pe, ids. refine (conj Hrow (conj Hpe (conj Hids _))).
    repeat split; intros Hl.
    + rewrite int_field_lacks in Hcnt by assumption. now injection Hcnt.
    + rewrite text_field_lacks in Hsip by assumption. now injection Hsip.
    + rewrite text_field_lacks in Hdisp by assumption. now injection Hdisp.
    + rewrite text_field_lacks in Hdk by assumption. now injection Hdk.
    + rewrite text_field_lacks in Hsp by assumption. now injection Hsp.
    + rewrite text_field_lacks in Hhf by assumption. now injection Hhf.
Qed.

End ParserFacts.

(** ** Facts about file names *)

Lemma strlen_app (s t : string) :
  String.length (s ++ t) = (String.length s + String.length t)%nat.
Proof. induction s as [| c s IH]; simpl; [reflexivity | now rewrite IH]. Qed.

Lemma str_app_assoc (s t u : string) : (s ++ t) ++ u = s ++ (t ++ u).
Proof. induction s as [| c s IH]; simpl; [reflexivity | now rewrite IH]. Qed.

Lemma substring_skip (d s : string) (i m : nat) :
  substring (String.length d + i) m (d ++ s) = substring i m s.
Proof. induction d as [| c d IH]; simpl; [reflexivity | exact IH]. Qed.

Lemma substring_nil (n m : nat) : substring n m "" = "".
Proof. destruct n, m; reflexivity. Qed.

Lemma substring_substring (s : string) :
  forall n k i m : nat, (i + m <= k)%nat ->
    substring i m (substring n k s) = substring (n + i) m s.
Proof.
  induction s as [| c s IH]; intros n k i m Hle.
  - now rewrite !substring_nil.
  - destruct n as [| n]; simpl.
    + revert i m Hle. revert s IH. induction k as [| k IHk]; intros s IH i m Hle.
      * assert (i = 0%nat) by lia. assert (m = 0%nat) by lia. subst. reflexivity.
      * destruct i as [| i]; simpl.
        -- destruct m as [| m]; [reflexivity |].
           f_equal. rewrite (IH 0%nat k 0%nat m) by lia. reflexivity.
        -- rewrite (IH 0%nat k i m) by lia. reflexivity.
    + apply IH. exact Hle.
Qed.

Lemma substring_all (s : string) : substring 0 (String.length s) s = s.
Proof. induction s as [| c s IH]; simpl; [reflexivity | now rewrite IH]. Qed.

Lemma length_substring (s : string) :
  forall n m : nat, (n + m <= String.length s)%nat ->
    String.length (substring n m s) = m.
Proof.
  induction s as [| c s IH]; simpl; intros n m Hle.
  - assert (n = 0%nat) by lia. assert (m = 0%nat) by lia. subst. reflexivity.
  - destruct n as [| n].
    + destruct m as [| m]; simpl; [reflexivity |]. rewrite IH by lia. reflexivity.
    + apply IH. lia.
Qed.

Lemma substring_split (s : string) :
  forall n : nat, (n <= String.length s)%nat ->
    substring 0 n s ++ substring n (String.length s - n) s = s.
Proof.
  induction s as [| c s IH]; simpl; intros n Hle.
  - assert (n = 0%nat) by lia. subst. reflexivity.
  - destruct n as [| n]; simpl.
    + now rewrite substring_all.
    + rewrite IH by lia. reflexivity.
Qed.

Lemma endswith_length (s t : string) :
  endswith s t = true -> (String.length t <= String.length s)%nat.
Proof.
  unfold endswith. intros E. apply andb_true_iff in E as (E & _).
  now apply Nat.leb_le in E.
Qed.

Lemma endswith_suffix (s t : string) :
  endswith s t = true ->
  substring (String.length s - String.length t) (String.length t) s = t.
Proof.
  unfold endswith. intros E. apply andb_true_iff in E as (_ & E).
  now apply String.eqb_eq in E.
Qed.

(** A name that ends in [a] ends in [b] exactly when [a] does. *)
Lemma endswith_trans (s a b : string) :
  endswith s a = true -> (String.length b <= String.length a)%nat ->
  endswith s b = endswith a b.
Proof.
  intros Ha Hlen. pose proof (endswith_length _ _ Ha) as Hla.
  pose proof (endswith_suffix _ _ Ha) as Hsa.
  unfold endswith.
  replace (String.length b <=? String.length s)%nat with true
    by (symmetry; apply Nat.leb_le; lia).
  replace (String.length b <=? String.length a)%nat with true
    by (symmetry; apply Nat.leb_le; lia).
  simpl. f_equal.
  transitivity (substring (String.length a - String.length b) (String.length b)
                  (substring (String.length s - String.length a) (String.length a) s)).
  - rewrite substring_substring by lia. f_equal. lia.
  - now rewrite Hsa.
Qed.

Lemma endswith_app (d s t : string) :
  (String.length t <= String.length s)%nat ->
  endswith (d ++ s) t = endswith s t.
Proof.
  intros Hlen. unfold endswith. rewrite strlen_app.
  replace (String.length t <=? String.length d + String.length s)%nat with true
    by (symmetry; apply Nat.leb_le; lia).
  replace (String.length t <=? String.length s)%nat with true
    by (symmetry; apply Nat.leb_le; lia).
  simpl. f_equal.
  replace (String.length d + String.length s - String.length t)%nat
    with (String.length d + (String.length s - String.length t))%nat by lia.
  now rewrite substring_skip.
Qed.

Lemma endswith_decompose (s t : string) :
  endswith s t = true -> s = drop_last (String.length t) s ++ t.
Proof.
  intros E. pose proof (endswith_length _ _ E) as Hlen.
  pose proof (endswith_suffix _ _ E) as Hs.
  unfold drop_last.
  rewrite <- (substring_split s (String.length s - String.length t)) at 1 by lia.
  f_equal.
  replace (String.length s - (String.length s - String.length t))%nat
    with (String.length t) by lia.
  exact Hs.
Qed.

Lemma has_slash_app (s t : string) :
  has_slash (s ++ t) = has_slash s || has_slash t.
Proof.
  induction s as [| c s IH]; simpl; [reflexivity |].
  rewrite IH. now rewrite orb_assoc.
Qed.

Lemma basename_no_slash (s : string) : has_slash s = false -> basename s = s.
Proof.
  destruct s as [| c s]; simpl; [reflexivity |]. now intros ->.
Qed.

Lemma has_slash_basename (s : string) : has_slash (basename s) = false.
Proof.
  induction s as [| c s IH]; [reflexivity |].
  cbn [basename]. destruct (has_slash (String c s)) eqn:E; [exact IH | exact E].
Qed.

Lemma basename_after_slash (d n : string) :
  has_slash n = false -> basename (d ++ "/" ++ n) = n.
Proof.
  intros Hn. induction d as [| c d IH].
  - cbn [append basename has_slash]. unfold slash. rewrite Ascii.eqb_refl.
    cbn [orb]. now apply basename_no_slash.
  - cbn [append basename].
    assert (Hs : has_slash (String c (d ++ String "/" n)) = true).
    { cbn [has_slash]. rewrite has_slash_app. cbn [has_slash]. unfold slash.
      rewrite Ascii.eqb_refl. cbn [orb]. now rewrite !orb_true_r. }
    rewrite Hs. exact IH.
Qed.

Lemma prefix_slash (n : string) : has_slash n = false -> String.prefix "/" n = false.
Proof.
  destruct n as [| c n]; [reflexivity |].
  cbn [has_slash]. intros E. apply orb_false_iff in E as (E & _).
  cbn [String.prefix]. destruct (ascii_dec "/" c) as [<- | Hne]; [| reflexivity].
  unfold slash in E. rewrite Ascii.eqb_refl in E. discriminate.
Qed.

(** The last component of [os.path.join(d, n)] is [n]. *)
Lemma basename_path_join (d n : string) :
  has_slash n = false -> n <> "" -> basename (path_join d n) = n.
Proof.
  intros Hn Hne. unfold path_join. rewrite (prefix_slash n Hn).
  destruct (String.eqb d "") eqn:Ed; simpl.
  - apply String.eqb_eq in Ed; subst. now apply basename_no_slash.
  - destruct (endswith d "/") eqn:Es.
    + rewrite (endswith_decompose _ _ Es).
      rewrite str_app_assoc. now apply basename_after_slash.
    + now apply basename_after_slash.
Qed.

Lemma substring_prefix_app (s t : string) : substring 0 (String.length s) (s ++ t) = s.
Proof.
  induction s as [| c s IH]; simpl; [now destruct t | now rewrite IH].
Qed.

Lemma drop_last_app (s t : string) : drop_last (String.length t) (s ++ t) = s.
Proof.
  unfold drop_last. rewrite strlen_app.
  replace (String.length s + String.length t - String.length t)%nat
    with (String.length s) by lia.
  apply substring_prefix_app.
Qed.

(** ** Facts about the file system *)

Lemma write_file_keeps (p q : string) (c : content) (fs : list (string * content)) :
  In q (map fst fs) -> In q (map fst (write_file p c fs)).
Proof.
  induction fs as [| [q' c'] fs IH]; simpl; [contradiction |].
  intros [<- | Hin]; destruct (String.eqb p q'); simpl; auto.
Qed.

Lemma extract_into_keeps (members : list (string * content)) (dir q : string) :
  forall fs, In q (map fst fs) -> In q (map fst (extract_into members dir fs)).
Proof.
  unfold extract_into.
  induction members as [| [name c] members IH]; simpl; intros fs Hin; [exact Hin |].
  apply IH. now apply write_file_keeps.
Qed.

Lemma lookup_write_same (p : string) (c : content) (fs : list (string * content)) :
  lookup_file p (write_file p c fs) = Some c.
Proof.
  induction fs as [| [q c'] fs IH]; simpl.
  - now rewrite String.eqb_refl.
  - destruct (String.eqb p q) eqn:E; simpl; rewrite E; [reflexivity | exact IH].
Qed.

Lemma xml_below_mono (dir : string) (fs fs' : list (string * content)) :
  (forall q, In q (map fst fs) -> In q (map fst fs')) ->
  incl (xml_below dir fs) (xml_below dir fs').
Proof.
  intros Hkeep q Hq. unfold xml_below in *.
  apply filter_In in Hq as (Hin & Hp). apply filter_In. auto.
Qed.

Lemma extractall_run (members : list (string * content)) (dir : string) :
  forall w, extractall members dir w
            = (inr tt, mkWorld (extract_into members dir (files w)) (logged w)).
Proof.
  unfold extract_into.
  induction members as [| [name c] members IH]; intros w.
  - now destruct w.
  - cbn [extractall fold_left fst snd]. unfold bindM, put_file.
    rewrite IH. reflexivity.
Qed.

(** The branch [_extract_files] takes on a name. *)
Lemma extract_files_at_zip (depth : nat) (p dir : string) (w : world)
  (ms : list (string * content)) :
  endswith (basename p) ".zip" = true ->
  lookup_file p (files w) = Some (ZipArchive ms) ->
  extract_files_at depth p dir w
  = (inr (xml_below dir (extract_into ms dir (files w))),
     mkWorld (extract_into ms dir (files w))
       (logged w ++ [(INFO, "Extracting ZIP: " ++ basename p)])).
Proof.
  intros Hzip Hfile.
  destruct depth; cbn [extract_files_at]; rewrite Hzip;
    unfold try_except, bindM, log, unzip, bindM, read_file; cbn [files logged];
    rewrite Hfile, extractall_run; reflexivity.
Qed.

Lemma extract_files_at_tar (depth : nat) (p dir : string) (w : world)
  (c : content) (ms : list (string * content)) :
  endswith (basename p) ".tar" = true ->
  lookup_file p (files w) = Some c ->
  c = TarArchive ms \/ c = Gzip (TarArchive ms) ->
  extract_files_at depth p dir w
  = (inr (xml_below dir (extract_into ms dir (files w))),
     mkWorld (extract_into ms dir (files w))
       (logged w ++ [(INFO, "Extracting TAR: " ++ basename p)])).
Proof.
  intros Htar Hfile Hc.
  assert (Hzip : endswith (basename p) ".zip" = false)
    by (rewrite (endswith_trans _ ".tar" ".zip" Htar); [reflexivity | simpl; lia]).
  assert (Hgz : endswith (basename p) ".gz" = false)
    by (rewrite (endswith_trans _ ".tar" ".gz" Htar); [reflexivity | simpl; lia]).
  destruct depth; cbn [extract_files_at]; rewrite Hzip, Hgz, Htar;
    unfold try_except, bindM, log, untar, bindM, read_file; cbn [files logged orb];
    rewrite Hfile; destruct Hc as [-> | ->]; rewrite extractall_run; reflexivity.
Qed.

Lemma endswith_path_join (d n t : string) :
  has_slash n = false -> (String.length t <= String.length n)%nat ->
  endswith (path_join d n) t = endswith n t.
Proof.
  intros Hn Hlen. unfold path_join. rewrite (prefix_slash n Hn).
  destruct (String.eqb d "" || endswith d "/").
  - now apply endswith_app.
  - rewrite <- str_app_assoc. now apply endswith_app.
Qed.

Lemma extract_files_tar_gz (p dir : string) (w : world)
  (ms : list (string * content)) :
  endswith (basename p) ".tar.gz" = true ->
  lookup_file p (files w) = Some (Gzip (TarArchive ms)) ->
  let out := path_join dir (drop_last 3 (basename p)) in
  let fs' := extract_into ms dir (write_file out (TarArchive ms) (files w)) in
  _extract_files p dir w
  = (inr (xml_below dir fs'),
     mkWorld fs'
       ((logged w ++ [(INFO, "Extracting GZ: " ++ basename p)])
          ++ [(INFO, "Extracting TAR: " ++ drop_last 3 (basename p))])).
Proof.
  intros Htgz Hfile out fs'.
  pose proof (has_slash_basename p) as Hslash.
  pose proof (endswith_decompose _ _ Htgz) as Hfn.
  set (fn := basename p) in *. set (stem := drop_last (String.length ".tar.gz") fn) in *.
  assert (Hstem : has_slash stem = false).
  { rewrite Hfn, has_slash_app in Hslash. now apply orb_false_iff in Hslash. }
  assert (Hfn' : drop_last 3 fn = stem ++ ".tar").
  { rewrite Hfn. change (stem ++ ".tar.gz") with (stem ++ (".tar" ++ ".gz")).
    rewrite <- str_app_assoc. apply (drop_last_app (stem ++ ".tar") ".gz"). }
  assert (Hslash' : has_slash (drop_last 3 fn) = false).
  { rewrite Hfn', has_slash_app, Hstem. reflexivity. }
  assert (Htar : endswith (drop_last 3 fn) ".tar" = true).
  { rewrite Hfn'. rewrite endswith_app; [reflexivity | simpl; lia]. }
  assert (Hlen4 : (4 <= String.length (drop_last 3 fn))%nat).
  { rewrite Hfn', strlen_app. simpl. lia. }
  assert (Hne : drop_last 3 fn <> "").
  { intros E. rewrite E in Hlen4. simpl in Hlen4. lia. }
  assert (Hbase : basename out = drop_last 3 fn)
    by (apply basename_path_join; assumption).
  assert (Hzip : endswith fn ".zip" = false)
    by (rewrite (endswith_trans _ ".tar.gz" ".zip" Htgz); [reflexivity | simpl; lia]).
  assert (Hgz : endswith fn ".gz" = true)
    by (rewrite (endswith_trans _ ".tar.gz" ".gz" Htgz); [reflexivity | simpl; lia]).
  assert (Hout : String.eqb out "" = false).
  { apply String.eqb_neq. intros E. rewrite E in Hbase. simpl in Hbase.
    now apply Hne. }
  assert (Hdir : String.eqb (basename out) "" = false).
  { rewrite Hbase. now apply String.eqb_neq. }
  assert (Hxml : endswith out ".xml" = false).
  { unfold out. rewrite endswith_path_join by (assumption || simpl; lia).
    rewrite (endswith_trans _ ".tar" ".xml" Htar); [reflexivity | simpl; lia]. }
  unfold _extract_files. fold fn.
  destruct (String.length fn) as [| depth] eqn:Elen.
  { rewrite Hfn, strlen_app in Elen. simpl in Elen. lia. }
  cbn [extract_files_at]. fold fn. rewrite Hzip, Hgz. fold out. rewrite Hxml.
  unfold try_except at 1, bindM at 1, log at 1.
  unfold bindM at 1, gunzip, bindM at 1, read_file. cbn [files logged].
  rewrite Hfile, Hout, Hdir. unfold put_file. cbn [files logged].
  rewrite (extract_files_at_tar depth out dir _ (TarArchive ms) ms).
  - cbn [files logged]. rewrite Hbase. reflexivity.
  - rewrite Hbase. exact Htar.
  - cbn [files]. apply lookup_write_same.
  - now left.
Qed.

(** ** Archives in a batch *)

Lemma unpacks_keeps (dir p q : string) (fs fs' : list (string * content)) :
  unpacks dir p fs fs' -> In q (map fst fs) -> In q (map fst fs').
Proof.
  intros [ms _ _ | ms c _ _ _ | ms _ _] Hin.
  - now apply extract_into_keeps.
  - now apply extract_into_keeps.
  - now apply extract_into_keeps, write_file_keeps.
Qed.

Lemma extract_files_unpacks (dir p : string) (w : world)
  (fs' : list (string * content)) :
  unpacks dir p (files w) fs' ->
  exists lg, _extract_files p dir w = (inr (xml_below dir fs'), mkWorld fs' lg).
Proof.
  intros [ms Hzip Hfile | ms c Htar Hfile Hc | ms Htgz Hfile].
  - eexists. unfold _extract_files. now apply extract_files_at_zip.
  - eexists. unfold _extract_files. eapply extract_files_at_tar; eassumption.
  - eexists. now apply extract_files_tar_gz.
Qed.

Section BatchFacts.
Context {float : Type} {FO : FloatOps float} {EV : Env}.

Lemma parse_dmarc_xml_files (x : string) (w : world) :
  fst (_parse_dmarc_xml x w) = parsed (files w) x /\
  files (snd (_parse_dmarc_xml x w)) = files w.
Proof.
  unfold parsed, _parse_dmarc_xml, try_except, bindM, ET_parse, bindM, read_file,
    no_such_file, raiseM, retM, lift, log.
  cbn [files logged].
  destruct (lookup_file x (files w)) as [[root | | | |] |]; cbn [fst snd files]; auto.
  destruct (find_metadata root) as [e | [metadata |]]; cbn [fst snd files]; auto.
  destruct (parse_with_metadata root metadata); cbn [fst snd files]; auto.
Qed.

Lemma parse_one_reports (st : list report * list string) (x : string) (w : world) :
  exists errs lg,
    parse_one st x w
    = (inr ((fst st ++ reports_of (files w) [x])%list, errs), mkWorld (files w) lg).
Proof.
  destruct st as [reports errs]. cbn [fst].
  destruct (parse_dmarc_xml_files x w) as (Hres & Hfiles).
  unfold reports_of; cbn [flat_map]. rewrite <- Hres.
  unfold parse_one, try_except, bindM.
  destruct (_parse_dmarc_xml x w) as [[e | [r |]] [fs lg]]; cbn [fst snd files] in *;
    subst fs; unfold log, retM; cbn [files logged]; rewrite ?app_nil_r;
    eexists _, _; reflexivity.
Qed.

Lemma parse_loop_reports (xs : list string) :
  forall (st : list report * list string) (w : world),
  exists errs lg,
    for_eachM parse_one xs st w
    = (inr ((fst st ++ reports_of (files w) xs)%list, errs), mkWorld (files w) lg).
Proof.
  induction xs as [| x xs IH]; intros st w.
  - destruct st as [reports errs], w as [fs lg]. exists errs, lg.
    unfold reports_of; cbn. now rewrite app_nil_r.
  - cbn [for_eachM]. unfold bindM.
    destruct (parse_one_reports st x w) as (errs1 & lg1 & ->).
    destruct (IH ((fst st ++ reports_of (files w) [x])%list, errs1)
                (mkWorld (files w) lg1)) as (errs2 & lg2 & ->).
    exists errs2, lg2. cbn [fst files]. unfold reports_of. cbn [flat_map].
    now rewrite app_nil_r, <- app_assoc.
Qed.

Lemma reports_of_incl (fs : list (string * content)) (xs ys : list string) :
  incl xs ys -> incl (reports_of fs xs) (reports_of fs ys).
Proof.
  intros Hincl r Hr. unfold reports_of in *.
  apply in_flat_map in Hr as (x & Hx & Hr). apply in_flat_map.
  exists x. split; [apply Hincl, Hx | exact Hr].
Qed.

Lemma generate_analytics_total (reports : list report) (a : analytics float) :
  _generate_analytics reports = inr a ->
  summary_total_messages a = sum_counts (all_records reports).
Proof.
  intros Hrun. apply generate_analytics_inr in Hrun as (s & Hacc & Hfin).
  apply finish_counters in Hfin as (-> & _).
  assert (Hb : balanced (0 + sum_counts (all_records reports)) s).
  { eapply accumulate_balanced; [| exact Hacc].
    unfold balanced, acc_init; simpl; lia. }
  destruct Hb as (_ & _ & _ & Ht). exact Ht.
Qed.

(** Claim C10.  A call of the unwrapper that unpacks a [.zip], [.tar] or
    [.tar.gz] archive returns every [.xml] file below the extraction
    directory as it stands after the extraction, the files put there
    before the call included.  So of two archives in one batch the second
    call returns the first one's XML files again: the reports aggregated
    are those of the first call followed by those of the second, which
    contain the former, and the message total counts them twice. *)
Theorem archive_rescan (dir p1 p2 : string) (w : world)
  (fs1 fs2 : list (string * content)) :
  unpacks dir p1 (files w) fs1 ->
  unpacks dir p2 fs1 fs2 ->
  let xs1 := xml_below dir fs1 in
  let xs2 := xml_below dir fs2 in
  exists lg1 lg2,
    _extract_files p1 dir w = (inr xs1, mkWorld fs1 lg1) /\
    _find_xml_files dir (mkWorld fs1 lg1) = (inr xs1, mkWorld fs1 lg1) /\
    _extract_files p2 dir (mkWorld fs1 lg1) = (inr xs2, mkWorld fs2 lg2) /\
    _find_xml_files dir (mkWorld fs2 lg2) = (inr xs2, mkWorld fs2 lg2) /\
    incl (xml_below dir (files w)) xs1 /\
    incl xs1 xs2 /\
    forall a n errs w',
      process_files [p1; p2] dir w = (inr (AnalyticsResponse a n errs), w') ->
      let R1 := reports_of fs2 xs1 in
      let R2 := reports_of fs2 xs2 in
      _generate_analytics (R1 ++ R2) = inr a /\
      n = Z.of_nat (List.length R1 + List.length R2) /\
      incl R1 R2 /\
      summary_total_messages a
      = sum_counts (all_records R1) + sum_counts (all_records R2).
Proof.
  intros U1 U2 xs1 xs2.
  destruct (extract_files_unpacks dir p1 w fs1 U1) as (lg1 & E1).
  destruct (extract_files_unpacks dir p2 (mkWorld fs1 lg1) fs2 U2) as (lg2 & E2).
  fold xs1 in E1. fold xs2 in E2.
  assert (I1 : incl (xml_below dir (files w)) xs1).
  { apply xml_below_mono. intros q. now apply (unpacks_keeps dir p1). }
  assert (I2 : incl xs1 xs2).
  { apply xml_below_mono. intros q. now apply (unpacks_keeps dir p2). }
  exists lg1, lg2. refine (conj E1 (conj eq_refl (conj E2 (conj eq_refl (conj I1 (conj I2 _)))))).
  intros a n errs w' Hrun R1 R2.
  unfold process_files, try_except, process_files_body in Hrun.
  unfold bindM at 1 in Hrun. cbn [for_eachM] in Hrun.
  unfold bindM at 1, extract_one at 1, bindM at 1 in Hrun. rewrite E1 in Hrun.
  unfold retM at 1 in Hrun.
  unfold bindM at 1, extract_one at 1, bindM at 1 in Hrun. rewrite E2 in Hrun.
  unfold retM at 1, retM at 1 in Hrun. cbn [app] in Hrun.
  unfold bindM at 1, log at 1 in Hrun. cbn [files logged] in Hrun.
  destruct (xs1 ++ xs2)%list as [| x xs] eqn:Exs; [discriminate |].
  rewrite <- Exs in Hrun. unfold bindM at 1 in Hrun.
  match type of Hrun with
  | context [for_eachM parse_one ?l ?st ?w0] =>
      destruct (parse_loop_reports l st w0) as (errs0 & lg & Hloop)
  end.
  rewrite Hloop in Hrun. cbn [fst files app] in Hrun.
  unfold reports_of in Hrun. rewrite flat_map_app in Hrun.
  fold (reports_of fs2 xs1) in Hrun. fold (reports_of fs2 xs2) in Hrun.
  fold R1 in Hrun. fold R2 in Hrun.
  destruct (R1 ++ R2)%list as [| r rs] eqn:ER; [discriminate |].
  rewrite <- ER in *. unfold bindM, lift in Hrun.
  destruct (_generate_analytics (R1 ++ R2)) as [e | a0] eqn:Hga; [discriminate |].
  unfold retM in Hrun. injection Hrun as -> <- _ _.
  split; [reflexivity |]. split; [now rewrite List.length_app |].
  split; [now apply reports_of_incl |].
  rewrite (generate_analytics_total _ _ Hga).
  unfold all_records. rewrite flat_map_app. apply sum_counts_app.
Qed.

End BatchFacts.

(** ** The nesting bound of [_extract_files] is never reached *)

Lemma has_slash_substring (s : string) :
  has_slash s = false -> forall n m, has_slash (substring n m s) = false.
Proof.
  induction s as [| c s IH]; intros Hs n m.
  - now rewrite substring_nil.
  - cbn [has_slash] in Hs. apply orb_false_iff in Hs as (Hc & Hs).
    destruct n as [| n]; simpl.
    + destruct m as [| m]; [reflexivity |]. cbn [has_slash].
      rewrite Hc. simpl. now apply IH.
    + now apply IH.
Qed.

Lemma basename_path_join_empty (d : string) :
  path_join d "" = "" \/ basename (path_join d "") = "".
Proof.
  unfold path_join. cbn [String.prefix].
  destruct (String.eqb d "") eqn:Ed; simpl.
  - apply String.eqb_eq in Ed; subst. now left.
  - right. destruct (endswith d "/") eqn:Es.
    + rewrite (endswith_decompose _ _ Es) at 1.
      rewrite str_app_assoc. now apply (basename_after_slash _ "").
    + now apply (basename_after_slash d "").
Qed.

Lemma gunzip_inr (p out : string) (w w' : world) (u : unit) :
  gunzip p out w = (inr u, w') -> out <> "" /\ basename out <> "".
Proof.
  unfold gunzip, bindM, read_file, no_such_file, raiseM.
  destruct (lookup_file p (files w)); [| discriminate].
  destruct (String.eqb out "") eqn:E1; [discriminate |].
  destruct (String.eqb (basename out) "") eqn:E2; [discriminate |].
  intros _. split; now apply String.eqb_neq.
Qed.

Lemma extract_files_at_depth (n : nat) :
  forall (m : nat) (p dir : string) (w : world),
    (String.length (basename p) <= n)%nat ->
    (String.length (basename p) <= m)%nat ->
    extract_files_at n p dir w = extract_files_at m p dir w.
Proof.
  induction n as [| n IH]; intros [| m] p dir w Hn Hm; try reflexivity.
  - assert (E : basename p = "") by (destruct (basename p); [reflexivity | simpl in Hn; lia]).
    cbn [extract_files_at]. rewrite E. reflexivity.
  - assert (E : basename p = "") by (destruct (basename p); [reflexivity | simpl in Hm; lia]).
    cbn [extract_files_at]. rewrite E. reflexivity.
  - cbn [extract_files_at].
    destruct (endswith (basename p) ".zip"); [reflexivity |].
    destruct (endswith (basename p) ".gz") eqn:Egz; [| reflexivity].
    unfold try_except, bindM, log.
    destruct (gunzip p (path_join dir (drop_last 3 (basename p))) _)
      as [[e | u] w2] eqn:G; [reflexivity |].
    destruct (endswith (path_join dir (drop_last 3 (basename p))) ".xml");
      [reflexivity |].
    apply gunzip_inr in G as (Hout & Hbase).
    pose proof (has_slash_basename p) as Hslash.
    pose proof (has_slash_substring _ Hslash 0 (String.length (basename p) - 3))
      as Hslash'. fold (drop_last 3 (basename p)) in Hslash'.
    assert (Hne : drop_last 3 (basename p) <> "").
    { intros E. rewrite E in Hout, Hbase.
      destruct (basename_path_join_empty dir); contradiction. }
    rewrite (basename_path_join dir _ Hslash' Hne) in Hbase.
    pose proof (endswith_length _ _ Egz) as Hlen. simpl in Hlen.
    assert (Hshort : String.length (drop_last 3 (basename p))
                     = (String.length (basename p) - 3)%nat).
    { unfold drop_last. apply length_substring. lia. }
    rewrite (IH m); [reflexivity | |];
      rewrite (basename_path_join dir _ Hslash' Hne), Hshort; lia.
Qed.

(** Any bound at least the length of the file name gives the result of
    [_extract_files]. *)
Lemma extract_files_depth_enough (n : nat) (p dir : string) (w : world) :
  (String.length (basename p) <= n)%nat ->
  extract_files_at n p dir w = _extract_files p dir w.
Proof.
  intros Hn. unfold _extract_files. now apply extract_files_at_depth.
Qed.

(** * Further properties *)

(** ** Sums over a dictionary *)

(** ** Sums *)

Lemma sum_of_app {A : Type} (f : A -> Z) (l1 l2 : list A) :
  sum_of f (l1 ++ l2) = sum_of f l1 + sum_of f l2.
Proof.
  induction l1 as [| x l1 IH]; simpl; [reflexivity | rewrite IH; lia].
Qed.

Lemma sum_of_perm {A : Type} (f : A -> Z) (l1 l2 : list A) :
  Permutation l1 l2 -> sum_of f l1 = sum_of f l2.
Proof.
  induction 1; simpl; lia.
Qed.

Lemma sum_of_Forall2 {A B : Type} (f : A -> Z) (g : B -> Z) (l : list A) (l' : list B) :
  Forall2 (fun x y => g y = f x) l l' -> sum_of g l' = sum_of f l.
Proof.
  induction 1 as [| x y l l' Hxy _ IH]; simpl; [reflexivity | rewrite Hxy, IH; lia].
Qed.

Lemma sum_counts_sum_of (rs : list record) : sum_counts rs = sum_of r_count rs.
Proof. reflexivity. Qed.

(** ** Successive updates of one key *)

Section DictFacts.
Context {K V : Type} (eqb : K -> K -> bool) (dflt : V).
Hypothesis eqb_eq : forall a b, eqb a b = true <-> a = b.

Lemma eqb_refl' (k : K) : eqb k k = true.
Proof. now apply eqb_eq. Qed.

Lemma dd_update_ext (k : K) (f g : V -> V) (d : list (K * V)) :
  (forall v, f v = g v) -> dd_update eqb dflt k f d = dd_update eqb dflt k g d.
Proof.
  intros Hfg. induction d as [| [k' v] d IH]; simpl.
  - now rewrite Hfg.
  - destruct (eqb k k'); [now rewrite Hfg | now rewrite IH].
Qed.

Lemma dd_update_compose (k : K) (f g : V -> V) (d : list (K * V)) :
  dd_update eqb dflt k f (dd_update eqb dflt k g d)
  = dd_update eqb dflt k (fun v => f (g v)) d.
Proof.
  induction d as [| [k' v] d IH]; simpl.
  - now rewrite eqb_refl'.
  - destruct (eqb k k') eqn:E; simpl; rewrite E; [reflexivity | now rewrite IH].
Qed.

Lemma when_update_compose (b : bool) (k : K) (f g : V -> V) (d : list (K * V)) :
  when b (dd_update eqb dflt k f) (dd_update eqb dflt k g d)
  = dd_update eqb dflt k (fun v => when b f (g v)) d.
Proof.
  destruct b; simpl; [apply dd_update_compose | reflexivity].
Qed.

Lemma dd_update_in_keys (k k0 : K) (f : V -> V) (d : list (K * V)) :
  In k (map fst (dd_update eqb dflt k0 f d)) <-> k = k0 \/ In k (map fst d).
Proof.
  induction d as [| [k' v] d IH]; simpl.
  - intuition.
  - destruct (eqb k0 k') eqn:E; simpl.
    + apply eqb_eq in E; subst. intuition.
    + rewrite IH. intuition.
Qed.

Lemma dd_update_nodup (k0 : K) (f : V -> V) (d : list (K * V)) :
  NoDup (map fst d) -> NoDup (map fst (dd_update eqb dflt k0 f d)).
Proof.
  induction d as [| [k' v] d IH]; simpl; intros Hnd.
  - constructor; [intros [] | constructor].
  - inversion Hnd as [| ? ? Hnotin Hnd']; subst.
    destruct (eqb k0 k') eqn:E; simpl.
    + constructor; assumption.
    + constructor; [| now apply IH].
      rewrite dd_update_in_keys. intros [-> | Hin]; [| contradiction].
      rewrite eqb_refl' in E. discriminate.
Qed.

Lemma dd_update_Forall (P : V -> Prop) (k0 : K) (f : V -> V) (d : list (K * V)) :
  P dflt -> (forall v, P v -> P (f v)) ->
  Forall (fun e => P (snd e)) d ->
  Forall (fun e => P (snd e)) (dd_update eqb dflt k0 f d).
Proof.
  intros Hd Hf. induction 1 as [| [k' v] d Hv Htl IH]; simpl.
  - constructor; [now apply Hf | constructor].
  - destruct (eqb k0 k'); constructor; simpl in *; auto.
Qed.

(** The sum of a measure that is zero on the default value changes by
    what the update does to the entry. *)
Lemma sum_of_dd_update (g : V -> Z) (k0 : K) (f : V -> V) (d : list (K * V)) :
  g dflt = 0 ->
  sum_of (fun e => g (snd e)) (dd_update eqb dflt k0 f d)
  = sum_of (fun e => g (snd e)) d
    + (g (f (dd_get eqb dflt k0 d)) - g (dd_get eqb dflt k0 d)).
Proof.
  intros Hg. induction d as [| [k' v] d IH]; simpl.
  - rewrite Hg. lia.
  - destruct (eqb k0 k'); simpl; [lia | rewrite IH; lia].
Qed.

(** Looking every key up gives every entry once. *)
Lemma sum_of_lookups (g : V -> Z) (d : list (K * V)) :
  NoDup (map fst d) ->
  sum_of (fun k => g (dd_get eqb dflt k d)) (map fst d)
  = sum_of (fun e => g (snd e)) d.
Proof.
  induction d as [| [k v] d IH]; simpl; intros Hnd; [reflexivity |].
  inversion Hnd as [| ? ? Hnotin Hnd']; subst.
  rewrite eqb_refl'. f_equal. rewrite <- (IH Hnd').
  clear IH. revert Hnotin. generalize (map fst d) as ks.
  induction ks as [| k' ks IHk]; simpl; intros Hnotin; [reflexivity |].
  destruct (eqb k' k) eqn:E.
  - apply eqb_eq in E; subst. exfalso. apply Hnotin. now left.
  - f_equal. apply IHk. intros Hin. apply Hnotin. now right.
Qed.

End DictFacts.

(** ** The tallies add up *)

Section MoreAggregatorFacts.
Context {float : Type} {FO : FloatOps float} {EV : Env}.

(** One pass of the record loop, field by field. *)
Lemma process_record_fields (rep : report) (a a' : acc) (r : record) :
  process_record rep a r = inr a' ->
  exists date_str,
    strftime_local (date_begin rep) = inr date_str /\
    let c := r_count r in
    let both := is_pass (r_dkim r) && is_pass (r_spf r) in
    total_messages a' = total_messages a + c /\
    dkim_pass a' = dkim_pass a + flag (is_pass (r_dkim r)) c /\
    spf_pass a' = spf_pass a + flag (is_pass (r_spf r)) c /\
    dmarc_pass a' = dmarc_pass a + flag both c /\
    ip_data a' = dd_update pystr_eqb ip_default (r_source_ip r) (ip_step r) (ip_data a) /\
    daily_stats a'
    = dd_update String.eqb day_default date_str (day_step r) (daily_stats a) /\
    dispositions a'
    = dd_update pystr_eqb 0 (r_disposition r) (fun n => n + c) (dispositions a) /\
    source_orgs a' = source_orgs a /\ domains a' = domains a /\
    earliest a' = earliest a /\ latest a' = latest a.
Proof.
  unfold process_record; intros Hrun.
  apply bind_inr in Hrun as (date_str & Hdate & Hrun).
  exists date_str. split; [exact Hdate |].
  injection Hrun as <-. cbv zeta. cbn [total_messages dkim_pass spf_pass dmarc_pass
    ip_data daily_stats dispositions source_orgs domains earliest latest].
  unfold ip_update, day_update, int_update, flag.
  rewrite !(when_update_compose pystr_eqb ip_default pystr_eqb_eq).
  rewrite !(when_update_compose String.eqb day_default String.eqb_eq).
  repeat split;
    try (destruct (is_pass (r_dkim r)), (is_pass (r_spf r)); simpl; lia).
Qed.

Lemma ip_step_fields (r : record) (s : ip_stats) :
  s_count (ip_step r s) = s_count s + r_count r /\
  s_dkim_pass (ip_step r s) = s_dkim_pass s + flag (is_pass (r_dkim r)) (r_count r) /\
  s_spf_pass (ip_step r s) = s_spf_pass s + flag (is_pass (r_spf r)) (r_count r) /\
  s_dmarc_pass (ip_step r s)
  = s_dmarc_pass s + flag (is_pass (r_dkim r) && is_pass (r_spf r)) (r_count r).
Proof.
  unfold ip_step, flag.
  destruct (is_pass (r_dkim r)), (is_pass (r_spf r)); simpl; repeat split; lia.
Qed.

Lemma day_step_fields (r : record) (s : day_stats) :
  d_total (day_step r s) = d_total s + r_count r /\
  d_dkim_pass (day_step r s) = d_dkim_pass s + flag (is_pass (r_dkim r)) (r_count r) /\
  d_spf_pass (day_step r s) = d_spf_pass s + flag (is_pass (r_spf r)) (r_count r) /\
  d_dmarc_pass (day_step r s)
  = d_dmarc_pass s + flag (is_pass (r_dkim r) && is_pass (r_spf r)) (r_count r).
Proof.
  unfold day_step, flag.
  destruct (is_pass (r_dkim r)), (is_pass (r_spf r)); simpl; repeat split; lia.
Qed.

Lemma sum_of_snd_update (k : pystr) (c : Z) (d : list (pystr * Z)) :
  sum_of snd (dd_update pystr_eqb 0 k (fun n => n + c) d) = sum_of snd d + c.
Proof.
  induction d as [| [k' v] d IH]; simpl; [lia |].
  destruct (pystr_eqb k k'); simpl; [lia | rewrite IH; lia].
Qed.

Lemma process_record_tallies (rep : report) (a a' : acc) (r : record) :
  tallies_agree a -> process_record rep a r = inr a' -> tallies_agree a'.
Proof.
  intros (I1 & I2 & I3 & I4 & D1 & D2 & D3 & D4 & P & N1 & N2) Hrun.
  apply process_record_fields in Hrun
    as (date_str & _ & Ht & Hk & Hs & Hm & Hip & Hday & Hdisp & _).
  cbv zeta in *.
  destruct (ip_step_fields r (dd_get pystr_eqb ip_default (r_source_ip r) (ip_data a)))
    as (F1 & F2 & F3 & F4).
  destruct (day_step_fields r (dd_get String.eqb day_default date_str (daily_stats a)))
    as (G1 & G2 & G3 & G4).
  unfold tallies_agree. rewrite Hip, Hday, Hdisp, Ht, Hk, Hs, Hm.
  rewrite !(sum_of_dd_update pystr_eqb ip_default) by reflexivity.
  rewrite !(sum_of_dd_update String.eqb day_default) by reflexivity.
  rewrite sum_of_snd_update.
  repeat split; try lia.
  - apply (dd_update_nodup pystr_eqb ip_default pystr_eqb_eq); exact N1.
  - apply (dd_update_nodup String.eqb day_default String.eqb_eq); exact N2.
Qed.

Lemma records_loop_tallies (rep : report) (rs : list record) :
  forall a a', tallies_agree a -> for_each (process_record rep) rs a = inr a' ->
    tallies_agree a'.
Proof.
  induction rs as [| r rs IH]; simpl; intros a a' Ha Hrun.
  - now injection Hrun as <-.
  - apply bind_inr in Hrun as (a1 & H1 & Hrun).
    eapply IH; [| exact Hrun]. eapply process_record_tallies; eassumption.
Qed.

Lemma records_loop_orgs (rep : report) (rs : list record) :
  forall a a', for_each (process_record rep) rs a = inr a' ->
    source_orgs a' = source_orgs a /\ domains a' = domains a /\
    earliest a' = earliest a /\ latest a' = latest a.
Proof.
  induction rs as [| r rs IH]; simpl; intros a a' Hrun.
  - injection Hrun as <-. auto.
  - apply bind_inr in Hrun as (a1 & H1 & Hrun).
    apply process_record_fields in H1 as (d & _ & _ & _ & _ & _ & _ & _ & _ & E1 & E2 & E3 & E4).
    destruct (IH _ _ Hrun) as (F1 & F2 & F3 & F4).
    rewrite F1, F2, F3, F4. auto.
Qed.

Lemma process_report_tallies (a a' : acc) (rep : report) :
  tallies_agree a -> process_report a rep = inr a' -> tallies_agree a'.
Proof.
  unfold process_report; intros Ha Hrun.
  eapply records_loop_tallies; [| exact Hrun]. exact Ha.
Qed.

Lemma process_report_orgs (a a' : acc) (rep : report) :
  process_report a rep = inr a' ->
  sum_of snd (source_orgs a') = sum_of snd (source_orgs a) + 1.
Proof.
  unfold process_report; intros Hrun.
  apply records_loop_orgs in Hrun as (-> & _). cbn [source_orgs].
  unfold int_update. apply sum_of_snd_update.
Qed.

Lemma accumulate_tallies (reports : list report) :
  forall a a', tallies_agree a -> for_each process_report reports a = inr a' ->
    tallies_agree a' /\
    sum_of snd (source_orgs a')
    = sum_of snd (source_orgs a) + Z.of_nat (List.length reports).
Proof.
  induction reports as [| rep reports IH]; intros a a' Ha Hrun.
  - simpl in Hrun. injection Hrun as <-. split; [exact Ha | simpl; lia].
  - cbn [for_each] in Hrun. apply bind_inr in Hrun as (a1 & H1 & Hrun).
    destruct (IH a1 a' (process_report_tallies _ _ _ Ha H1) Hrun) as (Ht & Ho).
    split; [exact Ht |]. rewrite Ho, (process_report_orgs _ _ _ H1).
    cbn [List.length]. lia.
Qed.

Lemma acc_init_tallies : tallies_agree acc_init.
Proof.
  unfold tallies_agree, acc_init; simpl. repeat split; constructor.
Qed.

(** The fields of the result that [finish] copies from the loop. *)
Lemma finish_copies (n : nat) (a : acc) (res : analytics float) :
  finish n a = inr res ->
  out_dispositions res = dispositions a /\
  source_organizations res = source_orgs a /\
  summary_total_reports res = n /\
  summary_domains res = domains a /\
  date_or_none (earliest a) = inr (summary_date_range_start res) /\
  date_or_none (latest a) = inr (summary_date_range_end res).
Proof.
  unfold finish; intros Hrun.
  apply bind_inr in Hrun as (ip_list & _ & Hrun).
  apply bind_inr in Hrun as (tl & _ & Hrun).
  apply bind_inr in Hrun as (r1 & _ & Hrun).
  apply bind_inr in Hrun as (r2 & _ & Hrun).
  apply bind_inr in Hrun as (r3 & _ & Hrun).
  apply bind_inr in Hrun as (d1 & Hd1 & Hrun).
  apply bind_inr in Hrun as (d2 & Hd2 & Hrun).
  injection Hrun as <-; simpl. repeat split; assumption.
Qed.

Lemma make_ip_info_copies (entry : pystr * ip_stats) (i : ip_info float) :
  make_ip_info entry = inr i ->
  i_ip i = fst entry /\ i_count i = s_count (snd entry) /\
  i_dkim_pass i = s_dkim_pass (snd entry) /\
  i_spf_pass i = s_spf_pass (snd entry) /\
  i_dmarc_pass i = s_dmarc_pass (snd entry).
Proof.
  destruct entry as [ip stats]; unfold make_ip_info; intros Hrun.
  apply bind_inr in Hrun as (cr & _ & Hrun).
  injection Hrun as <-; simpl. auto.
Qed.

Lemma make_timeline_entry_copies (daily : list (string * day_stats))
  (date_str : string) (t : timeline_entry float) :
  make_timeline_entry daily date_str = inr t ->
  let stats := dd_get String.eqb day_default date_str daily in
  t_date t = date_str /\ t_total t = d_total stats /\
  t_dkim_pass t = d_dkim_pass stats /\ t_spf_pass t = d_spf_pass stats /\
  t_dmarc_pass t = d_dmarc_pass stats.
Proof.
  unfold make_timeline_entry; intros Hrun.
  apply bind_inr in Hrun as (cr & _ & Hrun).
  injection Hrun as <-; simpl. auto.
Qed.

Lemma Forall2_impl' {A B : Type} (R S : A -> B -> Prop) (l : list A) (l' : list B) :
  (forall x y, R x y -> S x y) -> Forall2 R l l' -> Forall2 S l l'.
Proof. intros HRS; induction 1; constructor; auto. Qed.

Lemma insert_string_perm (x : string) (l : list string) :
  Permutation (x :: l) (insert_string x l).
Proof.
  induction l as [| y l IH]; simpl; [reflexivity |].
  destruct (String.leb x y); [reflexivity |].
  rewrite perm_swap. now apply perm_skip.
Qed.

Lemma sorted_strings_perm (l : list string) : Permutation l (sorted_strings l).
Proof.
  induction l as [| x l IH]; simpl; [constructor |].
  rewrite <- insert_string_perm. now apply perm_skip.
Qed.

(** Property X1.  When the batch has at most twenty distinct source IPs,
    so that [top_sources] lists them all, the [count], [dkim_pass] and
    [spf_pass] entries of [top_sources] add up to [total_messages] and to
    the DKIM and SPF pass counters of the result. *)
Theorem per_source_sums (reports : list report) (res : analytics float) :
  _generate_analytics reports = inr res ->
  (List.length (distinct_ips reports) <= 20)%nat ->
  sum_of i_count (top_sources res) = summary_total_messages res /\
  sum_of i_dkim_pass (top_sources res) = auth_dkim_pass res /\
  sum_of i_spf_pass (top_sources res) = auth_spf_pass res.
Proof.
  intros Hrun Hlen. apply generate_analytics_inr in Hrun as (a & Hacc & Hfin).
  destruct (accumulate_tallies _ _ _ acc_init_tallies Hacc)
    as ((I1 & I2 & I3 & _) & _).
  destruct (finish_counters _ _ _ Hfin) as (-> & -> & _ & -> & _).
  apply finish_inr in Hfin as (ip_list & dc & Hip & _ & _ & _ & _ & Htop & _).
  pose proof (ip_list_keys _ _ Hip) as Hkeys.
  pose proof (accumulate_keys _ _ _ Hacc) as Hk. simpl in Hk.
  fold (distinct_ips reports) in Hk.
  assert (Hall : top_sources res = sort_by_count ip_list).
  { rewrite Htop. apply firstn_all2.
    rewrite <- (Permutation_length (sort_by_count_perm ip_list)).
    rewrite <- (length_map i_ip), Hkeys, Hk. exact Hlen. }
  rewrite Hall, <- I1, <- I2, <- I3.
  rewrite <- !(sum_of_perm _ _ _ (sort_by_count_perm ip_list)).
  apply map_result_inr in Hip.
  repeat split; apply sum_of_Forall2;
    (eapply Forall2_impl'; [| exact Hip]);
    intros e i He; apply make_ip_info_copies in He; tauto.
Qed.

(** Property X2.  The [total], [dkim_pass] and [spf_pass] entries of the
    timeline add up to [total_messages] and to the DKIM and SPF pass
    counters of the result: every record is booked on exactly one day. *)
Theorem per_day_sums (reports : list report) (res : analytics float) :
  _generate_analytics reports = inr res ->
  sum_of t_total (timeline res) = summary_total_messages res /\
  sum_of t_dkim_pass (timeline res) = auth_dkim_pass res /\
  sum_of t_spf_pass (timeline res) = auth_spf_pass res.
Proof.
  intros Hrun. apply generate_analytics_inr in Hrun as (a & Hacc & Hfin).
  destruct (accumulate_tallies _ _ _ acc_init_tallies Hacc)
    as ((_ & _ & _ & _ & D1 & D2 & D3 & _ & _ & _ & N) & _).
  destruct (finish_counters _ _ _ Hfin) as (-> & -> & _ & -> & _).
  apply finish_inr in Hfin as (ip_list & dc & _ & Htl & _).
  apply map_result_inr in Htl.
  rewrite <- D1, <- D2, <- D3.
  rewrite <- !(sum_of_lookups String.eqb day_default String.eqb_eq _ _ N).
  rewrite !(sum_of_perm _ _ _ (sorted_strings_perm (map fst (daily_stats a)))).
  repeat split; apply sum_of_Forall2;
    (eapply Forall2_impl'; [| exact Htl]);
    intros d t Ht; apply make_timeline_entry_copies in Ht; cbv zeta in Ht; tauto.
Qed.

(** Property X3.  The message counts per disposition add up to
    [total_messages], the report counts per organisation add up to the
    number of reports, and [total_reports] is that number. *)
Theorem disposition_and_org_sums (reports : list report) (res : analytics float) :
  _generate_analytics reports = inr res ->
  sum_of snd (out_dispositions res) = summary_total_messages res /\
  sum_of snd (source_organizations res) = Z.of_nat (List.length reports) /\
  summary_total_reports res = List.length reports.
Proof.
  intros Hrun. apply generate_analytics_inr in Hrun as (a & Hacc & Hfin).
  destruct (accumulate_tallies _ _ _ acc_init_tallies Hacc)
    as ((_ & _ & _ & _ & _ & _ & _ & _ & P & _) & Ho).
  destruct (finish_counters _ _ _ Hfin) as (-> & _).
  apply finish_copies in Hfin as (-> & -> & -> & _).
  simpl in Ho. auto.
Qed.

End MoreAggregatorFacts.

(** ** Passes stay within the volume *)

Section BoundsFacts.
Context {float : Type} {FO : FloatOps float} {EV : Env}.

Lemma ip_step_bounded (r : record) (s : ip_stats) :
  0 <= r_count r -> ip_bounded s -> ip_bounded (ip_step r s).
Proof.
  unfold ip_bounded. intros Hc Hs.
  destruct (ip_step_fields r s) as (-> & -> & -> & ->). unfold flag.
  destruct (is_pass (r_dkim r)), (is_pass (r_spf r)); simpl; lia.
Qed.

Lemma day_step_bounded (r : record) (s : day_stats) :
  0 <= r_count r -> day_bounded s -> day_bounded (day_step r s).
Proof.
  unfold day_bounded. intros Hc Hs.
  destruct (day_step_fields r s) as (-> & -> & -> & ->). unfold flag.
  destruct (is_pass (r_dkim r)), (is_pass (r_spf r)); simpl; lia.
Qed.

Lemma process_record_bounded (rep : report) (a a' : acc) (r : record) :
  0 <= r_count r -> counters_bounded a -> process_record rep a r = inr a' ->
  counters_bounded a'.
Proof.
  intros Hc (B1 & B2 & B3 & B4 & B5 & Bip & Bday) Hrun.
  apply process_record_fields in Hrun
    as (date_str & _ & Ht & Hk & Hs & Hm & Hip & Hday & _).
  cbv zeta in *. unfold counters_bounded.
  rewrite Ht, Hk, Hs, Hm, Hip, Hday. unfold flag.
  repeat split;
    try (destruct (is_pass (r_dkim r)), (is_pass (r_spf r)); simpl; lia).
  - apply dd_update_Forall; [unfold ip_bounded; simpl; lia | | exact Bip].
    intros v Hv. now apply ip_step_bounded.
  - apply dd_update_Forall; [unfold day_bounded; simpl; lia | | exact Bday].
    intros v Hv. now apply day_step_bounded.
Qed.

Lemma records_loop_bounded (rep : report) (rs : list record) :
  Forall (fun r => 0 <= r_count r) rs ->
  forall a a', counters_bounded a -> for_each (process_record rep) rs a = inr a' ->
    counters_bounded a'.
Proof.
  induction 1 as [| r rs Hr _ IH]; simpl; intros a a' Ha Hrun.
  - now injection Hrun as <-.
  - apply bind_inr in Hrun as (a1 & H1 & Hrun).
    eapply IH; [| exact Hrun]. eapply process_record_bounded; eassumption.
Qed.

Lemma accumulate_bounded (reports : list report) :
  Forall (fun r => 0 <= r_count r) (all_records reports) ->
  forall a a', counters_bounded a -> for_each process_report reports a = inr a' ->
    counters_bounded a'.
Proof.
  unfold all_records.
  induction reports as [| rep reports IH]; simpl; intros Hall a a' Ha Hrun.
  - now injection Hrun as <-.
  - apply Forall_app in Hall as (Hrep & Hrest).
    apply bind_inr in Hrun as (a1 & H1 & Hrun).
    eapply (IH Hrest); [| exact Hrun].
    unfold process_report in H1.
    eapply (records_loop_bounded rep _ Hrep); [| exact H1]. exact Ha.
Qed.

Lemma acc_init_bounded : counters_bounded acc_init.
Proof.
  unfold counters_bounded, acc_init; simpl. repeat split; try lia; constructor.
Qed.

(** Property X4.  When no record carries a negative count, the DKIM and
    SPF pass counters lie between 0 and [total_messages], the fail
    counters are not negative, and in every entry of [top_sources] and of
    the timeline the both-pass count is at most the DKIM and the SPF pass
    count, which are at most the volume of the entry. *)
Theorem passes_within_volume (reports : list report) (res : analytics float) :
  _generate_analytics reports = inr res ->
  Forall (fun r => 0 <= r_count r) (all_records reports) ->
  0 <= auth_dkim_pass res <= summary_total_messages res /\
  0 <= auth_spf_pass res <= summary_total_messages res /\
  0 <= auth_dkim_fail res /\ 0 <= auth_spf_fail res /\
  Forall (fun i => 0 <= i_dmarc_pass i /\ i_dmarc_pass i <= i_dkim_pass i /\
                   i_dmarc_pass i <= i_spf_pass i /\ i_dkim_pass i <= i_count i /\
                   i_spf_pass i <= i_count i) (top_sources res) /\
  Forall (fun t => 0 <= t_dmarc_pass t /\ t_dmarc_pass t <= t_dkim_pass t /\
                   t_dmarc_pass t <= t_spf_pass t /\ t_dkim_pass t <= t_total t /\
                   t_spf_pass t <= t_total t) (timeline res).
Proof.
  intros Hrun Hpos. apply generate_analytics_inr in Hrun as (a & Hacc & Hfin).
  destruct (accumulate_bounded _ Hpos _ _ acc_init_bounded Hacc)
    as (B1 & B2 & B3 & B4 & B5 & Bip & Bday).
  assert (Hbal : balanced (0 + sum_counts (all_records reports)) a).
  { eapply accumulate_balanced; [| exact Hacc].
    unfold balanced, acc_init; simpl; lia. }
  destruct Hbal as (Hd & Hs & _ & _).
  destruct (finish_counters _ _ _ Hfin) as (-> & -> & -> & -> & ->).
  apply finish_inr in Hfin as (ip_list & dc & Hip & Htl & _ & _ & _ & Htop & _).
  refine (conj _ (conj _ (conj _ (conj _ (conj _ _))))); try lia.
  - rewrite Htop. apply Forall_forall; intros i Hi.
    assert (Hin : In i ip_list).
    { apply (Permutation_in _ (Permutation_sym (sort_by_count_perm ip_list))).
      rewrite <- (firstn_skipn 20 (sort_by_count ip_list)).
      apply in_or_app; now left. }
    apply map_result_inr in Hip.
    destruct (Forall2_in_right _ _ _ Hip i Hin) as (entry & Hentry & Hmk).
    apply make_ip_info_copies in Hmk as (_ & -> & -> & -> & ->).
    rewrite Forall_forall in Bip. exact (Bip entry Hentry).
  - apply Forall_forall; intros t Ht.
    apply map_result_inr in Htl.
    destruct (Forall2_in_right _ _ _ Htl t Ht) as (d & Hd' & Hmk).
    apply make_timeline_entry_copies in Hmk as (_ & -> & -> & -> & ->).
    clear - Bday. induction Bday as [| [k v] l Hv _ IH]; simpl.
    + unfold day_default; simpl; lia.
    + destruct (String.eqb d k); [exact Hv | exact IH].
Qed.

End BoundsFacts.

(** ** Dates, the timeline and the findings *)

Section MoreFacts.
Context {float : Type} {FO : FloatOps float} {EV : Env}.

(** ** The date range *)

Lemma process_report_dates (a a' : acc) (rep : report) :
  process_report a rep = inr a' ->
  earliest a' = Some (match earliest a with
                      | None => date_begin rep
                      | Some e => Z.min e (date_begin rep)
                      end) /\
  latest a' = Some (match latest a with
                    | None => date_end rep
                    | Some l => Z.max l (date_end rep)
                    end).
Proof.
  unfold process_report; intros Hrun.
  apply records_loop_orgs in Hrun as (_ & _ & -> & ->). cbn [earliest latest].
  split.
  - destruct (earliest a) as [e |]; [| reflexivity].
    destruct (date_begin rep <? e) eqn:E; f_equal.
    + apply Z.ltb_lt in E. lia.
    + apply Z.ltb_ge in E. lia.
  - destruct (latest a) as [l |]; [| reflexivity].
    destruct (date_end rep >? l) eqn:E; f_equal.
    + apply Z.gtb_lt in E. lia.
    + rewrite Z.gtb_ltb in E. apply Z.ltb_ge in E. lia.
Qed.

Lemma accumulate_dates (rest : list report) :
  forall (a a' : acc) (lo hi : Z),
    earliest a = Some lo -> latest a = Some hi ->
    for_each process_report rest a = inr a' ->
    earliest a' = Some (fold_left Z.min (map date_begin rest) lo) /\
    latest a' = Some (fold_left Z.max (map date_end rest) hi).
Proof.
  induction rest as [| rep rest IH]; simpl; intros a a' lo hi Hlo Hhi Hrun.
  - injection Hrun as <-. auto.
  - apply bind_inr in Hrun as (a1 & H1 & Hrun).
    apply process_report_dates in H1 as (E1 & E2). rewrite Hlo in E1. rewrite Hhi in E2.
    exact (IH _ _ _ _ E1 E2 Hrun).
Qed.

Lemma date_or_none_rendered (t : Z) (s : pystr) :
  date_or_none (Some t) = inr s -> rendered t s.
Proof.
  unfold date_or_none, rendered. destruct (t =? 0) eqn:E.
  - apply Z.eqb_eq in E. intros H. injection H as <-. split; [auto | lia].
  - apply Z.eqb_neq in E. intros H.
    apply bind_inr in H as (d & Hd & H). injection H as <-.
    split; [lia | eauto].
Qed.

(** Property X5.  For a batch with at least one report, the start of
    the date range is the smallest [date_begin] and its end the largest
    [date_end] of the reports, written as a local date; a bound that is
    the timestamp 0 is reported as [None]. *)
Theorem date_range_extremes (rep : report) (rest : list report)
  (res : analytics float) :
  _generate_analytics (rep :: rest) = inr res ->
  rendered (first_begin rep rest) (summary_date_range_start res) /\
  rendered (last_end rep rest) (summary_date_range_end res).
Proof.
  intros Hrun. apply generate_analytics_inr in Hrun as (a & Hacc & Hfin).
  unfold accumulate in Hacc. cbn [for_each] in Hacc.
  apply bind_inr in Hacc as (a1 & H1 & Hacc).
  apply process_report_dates in H1 as (E1 & E2). cbn in E1, E2.
  destruct (accumulate_dates _ _ _ _ _ E1 E2 Hacc) as (F1 & F2).
  apply finish_copies in Hfin as (_ & _ & _ & _ & D1 & D2).
  rewrite F1 in D1. rewrite F2 in D2.
  split; now apply date_or_none_rendered.
Qed.

(** ** The timeline *)

Lemma insert_string_sorted (x : string) (l : list string) :
  Sorted string_le l -> Sorted string_le (insert_string x l).
Proof.
  induction 1 as [| y l Hs IH Hy]; simpl.
  - repeat constructor.
  - destruct (String.leb x y) eqn:E.
    + constructor; [constructor; assumption | constructor; exact E].
    + constructor; [exact IH |].
      assert (Hyx : string_le y x).
      { destruct (String.leb_total x y) as [H | H]; [congruence | exact H]. }
      destruct l as [| z l]; simpl.
      * constructor; exact Hyx.
      * destruct (String.leb x z); constructor; [exact Hyx |].
        now inversion Hy.
Qed.

Lemma sorted_strings_sorted (l : list string) : Sorted string_le (sorted_strings l).
Proof.
  induction l as [| x l IH]; simpl; [constructor |].
  now apply insert_string_sorted.
Qed.

Lemma timeline_dates (daily : list (string * day_stats)) (ks : list string)
  (tl : list (timeline_entry float)) :
  map_result (make_timeline_entry daily) ks = inr tl -> map t_date tl = ks.
Proof.
  intros Hrun. apply map_result_inr in Hrun.
  induction Hrun as [| k t ks tl Hkt _ IH]; simpl; [reflexivity |].
  apply make_timeline_entry_copies in Hkt as (-> & _). now rewrite IH.
Qed.

Lemma records_loop_days (rep : report) (rs : list record) :
  forall a a' d, for_each (process_record rep) rs a = inr a' ->
    (In d (map fst (daily_stats a')) <->
     In d (map fst (daily_stats a)) \/
     (rs <> [] /\ strftime_local (date_begin rep) = inr d)).
Proof.
  induction rs as [| r rs IH]; simpl; intros a a' d Hrun.
  - injection Hrun as <-. intuition.
  - apply bind_inr in Hrun as (a1 & H1 & Hrun).
    rewrite (IH _ _ d Hrun).
    apply process_record_fields in H1
      as (d0 & Hd0 & _ & _ & _ & _ & _ & -> & _).
    rewrite (dd_update_in_keys String.eqb day_default String.eqb_eq).
    split.
    + intros [[-> | Hin] | (_ & Hd)]; auto.
      * right. split; [discriminate | exact Hd0].
      * right. split; [discriminate | exact Hd].
    + intros [Hin | (_ & Hd)]; auto.
      left. left. congruence.
Qed.

Lemma accumulate_days (reports : list report) :
  forall a a' d, for_each process_report reports a = inr a' ->
    (In d (map fst (daily_stats a')) <->
     In d (map fst (daily_stats a)) \/ day_of_some_record reports d).
Proof.
  unfold day_of_some_record.
  induction reports as [| rep reports IH]; simpl; intros a a' d Hrun.
  - injection Hrun as <-. split; [auto | intros [H | (rep & [] & _)]; exact H].
  - apply bind_inr in Hrun as (a1 & H1 & Hrun).
    rewrite (IH _ _ d Hrun). unfold process_report in H1.
    rewrite (records_loop_days _ _ _ _ d H1). cbn [daily_stats].
    split.
    + intros [[Hin | (Hne & Hd)] | (rep' & Hin & Hne & Hd)]; auto.
      * right. exists rep. auto.
      * right. exists rep'. auto.
    + intros [Hin | (rep' & [<- | Hin] & Hne & Hd)]; auto.
      right. exists rep'. auto.
Qed.

(** Property X6.  The dates of the timeline are in ascending order and
    pairwise distinct, and a date is listed exactly when some report with
    at least one record begins on that local day. *)
Theorem timeline_days (reports : list report) (res : analytics float) :
  _generate_analytics reports = inr res ->
  Sorted string_le (map t_date (timeline res)) /\
  NoDup (map t_date (timeline res)) /\
  (forall d, In d (map t_date (timeline res)) <-> day_of_some_record reports d).
Proof.
  intros Hrun. apply generate_analytics_inr in Hrun as (a & Hacc & Hfin).
  destruct (accumulate_tallies _ _ _ acc_init_tallies Hacc)
    as ((_ & _ & _ & _ & _ & _ & _ & _ & _ & _ & N) & _).
  apply finish_inr in Hfin as (ip_list & dc & _ & Htl & _).
  rewrite (timeline_dates _ _ _ Htl).
  pose proof (sorted_strings_perm (map fst (daily_stats a))) as Hperm.
  refine (conj (sorted_strings_sorted _) (conj _ _)).
  - exact (Permutation_NoDup Hperm N).
  - intros d. pose proof (accumulate_days reports acc_init a d Hacc) as Hd.
    simpl in Hd. split.
    + intros Hin. apply (Permutation_in _ (Permutation_sym Hperm)) in Hin.
      apply Hd in Hin as [[] | Hin]. exact Hin.
    + intros Hin. apply (Permutation_in _ Hperm). apply Hd. now right.
Qed.

(** ** Threat findings *)

Lemma length_filter_le {A : Type} (f : A -> bool) (l : list A) :
  (List.length (filter f l) <= List.length l)%nat.
Proof.
  induction l as [| x l IH]; simpl; [lia |]. destruct (f x); simpl; lia.
Qed.

(** Property X7.  [_identify_threats] returns at least one and at most
    eleven findings, and a finding of level [success] only ever appears
    as the single entry [no_threats]. *)
Theorem threats_between_1_and_11 (ip_list : list (ip_info float))
  (dc : pynum float) :
  (1 <= List.length (_identify_threats ip_list dc) <= 11)%nat /\
  (forall t, In t (_identify_threats ip_list dc) -> level t = "success" ->
     _identify_threats ip_list dc = [no_threats]).
Proof.
  pose proof (identify_threats_rules ip_list dc) as Hrules. cbv zeta in Hrules.
  rewrite Hrules. clear Hrules.
  assert (Hlen : (List.length (map suspicious_ip (filter risky (firstn 10 ip_list)))
                  <= 10)%nat).
  { rewrite length_map.
    etransitivity; [apply length_filter_le |]. apply firstn_le_length. }
  assert (Hhigh : forall t, In t (map suspicious_ip (filter risky (firstn 10 ip_list)))
                            -> level t = "high").
  { intros t Ht. apply in_map_iff in Ht as (i & <- & _). reflexivity. }
  revert Hlen Hhigh.
  generalize (map suspicious_ip (filter risky (firstn 10 ip_list))) as found.
  intros found Hlen Hhigh.
  assert (Hnot : forall t, In t found -> level t = "success" -> False).
  { intros t Hin H. rewrite (Hhigh t Hin) in H. discriminate. }
  destruct (num_ltb dc 80); destruct found as [| t0 found]; simpl in *.
  - split; [lia |]. intros t [<- | []]. discriminate.
  - split; [rewrite length_app; simpl; lia |].
    intros t [<- | Hin]; [discriminate |]. rewrite app_nil_r in Hin.
    intros H. destruct (Hnot t Hin H).
  - split; [lia | auto].
  - split; [rewrite length_app; simpl; lia |].
    intros t Hin. rewrite app_nil_r in Hin. intros H. destruct (Hnot t Hin H).
Qed.

End MoreFacts.

(** ** Volumes per source *)

Section DictLookups.
Context {K V : Type} (eqb : K -> K -> bool) (dflt : V).
Hypothesis eqb_eq : forall a b, eqb a b = true <-> a = b.

Lemma dd_get_update_other (k k0 : K) (f : V -> V) (d : list (K * V)) :
  eqb k k0 = false ->
  dd_get eqb dflt k (dd_update eqb dflt k0 f d) = dd_get eqb dflt k d.
Proof.
  intros Hne. induction d as [| [k' v] d IH]; simpl.
  - now rewrite Hne.
  - destruct (eqb k0 k') eqn:E; simpl.
    + apply eqb_eq in E. subst k'. now rewrite Hne.
    + destruct (eqb k k'); [reflexivity | exact IH].
Qed.

Lemma dd_get_in (k : K) (v : V) (d : list (K * V)) :
  NoDup (map fst d) -> In (k, v) d -> dd_get eqb dflt k d = v.
Proof.
  induction d as [| [k' v'] d IH]; simpl; intros Hnd Hin; [contradiction |].
  inversion Hnd as [| ? ? Hnot Hnd']; subst.
  destruct Hin as [E | Hin].
  - injection E as -> ->. now rewrite (proj2 (eqb_eq k k) eq_refl).
  - destruct (eqb k k') eqn:E.
    + apply eqb_eq in E. subst k'. exfalso. apply Hnot.
      apply in_map_iff. now exists (k, v).
    + now apply IH.
Qed.

End DictLookups.

Lemma StronglySorted_app_cross {A : Type} (R : A -> A -> Prop) (l1 l2 : list A) :
  StronglySorted R (l1 ++ l2) ->
  forall x y, In x l1 -> In y l2 -> R x y.
Proof.
  induction l1 as [| z l1 IH]; simpl; intros Hs x y Hx Hy; [contradiction |].
  inversion Hs as [| ? ? Hs' Hz]; subst.
  destruct Hx as [<- | Hx].
  - rewrite Forall_forall in Hz. apply Hz, in_or_app. now right.
  - now apply IH.
Qed.

Section SourceFacts.
Context {float : Type} {FO : FloatOps float} {EV : Env}.

Lemma process_record_lookup (rep : report) (a a' : acc) (r : record) (ip : pystr) :
  process_record rep a r = inr a' ->
  s_count (dd_get pystr_eqb ip_default ip (ip_data a'))
  = s_count (dd_get pystr_eqb ip_default ip (ip_data a))
    + sum_counts (records_from ip [r]).
Proof.
  intros Hrun. apply process_record_fields in Hrun
    as (d & _ & _ & _ & _ & _ & -> & _).
  simpl. destruct (pystr_eqb (r_source_ip r) ip) eqn:E.
  - apply pystr_eqb_eq in E. subst ip.
    rewrite dd_get_update_same by apply pystr_eqb_refl.
    destruct (ip_step_fields r
      (dd_get pystr_eqb ip_default (r_source_ip r) (ip_data a))) as (-> & _).
    simpl. lia.
  - rewrite (dd_get_update_other pystr_eqb ip_default pystr_eqb_eq).
    + simpl. lia.
    + destruct (pystr_eqb ip (r_source_ip r)) eqn:E'; [| reflexivity].
      apply pystr_eqb_eq in E'. subst ip. now rewrite pystr_eqb_refl in E.
Qed.

Lemma sum_counts_records_from_app (ip : pystr) (l1 l2 : list record) :
  sum_counts (records_from ip (l1 ++ l2))
  = sum_counts (records_from ip l1) + sum_counts (records_from ip l2).
Proof. unfold records_from. now rewrite filter_app, sum_counts_app. Qed.

Lemma records_loop_lookup (rep : report) (rs : list record) (ip : pystr) :
  forall a a', for_each (process_record rep) rs a = inr a' ->
    s_count (dd_get pystr_eqb ip_default ip (ip_data a'))
    = s_count (dd_get pystr_eqb ip_default ip (ip_data a))
      + sum_counts (records_from ip rs).
Proof.
  induction rs as [| r rs IH]; cbn [for_each]; intros a a' Hrun.
  - injection Hrun as <-. simpl. lia.
  - apply bind_inr in Hrun as (a1 & H1 & Hrun).
    rewrite (IH _ _ Hrun), (process_record_lookup _ _ _ _ ip H1).
    change (r :: rs) with ([r] ++ rs)%list.
    rewrite (sum_counts_records_from_app ip [r] rs). lia.
Qed.

Lemma accumulate_lookup (reports : list report) (ip : pystr) :
  forall a a', for_each process_report reports a = inr a' ->
    s_count (dd_get pystr_eqb ip_default ip (ip_data a'))
    = s_count (dd_get pystr_eqb ip_default ip (ip_data a))
      + ip_volume reports ip.
Proof.
  unfold ip_volume, all_records.
  induction reports as [| rep reports IH]; simpl; intros a a' Hrun.
  - injection Hrun as <-. simpl. lia.
  - apply bind_inr in Hrun as (a1 & H1 & Hrun).
    rewrite (IH _ _ Hrun), sum_counts_records_from_app.
    unfold process_report in H1.
    rewrite (records_loop_lookup _ _ ip _ _ H1). cbn [ip_data]. lia.
Qed.

Lemma ip_list_counts (d : list (pystr * ip_stats)) (l : list (ip_info float)) :
  NoDup (map fst d) ->
  map_result make_ip_info d = inr l ->
  forall i, In i l ->
    i_count i = s_count (dd_get pystr_eqb ip_default (i_ip i) d).
Proof.
  intros Hnd Hrun i Hi. apply map_result_inr in Hrun.
  destruct (Forall2_in_right _ _ _ Hrun _ Hi) as ([k v] & Hin & Hmk).
  apply make_ip_info_fields in Hmk as (-> & -> & _). simpl.
  now rewrite (dd_get_in pystr_eqb ip_default pystr_eqb_eq k v d Hnd Hin).
Qed.

(** Property X8.  The entries of [top_sources] have pairwise distinct
    IPs, the [count] of an entry is the sum of the counts of the records
    that name its IP, and a source IP of the batch that is left out has a
    volume no larger than that of any listed entry. *)
Theorem top_sources_cut (reports : list report) (res : analytics float) :
  _generate_analytics reports = inr res ->
  NoDup (map i_ip (top_sources res)) /\
  (forall i, In i (top_sources res) -> i_count i = ip_volume reports (i_ip i)) /\
  (forall ip i, In ip (distinct_ips reports) ->
     ~ In ip (map i_ip (top_sources res)) -> In i (top_sources res) ->
     ip_volume reports ip <= i_count i).
Proof.
  intros Hrun. apply generate_analytics_inr in Hrun as (a & Hacc & Hfin).
  destruct (accumulate_tallies _ _ _ acc_init_tallies Hacc)
    as ((_ & _ & _ & _ & _ & _ & _ & _ & _ & N & _) & _).
  apply finish_inr in Hfin as (ip_list & dc & Hip & _ & _ & _ & _ & Htop & _).
  pose proof (ip_list_keys _ _ Hip) as Hkeys.
  pose proof (sort_by_count_perm ip_list) as Hperm.
  assert (Hvol : forall i, In i ip_list -> i_count i = ip_volume reports (i_ip i)).
  { intros i Hi. rewrite (ip_list_counts _ _ N Hip i Hi).
    now rewrite (accumulate_lookup reports (i_ip i) acc_init a Hacc). }
  assert (Hsplit : sort_by_count ip_list
                   = (top_sources res ++ skipn 20 (sort_by_count ip_list))%list).
  { rewrite Htop. symmetry. apply firstn_skipn. }
  assert (Hnd : NoDup (map i_ip (sort_by_count ip_list))).
  { apply (Permutation_NoDup (Permutation_map i_ip Hperm)). now rewrite Hkeys. }
  assert (Hin : forall i, In i (top_sources res) -> In i ip_list).
  { intros i Hi. apply (Permutation_in _ (Permutation_sym Hperm)).
    rewrite Hsplit. apply in_or_app. now left. }
  refine (conj _ (conj _ _)).
  - rewrite Hsplit, map_app in Hnd. exact (NoDup_app_remove_r _ _ Hnd).
  - intros i Hi. apply Hvol, Hin, Hi.
  - intros ip i Hip' Hout Hi.
    apply accumulate_keys in Hacc. simpl in Hacc.
    fold (distinct_ips reports) in Hacc.
    rewrite <- Hacc, <- Hkeys in Hip'.
    apply in_map_iff in Hip' as (j & <- & Hj).
    rewrite <- (Hvol j Hj).
    apply (Permutation_in _ Hperm) in Hj. rewrite Hsplit in Hj.
    apply in_app_or in Hj as [Hj | Hj].
    + exfalso. apply Hout. now apply in_map.
    + pose proof (sort_by_count_sorted ip_list) as Hs. rewrite Hsplit in Hs.
      exact (StronglySorted_app_cross _ _ _ Hs i j Hi Hj).
Qed.

End SourceFacts.

(** ** A batch without messages *)

Section EmptyFacts.
Context {float : Type} {FO : FloatOps float} {EV : Env}.

Lemma all_records_nil (reports : list report) :
  all_records reports = [] -> forall rep, In rep reports -> records rep = [].
Proof.
  unfold all_records. induction reports as [| rep0 reports IH]; simpl;
    intros E rep Hin; [contradiction |].
  apply app_eq_nil in E as (E1 & E2).
  destruct Hin as [<- | Hin]; [exact E1 | now apply IH].
Qed.

Lemma no_member_nil {A : Type} (l : list A) : (forall x, ~ In x l) -> l = [].
Proof.
  destruct l as [| x l]; [reflexivity |]. intros H. destruct (H x). now left.
Qed.

Lemma map_result_nil {A B : Type} (f : A -> result B) (l : list B) :
  map_result f [] = inr l -> l = [].
Proof. intros H. apply map_result_inr in H. now inversion H. Qed.

(** Property X9.  When the total of messages is not positive, the three
    rates are the integer 0, the first finding is the low-compliance
    warning for 0 percent and [no_threats] is not reported; when the
    reports hold no record at all, [top_sources] and the timeline are
    empty and that warning is the only finding. *)
Theorem no_messages_flagged (reports : list report) (res : analytics float) :
  _generate_analytics reports = inr res ->
  summary_total_messages res <= 0 ->
  auth_dkim_pass_rate res = PInt 0 /\ auth_spf_pass_rate res = PInt 0 /\
  auth_dmarc_compliance res = PInt 0 /\
  hd_error (threats res) = Some (low_compliance (PInt 0)) /\
  ~ In no_threats (threats res) /\
  (all_records reports = [] ->
     top_sources res = [] /\ timeline res = [] /\
     threats res = [low_compliance (PInt 0)]).
Proof.
  intros Hrun Hle. apply generate_analytics_inr in Hrun as (a & Hacc & Hfin).
  pose proof (finish_counters _ _ _ Hfin) as (Htot & _).
  pose proof (finish_inr _ _ _ Hfin)
    as (ip_list & dc & Hip & Htl & R1 & R2 & R3 & Htop & Hthr).
  rewrite Htot in Hle.
  apply rate_value in R1 as (_ & R1). apply rate_value in R2 as (_ & R2).
  apply rate_value in R3 as (_ & R3).
  specialize (R1 Hle). specialize (R2 Hle). specialize (R3 Hle).
  rewrite R3 in Hthr.
  pose proof (identify_threats_rules (sort_by_count ip_list) (PInt 0)) as Hrules.
  cbv zeta in Hrules. rewrite <- Hthr in Hrules.
  change (num_ltb (PInt 0) 80) with true in Hrules. cbn iota in Hrules.
  cbn [app] in Hrules. rewrite app_nil_r in Hrules.
  refine (conj R1 (conj R2 (conj R3 (conj _ (conj _ _))))).
  - now rewrite Hrules.
  - rewrite Hrules. intros [E | Hin]; [discriminate |].
    apply in_map_iff in Hin as (i & E & _). discriminate.
  - intros Hnil.
    assert (Hno_ip : ip_data a = []).
    { apply accumulate_keys in Hacc. rewrite Hnil in Hacc. simpl in Hacc.
      now apply map_eq_nil in Hacc. }
    assert (Hno_day : daily_stats a = []).
    { apply (map_eq_nil fst). apply no_member_nil. intros d Hd.
      apply (accumulate_days reports acc_init a d Hacc) in Hd
        as [[] | (rep & Hin & Hne & _)].
      apply Hne. exact (all_records_nil _ Hnil rep Hin). }
    rewrite Hno_ip in Hip. apply map_result_nil in Hip. subst ip_list.
    rewrite Hno_day in Htl. apply map_result_nil in Htl.
    rewrite Hrules, Htop. simpl. auto.
Qed.

End EmptyFacts.

(** ** Domains *)

Lemma existsb_pystr_In (x : pystr) (s : list pystr) :
  existsb (pystr_eqb x) s = true <-> In x s.
Proof.
  rewrite existsb_exists. split.
  - intros (y & Hy & E). apply pystr_eqb_eq in E. now subst.
  - intros H. exists x. split; [exact H | apply pystr_eqb_refl].
Qed.

Lemma set_add_In (d x : pystr) (s : list pystr) :
  In d (set_add x s) <-> d = x \/ In d s.
Proof.
  unfold set_add. destruct (existsb (pystr_eqb x) s) eqn:E.
  - apply existsb_pystr_In in E. split; [auto | intros [-> | H]; auto].
  - rewrite in_app_iff. simpl. intuition.
Qed.

Lemma set_add_NoDup (x : pystr) (s : list pystr) :
  NoDup s -> NoDup (set_add x s).
Proof.
  intros Hs. unfold set_add. destruct (existsb (pystr_eqb x) s) eqn:E; [exact Hs |].
  apply NoDup_app; [exact Hs | repeat constructor; intros [] |].
  intros y Hy [<- | []]. apply existsb_pystr_In in Hy. congruence.
Qed.

Section DomainFacts.
Context {float : Type} {FO : FloatOps float} {EV : Env}.

Lemma process_report_domains (a a' : acc) (rep : report) :
  process_report a rep = inr a' -> domains a' = set_add (domain rep) (domains a).
Proof.
  unfold process_report; intros Hrun.
  now apply records_loop_orgs in Hrun as (_ & -> & _).
Qed.

Lemma accumulate_domains (reports : list report) :
  forall a a', for_each process_report reports a = inr a' ->
    (NoDup (domains a) -> NoDup (domains a')) /\
    (forall d, In d (domains a') <->
               In d (domains a) \/ exists rep, In rep reports /\ domain rep = d).
Proof.
  induction reports as [| rep reports IH]; cbn [for_each]; intros a a' Hrun.
  - injection Hrun as <-. split; [auto |]. intros d. split; [auto |].
    intros [H | (rep & [] & _)]. exact H.
  - apply bind_inr in Hrun as (a1 & H1 & Hrun).
    apply process_report_domains in H1.
    destruct (IH _ _ Hrun) as (Hnd & Hin). rewrite H1 in Hnd, Hin. split.
    + intros Ha. now apply Hnd, set_add_NoDup.
    + intros d. rewrite Hin, set_add_In. split.
      * intros [[-> | H] | (r & Hr & E)]; auto.
        -- right. exists rep. split; [now left | reflexivity].
        -- right. exists r. split; [now right | exact E].
      * intros [H | (r & [<- | Hr] & E)]; auto.
        right. exists r. auto.
Qed.

(** Property X10.  The [domains] of the summary are pairwise distinct,
    they are exactly the domains of the reports, and there are at most as
    many as reports.  (The order, that of a Python set, is left open.) *)
Theorem domains_distinct (reports : list report) (res : analytics float) :
  _generate_analytics reports = inr res ->
  NoDup (summary_domains res) /\
  (forall d, In d (summary_domains res) <->
             exists rep, In rep reports /\ domain rep = d) /\
  (List.length (summary_domains res) <= summary_total_reports res)%nat.
Proof.
  intros Hrun. apply generate_analytics_inr in Hrun as (a & Hacc & Hfin).
  apply finish_copies in Hfin as (_ & _ & -> & -> & _).
  destruct (accumulate_domains reports acc_init a Hacc) as (Hnd & Hin).
  specialize (Hnd (NoDup_nil _)).
  assert (Hmem : forall d, In d (domains a) <->
                           exists rep, In rep reports /\ domain rep = d).
  { intros d. rewrite Hin. simpl. intuition. }
  refine (conj Hnd (conj Hmem _)).
  rewrite <- (length_map domain reports).
  apply NoDup_incl_length; [exact Hnd |].
  intros d Hd. apply Hmem in Hd as (rep & Hr & <-). now apply in_map.
Qed.

End DomainFacts.

(** ** The unwrapper *)

(** ** Worlds that grow *)

Lemma grows_refl (w : world) : grows w w.
Proof. split; [auto | exists []; now rewrite app_nil_r]. Qed.

Lemma grows_trans (w1 w2 w3 : world) : grows w1 w2 -> grows w2 w3 -> grows w1 w3.
Proof.
  intros (F1 & m1 & L1) (F2 & m2 & L2). split; [auto |].
  exists (m1 ++ m2)%list. now rewrite L2, L1, app_assoc.
Qed.

Lemma grows_log (lvl : log_level) (msg : string) (w : world) :
  grows w (snd (log lvl msg w)).
Proof. split; [auto | now exists [(lvl, msg)]]. Qed.

Lemma grows_files (w : world) (fs : list (string * content)) :
  (forall q, In q (map fst (files w)) -> In q (map fst fs)) ->
  grows w (mkWorld fs (logged w)).
Proof. intros H. split; [exact H | exists []; simpl; now rewrite app_nil_r]. Qed.

Lemma grows_extractall (ms : list (string * content)) (dir : string) (w : world) :
  grows w (snd (extractall ms dir w)).
Proof.
  rewrite extractall_run. apply grows_files. intros q. apply extract_into_keeps.
Qed.

Lemma grows_unzip (p dir : string) (w : world) : grows w (snd (unzip p dir w)).
Proof.
  unfold unzip, bindM, read_file, no_such_file, raiseM.
  destruct (lookup_file p (files w)) as [[| ms | | |] |]; simpl;
    try apply grows_refl. apply grows_extractall.
Qed.

Lemma grows_untar (p dir : string) (w : world) : grows w (snd (untar p dir w)).
Proof.
  unfold untar, bindM, read_file, no_such_file, raiseM.
  destruct (lookup_file p (files w)) as [[| | ms | [| | ms | |] |] |]; simpl;
    try apply grows_refl; apply grows_extractall.
Qed.

Lemma grows_gunzip (p out : string) (w : world) : grows w (snd (gunzip p out w)).
Proof.
  unfold gunzip, bindM, read_file, no_such_file, raiseM, put_file.
  destruct (lookup_file p (files w)) as [c |]; simpl; [| apply grows_refl].
  destruct (String.eqb out ""); [apply grows_refl |].
  destruct (String.eqb (basename out) ""); [apply grows_refl |].
  destruct c; simpl; apply grows_files; intros q; apply write_file_keeps.
Qed.

Lemma write_file_has (p : string) (c : content) (fs : list (string * content)) :
  In p (map fst (write_file p c fs)).
Proof.
  induction fs as [| [q c'] fs IH]; simpl; [now left |].
  destruct (String.eqb p q) eqn:E; simpl; [| now right].
  apply String.eqb_eq in E. now left.
Qed.

Lemma gunzip_writes (p out : string) (w w' : world) (u : unit) :
  gunzip p out w = (inr u, w') -> In out (map fst (files w')).
Proof.
  unfold gunzip, bindM, read_file, no_such_file, raiseM, put_file.
  destruct (lookup_file p (files w)) as [c |]; [| discriminate].
  destruct (String.eqb out ""); [discriminate |].
  destruct (String.eqb (basename out) ""); [discriminate |].
  destruct c; try discriminate.
  intros E. injection E as _ <-. apply write_file_has.
Qed.

(** ** Paths and their last component *)

Lemma basename_suffix (p : string) : exists d, p = d ++ basename p.
Proof.
  induction p as [| c p (d & IH)]; [now exists "" |].
  cbn [basename]. destruct (has_slash (String c p)).
  - exists (String c d). simpl. now rewrite <- IH.
  - now exists "".
Qed.

Lemma endswith_basename (p t : string) :
  endswith (basename p) t = true -> endswith p t = true.
Proof.
  intros H. destruct (basename_suffix p) as (d & E).
  rewrite E at 1. rewrite endswith_app; [exact H | now apply endswith_length].
Qed.

Lemma xml_below_paths (dir x : string) (fs : list (string * content)) :
  In x (xml_below dir fs) -> endswith x ".xml" = true /\ In x (map fst fs).
Proof.
  unfold xml_below. intros H. apply filter_In in H as (Hin & Hp).
  apply andb_true_iff in Hp as (_ & Hx). split; [| exact Hin].
  now apply endswith_basename.
Qed.

(** ** What the unwrapper returns *)

Lemma returns_nothing (p : string) (w0 w : world) :
  grows w0 w -> returns_xml p w0 (inr [], w).
Proof. intros G. exists [], w. split; [reflexivity |]. split; [exact G | intros x []]. Qed.

(** The [except] branch. *)
Lemma handler_returns (p msg : string) (w0 w : world) :
  grows w0 w ->
  returns_xml p w0 ((log ERROR msg ;;; retM []) w).
Proof.
  intros G. apply returns_nothing.
  eapply grows_trans; [exact G | apply grows_log].
Qed.

(** The [.zip] and the [.tar] branch: extract, then list the directory. *)
Lemma archive_branch_returns (p dir msg : string) (unpack : M unit)
  (handler : exn -> M (list string)) (w : world) :
  (forall w1, grows w1 (snd (unpack w1))) ->
  (forall e w1, grows w w1 -> returns_xml p w (handler e w1)) ->
  returns_xml p w
    (try_except (log INFO msg ;;; unpack ;;; _find_xml_files dir) handler w).
Proof.
  intros Hunpack Hhandler. unfold try_except, bindM, _find_xml_files.
  pose proof (grows_log INFO msg w) as G1.
  destruct (log INFO msg w) as [[e0 | []] w1] eqn:L1; [discriminate L1 |].
  cbn [snd] in G1. pose proof (Hunpack w1) as G2.
  destruct (unpack w1) as [[e | []] w2]; cbn [snd] in G2.
  - apply Hhandler. eapply grows_trans; eassumption.
  - eexists _, w2. split; [reflexivity |]. split; [eapply grows_trans; eassumption |].
    intros x Hx. apply xml_below_paths in Hx as (Hx1 & Hx2). auto.
Qed.

(** The [.gz] branch, whatever is done with an output that is no XML file. *)
Lemma gz_branch_returns (p out msg : string) (rest : M (list string))
  (handler : exn -> M (list string)) (w : world) :
  (forall w1, returns_xml out w1 (rest w1)) ->
  (forall e w1, grows w w1 -> returns_xml p w (handler e w1)) ->
  returns_xml p w
    (try_except
       (log INFO msg ;;; gunzip p out ;;;
        if endswith out ".xml" then retM [out] else rest)
       handler w).
Proof.
  intros Hrest Hhandler. unfold try_except, bindM.
  pose proof (grows_log INFO msg w) as G1.
  destruct (log INFO msg w) as [[e0 | []] w1] eqn:L1; [discriminate L1 |].
  cbn [snd] in G1. pose proof (grows_gunzip p out w1) as G2.
  destruct (gunzip p out w1) as [[e | []] w2] eqn:Hgz; cbn [snd] in G2.
  - apply Hhandler. eapply grows_trans; eassumption.
  - apply gunzip_writes in Hgz.
    assert (G : grows w w2) by (eapply grows_trans; eassumption).
    destruct (endswith out ".xml") eqn:Exml.
    + exists [out], w2. split; [reflexivity |]. split; [exact G |].
      intros x [<- | []]. auto.
    + destruct (Hrest w2) as (xs & w3 & -> & G3 & Hxs).
      exists xs, w3. split; [reflexivity |].
      split; [eapply grows_trans; eassumption |].
      intros x Hx. destruct (Hxs x Hx) as (Hx1 & [-> | Hx2]); split; auto.
      right. now apply (proj1 G3).
Qed.

Lemma extract_files_at_returns (depth : nat) :
  forall (p dir : string) (w : world),
    returns_xml p w (extract_files_at depth p dir w).
Proof.
  induction depth as [| depth IH]; intros p dir w; cbn [extract_files_at];
    set (name := basename p);
    (assert (Hh : forall e w1, grows w w1 ->
               returns_xml p w
                 ((log ERROR ("Error extracting " ++ name ++ ": " ++ exn_str e) ;;;
                   retM []) w1))
       by (intros e w1 G; now apply handler_returns));
    (destruct (endswith name ".zip");
     [apply archive_branch_returns; [apply grows_unzip | exact Hh] |]);
    (destruct (endswith name ".gz");
     [apply gz_branch_returns; [| exact Hh] |]);
    try (destruct (endswith name ".tar" || endswith name ".tar.gz");
         [apply archive_branch_returns; [apply grows_untar | exact Hh] |];
         destruct (endswith name ".xml") eqn:Exml;
         [ exists [p], w; split; [reflexivity |]; split; [apply grows_refl |];
           intros x [<- | []]; split; [now apply endswith_basename | now left]
         | apply returns_nothing, grows_log ]).
  - intros w1. apply returns_nothing, grows_refl.
  - intros w1. apply IH.
Qed.

(** Property X12.  From every world and for every path
    [_extract_files] returns a list, never an exception; each path of the
    list ends in [.xml] and is the path passed in or a file on disk after
    the call; no path that was on disk is lost and the log is only
    appended to. *)
Theorem extract_files_paths (p dir : string) (w : world) :
  exists xs w',
    _extract_files p dir w = (inr xs, w') /\ grows w w' /\
    forall x, In x xs ->
      endswith x ".xml" = true /\ (x = p \/ In x (map fst (files w'))).
Proof. apply extract_files_at_returns. Qed.

(** ** Plain XML paths *)

Lemma xml_suffix_only (name : string) :
  endswith name ".xml" = true ->
  endswith name ".zip" = false /\ endswith name ".gz" = false /\
  endswith name ".tar" = false /\ endswith name ".tar.gz" = false.
Proof.
  intros H. repeat split.
  - now rewrite (endswith_trans _ ".xml" ".zip" H) by (simpl; lia).
  - now rewrite (endswith_trans _ ".xml" ".gz" H) by (simpl; lia).
  - now rewrite (endswith_trans _ ".xml" ".tar" H) by (simpl; lia).
  - destruct (endswith name ".tar.gz") eqn:E; [| reflexivity].
    rewrite (endswith_trans _ ".tar.gz" ".xml" E) in H by (simpl; lia).
    discriminate.
Qed.

Lemma extract_files_xml (p dir : string) (w : world) :
  endswith (basename p) ".xml" = true -> _extract_files p dir w = (inr [p], w).
Proof.
  intros H. destruct (xml_suffix_only _ H) as (Hzip & Hgz & Htar & Htgz).
  unfold _extract_files.
  destruct (String.length (basename p)); cbn [extract_files_at];
    rewrite Hzip, Hgz, Htar, Htgz, H; reflexivity.
Qed.

Section UnwrapLoop.
Context {float : Type} {FO : FloatOps float} {EV : Env}.

Lemma xml_batch_loop (dir : string) (ps : list string) :
  Forall (fun p => endswith (basename p) ".xml" = true) ps ->
  forall acc w,
    for_eachM (extract_one dir) ps acc w = (inr (acc ++ ps)%list, w).
Proof.
  induction 1 as [| p ps Hp _ IH]; intros acc w; cbn [for_eachM].
  - unfold retM. now rewrite app_nil_r.
  - unfold bindM at 1. unfold extract_one at 1. unfold bindM at 1.
    rewrite (extract_files_xml p dir w Hp). unfold retM at 1.
    rewrite IH. now rewrite <- app_assoc.
Qed.

(** Property X13.  When every path of a batch has a name that ends in
    [.xml], the extraction loop returns the batch as it is, in order,
    without reading or writing a file or a log line, whether or not the
    files exist. *)
Theorem xml_batch_passthrough (dir : string) (ps : list string) (w : world) :
  Forall (fun p => endswith (basename p) ".xml" = true) ps ->
  for_eachM (extract_one dir) ps [] w = (inr ps, w).
Proof. intros H. exact (xml_batch_loop dir ps H [] w). Qed.

End UnwrapLoop.

(** ** Gzip files *)

Lemma drop_last_no_slash (n : nat) (s : string) :
  has_slash s = false -> has_slash (drop_last n s) = false.
Proof. intros H. unfold drop_last. now apply has_slash_substring. Qed.

(** The output path of the [.gz] branch for a name [stem ++ ".gz"]. *)
Lemma gz_output_path (p stem : string) :
  basename p = stem ++ ".gz" ->
  drop_last 3 (basename p) = stem /\ has_slash stem = false /\
  endswith (basename p) ".gz" = true /\ endswith (basename p) ".zip" = false.
Proof.
  intros E. rewrite E.
  assert (Hgz : endswith (stem ++ ".gz") ".gz" = true).
  { rewrite endswith_app by (simpl; lia). reflexivity. }
  refine (conj _ (conj _ (conj Hgz _))).
  - exact (drop_last_app stem ".gz").
  - pose proof (has_slash_basename p) as H. rewrite E, has_slash_app in H.
    now apply orb_false_iff in H as (H & _).
  - destruct (endswith (stem ++ ".gz") ".zip") eqn:Ez; [| reflexivity].
    pose proof (endswith_trans _ ".zip" "zip" Ez) as H1.
    pose proof (endswith_trans _ ".gz" "zip" Hgz) as H2.
    rewrite H1 in H2 by (simpl; lia). discriminate H2. simpl; lia.
Qed.

(** Property X14.  For a gzip file named [stem.xml.gz],
    [_extract_files] writes the decompressed content to [stem.xml] in the
    extraction directory and returns that path alone, with one INFO line
    logged; the file at the returned path holds the content. *)
Theorem gz_xml_round_trip (p dir stem : string) (inner : content) (w : world) :
  basename p = stem ++ ".xml.gz" ->
  lookup_file p (files w) = Some (Gzip inner) ->
  let out := path_join dir (stem ++ ".xml") in
  let fs' := write_file out inner (files w) in
  _extract_files p dir w
  = (inr [out],
     mkWorld fs' (logged w ++ [(INFO, "Extracting GZ: " ++ basename p)])) /\
  lookup_file out fs' = Some inner /\ basename out = stem ++ ".xml".
Proof.
  intros E Hfile out fs'.
  assert (E' : basename p = (stem ++ ".xml") ++ ".gz") by now rewrite str_app_assoc.
  destruct (gz_output_path p _ E') as (Hdrop & Hslash & Hgz & Hzip).
  assert (Hne : stem ++ ".xml" <> "") by (destruct stem; discriminate).
  assert (Hbase : basename out = stem ++ ".xml")
    by now apply basename_path_join.
  assert (Hxml : endswith out ".xml" = true).
  { unfold out. rewrite endswith_path_join; [| exact Hslash |].
    - rewrite endswith_app by (simpl; lia). reflexivity.
    - rewrite strlen_app. simpl. lia. }
  refine (conj _ (conj (lookup_write_same _ _ _) Hbase)).
  assert (Hout : String.eqb out "" = false).
  { apply String.eqb_neq. intros C. rewrite C in Hbase. simpl in Hbase.
    now apply Hne. }
  assert (Hb : String.eqb (basename out) "" = false).
  { rewrite Hbase. now apply String.eqb_neq. }
  unfold _extract_files.
  destruct (String.length (basename p)); cbn [extract_files_at];
    rewrite Hzip, Hgz, Hdrop; fold out;
    unfold try_except, bindM, log, gunzip, bindM, read_file, put_file;
    cbn [files logged]; rewrite Hfile, Hout, Hb, Hxml; reflexivity.
Qed.

(** Property X15.  For a file named [stem.gz] that exists but is not
    gzip data, [_extract_files] returns the empty list and logs the error,
    and the output file [stem] has been created in the extraction
    directory all the same: it is opened for writing before the first
    read fails. *)
Theorem bad_gzip_leaves_output (p dir stem : string) (c : content) (w : world) :
  basename p = stem ++ ".gz" -> stem <> "" ->
  lookup_file p (files w) = Some c ->
  (forall inner, c <> Gzip inner) ->
  let out := path_join dir stem in
  exists e,
    exn_class e = BadGzipFile /\
    _extract_files p dir w
    = (inr [],
       mkWorld (write_file out Other (files w))
         (logged w ++ [(INFO, "Extracting GZ: " ++ basename p);
                       (ERROR, "Error extracting " ++ basename p ++ ": "
                               ++ exn_str e)])).
Proof.
  intros E Hne Hfile Hc out.
  destruct (gz_output_path p _ E) as (Hdrop & Hslash & Hgz & Hzip).
  assert (Hbase : basename out = stem) by now apply basename_path_join.
  assert (Hout : String.eqb out "" = false).
  { apply String.eqb_neq. intros C. rewrite C in Hbase. simpl in Hbase.
    now apply Hne. }
  assert (Hb : String.eqb (basename out) "" = false).
  { rewrite Hbase. now apply String.eqb_neq. }
  exists (Exn BadGzipFile "Not a gzipped file"). split; [reflexivity |].
  unfold _extract_files.
  destruct (String.length (basename p)); cbn [extract_files_at];
    rewrite Hzip, Hgz, Hdrop; fold out;
    unfold try_except, bindM, log, gunzip, bindM, read_file, put_file, raiseM, retM;
    cbn [files logged]; rewrite Hfile, Hout, Hb;
    (destruct c as [| | | inner |]; [| | | destruct (Hc inner eq_refl) |]);
    cbn [files logged]; rewrite <- app_assoc; reflexivity.
Qed.

(** ** Archives that cannot be read *)

(** Property X16.  For a [.zip] or [.tar] path that is missing or that
    the archive library cannot open, [_extract_files] returns the empty
    list, leaves the disk as it was and logs the INFO line of the branch
    followed by one ERROR line; the exception is FileNotFoundError when
    the path is missing, BadZipFile or ReadError otherwise. *)
Theorem unreadable_archive (p dir : string) (w : world) :
  (endswith (basename p) ".zip" = true /\ not_zip (lookup_file p (files w))) \/
  (endswith (basename p) ".tar" = true /\ not_tar (lookup_file p (files w))) ->
  let kind := if endswith (basename p) ".zip" then "ZIP" else "TAR" in
  exists e,
    _extract_files p dir w
    = (inr [],
       mkWorld (files w)
         (logged w ++ [(INFO, "Extracting " ++ kind ++ ": " ++ basename p);
                       (ERROR, "Error extracting " ++ basename p ++ ": "
                               ++ exn_str e)])) /\
    exn_class e = match lookup_file p (files w) with
                  | None => FileNotFoundError
                  | Some _ =>
                      if endswith (basename p) ".zip" then BadZipFile else ReadError
                  end.
Proof.
  intros [(Hzip & Hno) | (Htar & Hno)] kind; subst kind.
  - rewrite Hzip. unfold _extract_files.
    destruct (lookup_file p (files w)) as [c |] eqn:Hfile.
    + exists (Exn BadZipFile "File is not a zip file"). split; [| reflexivity].
      destruct (String.length (basename p)); cbn [extract_files_at];
        rewrite Hzip; unfold try_except, bindM, log, unzip, bindM, read_file,
          raiseM, retM; cbn [files logged]; rewrite Hfile;
        (destruct c as [| ms | | |]; [| destruct (Hno ms eq_refl) | | |]);
        cbn [files logged]; rewrite <- app_assoc; reflexivity.
    + exists (Exn FileNotFoundError
                ("[Errno 2] No such file or directory: '" ++ p ++ "'")).
      split; [| reflexivity].
      destruct (String.length (basename p)); cbn [extract_files_at];
        rewrite Hzip; unfold try_except, bindM, log, unzip, bindM, read_file,
          no_such_file, raiseM, retM; cbn [files logged]; rewrite Hfile;
        cbn [files logged]; rewrite <- app_assoc; reflexivity.
  - assert (Hzip : endswith (basename p) ".zip" = false)
      by now rewrite (endswith_trans _ ".tar" ".zip" Htar) by (simpl; lia).
    assert (Hgz : endswith (basename p) ".gz" = false)
      by now rewrite (endswith_trans _ ".tar" ".gz" Htar) by (simpl; lia).
    rewrite Hzip. unfold _extract_files.
    destruct (lookup_file p (files w)) as [c |] eqn:Hfile.
    + exists (Exn ReadError "file could not be opened successfully").
      split; [| reflexivity].
      destruct (String.length (basename p)); cbn [extract_files_at];
        rewrite Hzip, Hgz, Htar; unfold try_except, bindM, log, untar, bindM,
          read_file, raiseM, retM; cbn [files logged orb]; rewrite Hfile;
        (destruct c as [| | ms | [| | ms | |] |];
         try (destruct (Hno ms) as (C1 & C2); congruence));
        cbn [files logged]; rewrite <- app_assoc; reflexivity.
    + exists (Exn FileNotFoundError
                ("[Errno 2] No such file or directory: '" ++ p ++ "'")).
      split; [| reflexivity].
      destruct (String.length (basename p)); cbn [extract_files_at];
        rewrite Hzip, Hgz, Htar; unfold try_except, bindM, log, untar, bindM,
          read_file, no_such_file, raiseM, retM; cbn [files logged orb];
        rewrite Hfile; cbn [files logged]; rewrite <- app_assoc; reflexivity.
Qed.

(** ** The parse loop and the pipeline *)

Section LoopFacts.
Context {float : Type} {FO : FloatOps float} {EV : Env}.

Lemma parse_one_outcome (st : list report * list string) (x : string) (w : world) :
  exists lg,
    parse_one st x w
    = (inr ((fst st ++ reports_of (files w) [x])%list,
            (snd st ++ errors_of (files w) [x])%list),
       mkWorld (files w) lg).
Proof.
  destruct st as [reports errs]. cbn [fst snd].
  destruct (parse_dmarc_xml_files x w) as (Hres & Hfiles).
  unfold reports_of, errors_of; cbn [flat_map]. rewrite <- Hres.
  unfold parse_one, try_except, bindM.
  destruct (_parse_dmarc_xml x w) as [[e | [r |]] [fs lg]]; cbn [fst snd files] in *;
    subst fs; unfold log, retM, error_message; cbn [files logged app];
    rewrite ?app_nil_r; eexists; reflexivity.
Qed.

Lemma parse_loop_outcome (xs : list string) :
  forall (st : list report * list string) (w : world),
  exists lg,
    for_eachM parse_one xs st w
    = (inr ((fst st ++ reports_of (files w) xs)%list,
            (snd st ++ errors_of (files w) xs)%list),
       mkWorld (files w) lg).
Proof.
  induction xs as [| x xs IH]; intros st w.
  - destruct st as [reports errs], w as [fs lg]. exists lg.
    unfold reports_of, errors_of; cbn. now rewrite !app_nil_r.
  - cbn [for_eachM]. unfold bindM.
    destruct (parse_one_outcome st x w) as (lg1 & ->).
    destruct (IH ((fst st ++ reports_of (files w) [x])%list,
                  (snd st ++ errors_of (files w) [x])%list)
                (mkWorld (files w) lg1)) as (lg2 & ->).
    exists lg2. cbn [fst snd files]. unfold reports_of, errors_of.
    cbn [flat_map]. now rewrite !app_nil_r, <- !app_assoc.
Qed.

Lemma outcome_count (fs : list (string * content)) (xs : list string) :
  (List.length (reports_of fs xs) + List.length (errors_of fs xs)
   + List.length (skipped_of fs xs) = List.length xs)%nat.
Proof.
  unfold reports_of, errors_of, skipped_of.
  induction xs as [| x xs IH]; cbn [flat_map filter List.length]; [reflexivity |].
  rewrite !length_app.
  destruct (parsed fs x) as [e | [r |]]; cbn [List.length]; lia.
Qed.

(** Property X17.  The parse loop of [process_files] never raises and
    leaves the disk as it was; it keeps one report per file that parsed
    and one message per file whose parse raised, both in the order of the
    files, and every file is a report, a parse error or a file skipped
    for want of metadata. *)
Theorem parse_loop_accounting (xs : list string) (w : world) :
  exists lg,
    for_eachM parse_one xs ([], []) w
    = (inr (reports_of (files w) xs, errors_of (files w) xs),
       mkWorld (files w) lg) /\
    (List.length (reports_of (files w) xs) + List.length (errors_of (files w) xs)
     + List.length (skipped_of (files w) xs) = List.length xs)%nat.
Proof.
  destruct (parse_loop_outcome xs ([], []) w) as (lg & H).
  exists lg. split; [exact H | apply outcome_count].
Qed.

(** ** The whole pipeline *)

Lemma extract_loop_grows (dir : string) (ps : list string) :
  forall acc w, exists xs w',
    for_eachM (extract_one dir) ps acc w = (inr xs, w') /\ grows w w'.
Proof.
  induction ps as [| p ps IH]; intros acc w; cbn [for_eachM].
  - exists acc, w. split; [reflexivity | apply grows_refl].
  - unfold bindM at 1. unfold extract_one at 1. unfold bindM at 1.
    destruct (extract_files_at_returns (String.length (basename p)) p dir w)
      as (xs1 & w1 & E1 & G1 & _).
    fold (_extract_files p dir) in E1. rewrite E1.
    unfold retM at 1.
    destruct (IH (acc ++ xs1)%list w1) as (xs & w' & -> & G2).
    exists xs, w'. split; [reflexivity |]. eapply grows_trans; eassumption.
Qed.

Lemma process_files_analytics (ps : list string) (dir : string) (w w' : world)
  (a : analytics float) (n : Z) (errs : list string) :
  process_files ps dir w = (inr (AnalyticsResponse a n errs), w') ->
  exists xs w1,
    for_eachM (extract_one dir) ps [] w = (inr xs, w1) /\ grows w w1 /\
    files w' = files w1 /\
    _generate_analytics (reports_of (files w1) xs) = inr a /\
    n = Z.of_nat (List.length (reports_of (files w1) xs)) /\
    reports_of (files w1) xs <> [] /\
    errs = errors_of (files w1) xs.
Proof.
  destruct (extract_loop_grows dir ps [] w) as (xs & w1 & Hx & G).
  unfold process_files, try_except, process_files_body, bindM.
  rewrite Hx.
  destruct (log INFO ("Found " ++ len_str xs ++ " XML file(s) to process") w1)
    as [[e | []] w1'] eqn:Hlog; [discriminate |].
  assert (Hf : files w1' = files w1) by (unfold log in Hlog; injection Hlog as <-; reflexivity).
  destruct xs as [| x xs]; [discriminate |].
  destruct (parse_loop_outcome (x :: xs) ([], []) w1') as (lg & ->).
  cbn [fst snd app]. rewrite Hf.
  destruct (reports_of (files w1) (x :: xs)) as [| r rs] eqn:Hreps; [discriminate |].
  unfold lift.
  destruct (_generate_analytics (r :: rs)) as [e | a0] eqn:Hga; [discriminate |].
  unfold retM. intros E. injection E as <- <- <- <-.
  exists (x :: xs), w1. rewrite Hreps.
  refine (conj eq_refl (conj G (conj eq_refl (conj Hga (conj eq_refl
            (conj _ eq_refl)))))).
  discriminate.
Qed.

(** Property X18.  In a success dictionary [files_processed] is the
    [total_reports] of the summary and at least 1; together with the
    number of parse errors and of skipped files it is the number of XML
    paths the extraction found; [total_messages] is the sum of the counts
    of the parsed reports; and no path that was on disk before the call
    is missing after it. *)
Theorem response_accounting (ps : list string) (dir : string) (w w' : world)
  (a : analytics float) (n : Z) (errs : list string) :
  process_files ps dir w = (inr (AnalyticsResponse a n errs), w') ->
  exists xs w1,
    for_eachM (extract_one dir) ps [] w = (inr xs, w1) /\
    n = Z.of_nat (summary_total_reports a) /\ 1 <= n /\
    n + Z.of_nat (List.length errs)
      + Z.of_nat (List.length (skipped_of (files w1) xs))
    = Z.of_nat (List.length xs) /\
    errs = errors_of (files w1) xs /\
    summary_total_messages a = sum_counts (all_records (reports_of (files w1) xs)) /\
    files w' = files w1 /\
    (forall q, In q (map fst (files w)) -> In q (map fst (files w'))).
Proof.
  intros Hrun.
  apply process_files_analytics in Hrun
    as (xs & w1 & Hx & (Hkeep & _) & Hf & Hga & -> & Hne & ->).
  exists xs, w1. split; [exact Hx |].
  pose proof (generate_analytics_total _ _ Hga) as Htot.
  pose proof (outcome_count (files w1) xs) as Hcount.
  apply generate_analytics_inr in Hga as (s & _ & Hfin).
  apply finish_copies in Hfin as (_ & _ & -> & _).
  repeat split; auto.
  - destruct (reports_of (files w1) xs); [contradiction | simpl; lia].
  - lia.
  - rewrite Hf. exact Hkeep.
Qed.

End LoopFacts.

(** ** Records of a parsed report *)

Section RecordFacts.
Context {EV : Env}.

Lemma record_elements_plain (root : Element) (recs : list Element) :
  ns_for root = [] -> record_elements root = inr recs ->
  recs = findall1 root (Plain "record") /\ recs <> [].
Proof.
  unfold record_elements, por. intros ->. cbn [bind ret].
  destruct (findall1 root (Plain "record")) as [| el els]; cbn.
  - discriminate.
  - intros E. injection E as <-. split; [reflexivity | discriminate].
Qed.

(** Property X11.  A parsed report has one record per [record] element
    of the document, in document order; in a document without namespace
    these are the children tagged [record], and there is at least one: a
    report without namespace and without records does not parse. *)
Theorem records_follow_elements (root metadata : Element) (rep : report) :
  parse_with_metadata root metadata = inr rep ->
  exists recs,
    record_elements root = inr recs /\
    Forall2 (fun el r => parse_record (ns_for root) el = inr r) recs (records rep) /\
    List.length (records rep) = List.length recs /\
    (ns_for root = [] -> recs = findall1 root (Plain "record") /\ records rep <> []).
Proof.
  unfold parse_with_metadata. cbv zeta. intros Hrun.
  apply bind_inr in Hrun as (org & _ & Hrun).
  apply bind_inr in Hrun as (rid & _ & Hrun).
  apply bind_inr in Hrun as (dr & _ & Hrun).
  apply bind_inr in Hrun as (b & _ & Hrun).
  apply bind_inr in Hrun as (e & _ & Hrun).
  apply bind_inr in Hrun as (pol & _ & Hrun).
  apply bind_inr in Hrun as (dom & _ & Hrun).
  apply bind_inr in Hrun as (pp & _ & Hrun).
  apply bind_inr in Hrun as (recs & Hrecs & Hrun).
  apply bind_inr in Hrun as (rs & Hrs & Hrun).
  injection Hrun as <-. cbn [records].
  exists recs. apply map_result_inr in Hrs.
  pose proof (Forall2_length Hrs) as Hlen.
  refine (conj Hrecs (conj Hrs (conj (eq_sym Hlen) _))).
  intros Hplain. destruct (record_elements_plain root recs Hplain Hrecs) as (E & Hne).
  split; [exact E |]. intros ->. destruct recs; [now apply Hne | discriminate].
Qed.

End RecordFacts.

(** ** The upload filter and the unwrapper *)

Lemma lower_ascii_dot (c : ascii) :
  Ascii.eqb (lower_ascii c) dot = Ascii.eqb c dot.
Proof.
  destruct c as [[] [] [] [] [] [] [] []]; reflexivity.
Qed.

Lemma has_dot_lower (s : string) : has_dot (lower s) = has_dot s.
Proof.
  induction s as [| c s IH]; [reflexivity |].
  cbn [lower has_dot]. now rewrite lower_ascii_dot, IH.
Qed.

Lemma after_last_dot_lower (s : string) :
  after_last_dot (lower s) = lower (after_last_dot s).
Proof.
  induction s as [| c s IH]; [reflexivity |].
  cbn [lower after_last_dot].
  change (String (lower_ascii c) (lower s)) with (lower (String c s)).
  rewrite has_dot_lower. destruct (has_dot (String c s)); [exact IH | reflexivity].
Qed.

Lemma lower_app (s t : string) : lower (s ++ t) = lower s ++ lower t.
Proof. induction s as [| c s IH]; simpl; [reflexivity | now rewrite IH]. Qed.

Lemma has_dot_app (s t : string) : has_dot (s ++ t) = has_dot s || has_dot t.
Proof.
  induction s as [| c s IH]; simpl; [reflexivity |].
  rewrite IH. now rewrite orb_assoc.
Qed.

Lemma after_last_dot_no_dot (s : string) : has_dot s = false -> after_last_dot s = s.
Proof. destruct s as [| c s]; simpl; [reflexivity |]. now intros ->. Qed.

Lemma after_last_dot_app (d t : string) :
  has_dot t = false -> after_last_dot (d ++ "." ++ t) = t.
Proof.
  intros Ht. induction d as [| c d IH].
  - cbn [append after_last_dot has_dot]. unfold dot. rewrite Ascii.eqb_refl.
    cbn [orb]. now apply after_last_dot_no_dot.
  - cbn [append after_last_dot].
    assert (Hs : has_dot (String c (d ++ String "." t)) = true).
    { cbn [has_dot]. rewrite has_dot_app. cbn [has_dot]. unfold dot.
      rewrite Ascii.eqb_refl. cbn [orb]. now rewrite !orb_true_r. }
    rewrite Hs. exact IH.
Qed.

Lemma after_last_dot_split (s : string) :
  has_dot s = true -> exists d, s = d ++ "." ++ after_last_dot s.
Proof.
  induction s as [| c s IH]; [discriminate |].
  intros H. cbn [after_last_dot]. rewrite H.
  destruct (has_dot s) eqn:Hs.
  - destruct (IH eq_refl) as (d & E). exists (String c d).
    change (String c s = String c (d ++ "." ++ after_last_dot s)). now f_equal.
  - cbn [has_dot] in H. rewrite Hs, orb_false_r in H.
    apply Ascii.eqb_eq in H. subst c. exists "".
    now rewrite (after_last_dot_no_dot s Hs).
Qed.

(** A name ends in [.ext] exactly when it has a dot and [ext] follows the
    last one. *)
Lemma endswith_extension (s ext : string) :
  has_dot ext = false ->
  endswith s ("." ++ ext) = has_dot s && String.eqb (after_last_dot s) ext.
Proof.
  intros Hext. destruct (endswith s ("." ++ ext)) eqn:E; symmetry.
  - apply endswith_decompose in E. rewrite E.
    rewrite has_dot_app, after_last_dot_app by exact Hext.
    rewrite String.eqb_refl. cbn [append has_dot]. unfold dot.
    rewrite Ascii.eqb_refl. cbn [orb]. now rewrite orb_true_r.
  - destruct (has_dot s) eqn:Hs; [| reflexivity]. cbn [andb].
    destruct (String.eqb (after_last_dot s) ext) eqn:Ea; [| reflexivity].
    apply String.eqb_eq in Ea. destruct (after_last_dot_split s Hs) as (d & Hd).
    rewrite Ea in Hd. rewrite Hd in E.
    rewrite endswith_app in E by lia.
    unfold endswith in E. rewrite Nat.leb_refl, Nat.sub_diag, substring_all in E.
    now rewrite String.eqb_refl in E.
Qed.

Lemma known_suffix_extension (s : string) :
  known_suffix s
  = has_dot s && existsb (String.eqb (after_last_dot s)) ALLOWED_EXTENSIONS.
Proof.
  unfold known_suffix, ALLOWED_EXTENSIONS. cbn [existsb].
  assert (Htgz : endswith s ".tar.gz" = true -> endswith s ".gz" = true).
  { intros H. now rewrite (endswith_trans _ ".tar.gz" ".gz" H) by (simpl; lia). }
  pose proof (endswith_extension s "zip" eq_refl) as Ez.
  pose proof (endswith_extension s "gz" eq_refl) as Eg'.
  pose proof (endswith_extension s "tar" eq_refl) as Et'.
  pose proof (endswith_extension s "xml" eq_refl) as Ex.
  cbn [append] in Ez, Eg', Et', Ex.
  rewrite Ez, Eg', Et', Ex. rewrite Eg' in Htgz. clear Ez Eg' Et' Ex.
  destruct (has_dot s); cbn [andb].
  - destruct (String.eqb (after_last_dot s) "zip"),
             (String.eqb (after_last_dot s) "gz") eqn:Eg,
             (String.eqb (after_last_dot s) "tar"),
             (String.eqb (after_last_dot s) "xml"),
             (endswith s ".tar.gz") eqn:Et; cbn; try reflexivity;
      specialize (Htgz eq_refl); discriminate.
  - destruct (endswith s ".tar.gz"); [specialize (Htgz eq_refl); discriminate |].
    reflexivity.
Qed.

Lemma endswith_lower (s t : string) :
  endswith s t = true -> endswith (lower s) (lower t) = true.
Proof.
  intros H. apply endswith_decompose in H. rewrite H at 1.
  rewrite lower_app, endswith_app by lia.
  unfold endswith. rewrite Nat.leb_refl, Nat.sub_diag, substring_all.
  now rewrite String.eqb_refl.
Qed.

Lemma endswith_lower_suffix (s t : string) :
  lower t = t -> endswith s t = true -> endswith (lower s) t = true.
Proof. intros Ht H. rewrite <- Ht. now apply endswith_lower. Qed.

(** Property X19.  [allowed_file] accepts a name exactly when its
    lower-cased form has a suffix [_extract_files] has a branch for; so
    every name the unwrapper handles is accepted, and a path whose name
    is refused yields the empty list and the unknown-file-type warning. *)
Theorem filter_matches_unwrapper (filename : string) :
  allowed_file filename = known_suffix (lower filename) /\
  (known_suffix filename = true -> allowed_file filename = true) /\
  (allowed_file filename = false ->
   forall p dir w, basename p = filename ->
     _extract_files p dir w
     = (inr [], mkWorld (files w)
                  (logged w ++ [(WARNING, "Unknown file type: " ++ filename)]))).
Proof.
  assert (H1 : allowed_file filename = known_suffix (lower filename)).
  { rewrite known_suffix_extension, has_dot_lower, after_last_dot_lower.
    reflexivity. }
  assert (H2 : known_suffix filename = true -> allowed_file filename = true).
  { rewrite H1. unfold known_suffix. intros H.
    repeat (apply orb_true_iff in H as [H | H]);
      apply (endswith_lower_suffix _ _ eq_refl) in H; rewrite H;
      rewrite ?orb_true_r; reflexivity. }
  refine (conj H1 (conj H2 _)).
  intros Hno p dir w Hbase.
  assert (Hk : known_suffix filename = false).
  { destruct (known_suffix filename); [now rewrite H2 in Hno | reflexivity]. }
  unfold known_suffix in Hk.
  apply orb_false_iff in Hk as (Hk & Hxml).
  apply orb_false_iff in Hk as (Hk & Htar).
  apply orb_false_iff in Hk as (Hzip & Hgz).
  unfold _extract_files. rewrite Hbase.
  destruct (String.length filename); cbn [extract_files_at];
    rewrite Hbase, Hzip, Hgz, Htar, Hxml; reflexivity.
Qed.

(** * The program on the sample inputs *)

Section Examples.
#[local] Existing Instance exact_floats.
#[local] Existing Instance utc_env.

(** The partition on the sample reports. *)
Lemma pass_fail_partition_witness :
  exists res : analytics Q,
    _generate_analytics (FO := exact_floats) (EV := utc_env) sample_reports = inr res /\
    exists a : acc,
      accumulate (EV := utc_env) sample_reports = inr a /\
      dkim_pass a + dkim_fail a = total_messages a /\
      spf_pass a + spf_fail a = total_messages a /\
      dmarc_pass a + dmarc_fail a = total_messages a /\
      total_messages a = sum_counts (all_records sample_reports) /\
      summary_total_messages res = total_messages a /\
      auth_dkim_pass res + auth_dkim_fail res = summary_total_messages res /\
      auth_spf_pass res + auth_spf_fail res = summary_total_messages res.
Proof.
  eexists. split.
  - vm_compute. reflexivity.
  - apply (pass_fail_partition (FO := exact_floats) (EV := utc_env) sample_reports).
    vm_compute. reflexivity.
Defined.

(** The worked example: 150 messages, 100 DKIM passes, 66.67% compliant. *)
Example sample_totals :
  exists res : analytics Q,
    _generate_analytics (FO := exact_floats) (EV := utc_env) sample_reports = inr res /\
    summary_total_messages res = 150 /\ auth_dkim_pass res = 100 /\
    auth_dmarc_compliance res = PFloat (6667 # 100)%Q /\
    map i_ip (top_sources res) = [Some "10.0.0.1"; Some "10.0.0.2"].
Proof.
  eexists. split; [vm_compute; reflexivity |]. repeat split.
Qed.

(** Three sources, two of them tied: the tied ones keep their order. *)
Lemma top_sources_order_witness :
  exists res : analytics Q,
    _generate_analytics (FO := exact_floats) (EV := utc_env) tied_reports = inr res /\
    map i_ip (top_sources res) = [Some "10.0.0.2"; Some "10.0.0.1"; Some "10.0.0.3"] /\
    List.length (top_sources res)
    = Nat.min 20 (List.length (distinct_ips tied_reports)) /\
    StronglySorted (fun x y => i_count y <= i_count x) (top_sources res) /\
    (forall x y, before x y (top_sources res) -> i_count x = i_count y ->
       before (i_ip x) (i_ip y) (distinct_ips tied_reports)) /\
    (forall x, In x (top_sources res) -> In (i_ip x) (distinct_ips tied_reports)).
Proof.
  eexists. split; [vm_compute; reflexivity |]. split; [reflexivity |].
  apply (top_sources_order (FO := exact_floats) (EV := utc_env) tied_reports).
  vm_compute. reflexivity.
Defined.

(** A passing record on empty counters. *)
Lemma dmarc_pass_rule_witness :
  exists a' : acc,
    process_record (EV := utc_env) sample_report acc_init passing_record = inr a' /\
    dmarc_pass a' = 100 /\ dmarc_fail a' = 0 /\
    exists date_str : string,
      strftime_local (Env := utc_env) (date_begin sample_report) = inr date_str /\
      let c := r_count passing_record in
      let ip_tally (x : acc) :=
        s_dmarc_pass
          (dd_get pystr_eqb ip_default (r_source_ip passing_record) (ip_data x)) in
      let day_tally (x : acc) :=
        d_dmarc_pass (dd_get String.eqb day_default date_str (daily_stats x)) in
      (r_dkim passing_record = Some "pass" /\ r_spf passing_record = Some "pass" ->
         dmarc_pass a' = dmarc_pass acc_init + c /\
         dmarc_fail a' = dmarc_fail acc_init /\
         ip_tally a' = ip_tally acc_init + c /\
         day_tally a' = day_tally acc_init + c) /\
      (~ (r_dkim passing_record = Some "pass" /\ r_spf passing_record = Some "pass") ->
         dmarc_pass a' = dmarc_pass acc_init /\
         dmarc_fail a' = dmarc_fail acc_init + c /\
         ip_tally a' = ip_tally acc_init /\ day_tally a' = day_tally acc_init).
Proof.
  eexists. split; [vm_compute; reflexivity |].
  split; [reflexivity |]. split; [reflexivity |].
  apply (dmarc_pass_rule (EV := utc_env) sample_report acc_init _ passing_record).
  vm_compute. reflexivity.
Defined.

(** The sample reports give a warning and one suspicious source. *)
Lemma threat_rules_witness :
  exists res : analytics Q,
    _generate_analytics (FO := exact_floats) (EV := utc_env) sample_reports = inr res /\
    map level (threats res) = ["warning"; "high"] /\
    let dc := auth_dmarc_compliance res in
    let rule1 := if num_ltb dc 80 then [low_compliance dc] else [] in
    let rule2 := map suspicious_ip (filter risky (firstn 10 (top_sources res))) in
    let rule3 := match (rule1 ++ rule2)%list with
                 | [] => [no_threats]
                 | _ :: _ => []
                 end in
    threats res = (rule1 ++ rule2 ++ rule3)%list /\
    level (low_compliance dc) = "warning" /\
    (forall i, level (suspicious_ip i) = "high") /\
    level no_threats = "success".
Proof.
  eexists. split; [vm_compute; reflexivity |]. split; [reflexivity |].
  apply (threat_rules (FO := exact_floats) (EV := utc_env) sample_reports).
  vm_compute. reflexivity.
Defined.

(** ** Evaluations *)

(** Claim C6, at a file the code handles otherwise.  A report without a
    namespace and without [report_metadata]: the first lookup finds
    nothing, the fallback lookup is made with an empty prefix map and
    raises SyntaxError, so [_parse_dmarc_xml] raises where the claim has
    it return no report with a warning; [process_files] records a parse
    error for the file. *)
Theorem missing_metadata_plain_raises :
  let w := one_file report_path (no_metadata_xml plain) in
  find1 (no_metadata_xml plain) (Plain "report_metadata") = None /\
  _parse_dmarc_xml (EV := utc_env) report_path w
  = (inl (Exn SyntaxError "prefix 'ns' not found in prefix map"),
     mkWorld (files w)
       [(ERROR, "Error parsing XML /tmp/session/report.xml: prefix 'ns' not found in prefix map")]) /\
  fst (process_files (FO := exact_floats) (EV := utc_env) [report_path] session w)
  = inr (ErrorResponse "No valid DMARC reports could be parsed"
           (Some ["Error parsing report.xml: prefix 'ns' not found in prefix map"]) 0).
Proof.
  cbv zeta. split; [reflexivity |]. split.
  - vm_compute. reflexivity.
  - vm_compute. reflexivity.
Qed.

(** The namespaced sibling of the same file does what the guard intends. *)
Example missing_metadata_namespaced_skipped :
  let w := one_file report_path (no_metadata_xml dmarc_tag) in
  _parse_dmarc_xml (EV := utc_env) report_path w
  = (inr None,
     mkWorld (files w) [(WARNING, "No metadata found in /tmp/session/report.xml")]).
Proof. vm_compute. reflexivity. Qed.

(** Claim C7 as stated fails.  The first record of this file has no
    [row], the second is complete and parses on its own, and parsing the
    file raises AttributeError: the second record is never reached. *)
Lemma rowless_record_aborts_file :
  let w := one_file report_path rowless_record_xml in
  record_elements rowless_record_xml
  = inr [node (dmarc_tag "record")
           [node (dmarc_tag "identifiers")
              [leaf (dmarc_tag "header_from") "example.com"]];
         sample_record dmarc_tag "10.0.0.2" "50" "fail" "pass"] /\
  parse_record (EV := utc_env) dmarc_ns (sample_record dmarc_tag "10.0.0.2" "50" "fail" "pass")
  = inr (mkRecord (Some "10.0.0.2") 50 (Some "none") (Some "fail") (Some "pass")
           (Some "example.com")) /\
  fst (_parse_dmarc_xml (EV := utc_env) report_path w)
  = inl (Exn AttributeError "'NoneType' object has no attribute 'find'").
Proof.
  cbv zeta. split; [reflexivity |]. split.
  - vm_compute. reflexivity.
  - vm_compute. reflexivity.
Qed.

(** Claim C9, at names the code handles otherwise.  The upload filter
    accepts [REPORT.XML], the unwrapper compares suffixes as they are
    written: the file falls through to the unknown-file-type branch and
    the batch ends with no XML file, where [report.xml] is returned as it
    is; the same happens to [.ZIP], [.Gz], [.TAR] and [.Xml]. *)
Theorem uppercase_suffix_unknown :
  let w := one_file "/tmp/session/REPORT.XML" sample_report_xml in
  allowed_file "REPORT.XML" = true /\
  _extract_files "/tmp/session/REPORT.XML" session w
  = (inr [], mkWorld (files w) [(WARNING, "Unknown file type: REPORT.XML")]) /\
  _extract_files report_path session (one_file report_path sample_report_xml)
  = (inr [report_path], one_file report_path sample_report_xml) /\
  fst (process_files (FO := exact_floats) (EV := utc_env) ["/tmp/session/REPORT.XML"] session w)
  = inr (ErrorResponse "No valid DMARC XML files found" None 0) /\
  map (fun name => fst (_extract_files (session ++ "/" ++ name) session
                          (mkWorld [(session ++ "/" ++ name, Other)] [])))
    ["A.ZIP"; "A.Gz"; "A.TAR"; "a.Xml"]
  = [inr []; inr []; inr []; inr []] /\
  map (fun name => map fst (logged (snd (_extract_files (session ++ "/" ++ name) session
                          (mkWorld [(session ++ "/" ++ name, Other)] [])))))
    ["A.ZIP"; "A.Gz"; "A.TAR"; "a.Xml"]
  = [[WARNING]; [WARNING]; [WARNING]; [WARNING]].
Proof.
  cbv zeta. split; [reflexivity |]. split; [vm_compute; reflexivity |].
  split; [vm_compute; reflexivity |]. split; [vm_compute; reflexivity |].
  split; vm_compute; reflexivity.
Qed.

(** Two archives with one report each: three reports are aggregated, the
    first archive's twice. *)
Lemma archive_rescan_witness :
  xml_below session after_a = ["/tmp/session/a.xml"] /\
  xml_below session after_b = ["/tmp/session/a.xml"; "/tmp/session/b.xml"] /\
  (exists a w',
     process_files ["/tmp/session/a.zip"; "/tmp/session/b.zip"] session two_archives
     = (inr (AnalyticsResponse a 3 []), w') /\
     summary_total_messages a = 450) /\
  let xs1 := xml_below session after_a in
  let xs2 := xml_below session after_b in
  exists lg1 lg2,
    _extract_files "/tmp/session/a.zip" session two_archives
    = (inr xs1, mkWorld after_a lg1) /\
    _find_xml_files session (mkWorld after_a lg1) = (inr xs1, mkWorld after_a lg1) /\
    _extract_files "/tmp/session/b.zip" session (mkWorld after_a lg1)
    = (inr xs2, mkWorld after_b lg2) /\
    _find_xml_files session (mkWorld after_b lg2) = (inr xs2, mkWorld after_b lg2) /\
    incl (xml_below session (files two_archives)) xs1 /\
    incl xs1 xs2 /\
    forall a n errs w',
      process_files ["/tmp/session/a.zip"; "/tmp/session/b.zip"] session two_archives
      = (inr (AnalyticsResponse a n errs), w') ->
      let R1 := reports_of after_b xs1 in
      let R2 := reports_of after_b xs2 in
      _generate_analytics (R1 ++ R2) = inr a /\
      n = Z.of_nat (List.length R1 + List.length R2) /\
      incl R1 R2 /\
      summary_total_messages a
      = sum_counts (all_records R1) + sum_counts (all_records R2).
Proof.
  split; [vm_compute; reflexivity |]. split; [vm_compute; reflexivity |].
  split.
  - eexists _, _. split; [vm_compute; reflexivity | reflexivity].
  - apply (archive_rescan session "/tmp/session/a.zip" "/tmp/session/b.zip"
             two_archives after_a after_b).
    + apply (unpacks_zip session _ _ archive_a); vm_compute; reflexivity.
    + apply (unpacks_zip session _ _ archive_b); vm_compute; reflexivity.
Defined.

(** ** The further properties on the sample inputs *)

(** Two sources over two days: 130 and 50 messages. *)
Lemma per_source_sums_witness :
  exists res : analytics Q,
    _generate_analytics (FO := exact_floats) (EV := utc_env) two_day_reports = inr res /\
    map i_count (top_sources res) = [130; 50] /\
    sum_of i_count (top_sources res) = summary_total_messages res /\
    sum_of i_dkim_pass (top_sources res) = auth_dkim_pass res /\
    sum_of i_spf_pass (top_sources res) = auth_spf_pass res.
Proof.
  eexists. split; [vm_compute; reflexivity |]. split; [reflexivity |].
  apply (per_source_sums (FO := exact_floats) (EV := utc_env) two_day_reports).
  - vm_compute. reflexivity.
  - vm_compute. lia.
Defined.

(** Two days: 150 and 30 messages. *)
Lemma per_day_sums_witness :
  exists res : analytics Q,
    _generate_analytics (FO := exact_floats) (EV := utc_env) two_day_reports = inr res /\
    map t_total (timeline res) = [150; 30] /\
    sum_of t_total (timeline res) = summary_total_messages res /\
    sum_of t_dkim_pass (timeline res) = auth_dkim_pass res /\
    sum_of t_spf_pass (timeline res) = auth_spf_pass res.
Proof.
  eexists. split; [vm_compute; reflexivity |]. split; [reflexivity |].
  apply (per_day_sums (FO := exact_floats) (EV := utc_env) two_day_reports).
  vm_compute. reflexivity.
Defined.

(** Two dispositions and two organisations. *)
Lemma disposition_and_org_sums_witness :
  exists res : analytics Q,
    _generate_analytics (FO := exact_floats) (EV := utc_env) two_day_reports = inr res /\
    out_dispositions res = [(Some "none", 150); (Some "reject", 30)] /\
    sum_of snd (out_dispositions res) = summary_total_messages res /\
    sum_of snd (source_organizations res) = Z.of_nat (List.length two_day_reports) /\
    summary_total_reports res = List.length two_day_reports.
Proof.
  eexists. split; [vm_compute; reflexivity |]. split; [reflexivity |].
  apply (disposition_and_org_sums (FO := exact_floats) (EV := utc_env) two_day_reports).
  vm_compute. reflexivity.
Defined.

(** The counts of the sample reports are positive. *)
Lemma passes_within_volume_witness :
  exists res : analytics Q,
    _generate_analytics (FO := exact_floats) (EV := utc_env) two_day_reports = inr res /\
    0 <= auth_dkim_pass res <= summary_total_messages res /\
    0 <= auth_spf_pass res <= summary_total_messages res /\
    0 <= auth_dkim_fail res /\ 0 <= auth_spf_fail res /\
    Forall (fun i => 0 <= i_dmarc_pass i /\ i_dmarc_pass i <= i_dkim_pass i /\
                     i_dmarc_pass i <= i_spf_pass i /\ i_dkim_pass i <= i_count i /\
                     i_spf_pass i <= i_count i) (top_sources res) /\
    Forall (fun t => 0 <= t_dmarc_pass t /\ t_dmarc_pass t <= t_dkim_pass t /\
                     t_dmarc_pass t <= t_spf_pass t /\ t_dkim_pass t <= t_total t /\
                     t_spf_pass t <= t_total t) (timeline res).
Proof.
  eexists. split; [vm_compute; reflexivity |].
  apply (passes_within_volume (FO := exact_floats) (EV := utc_env) two_day_reports).
  - vm_compute. reflexivity.
  - repeat constructor; simpl; lia.
Defined.

(** The range runs from the first report to the later one. *)
Lemma date_range_extremes_witness :
  exists res : analytics Q,
    _generate_analytics (FO := exact_floats) (EV := utc_env) two_day_reports = inr res /\
    summary_date_range_start res = Some "2021-12-20" /\
    summary_date_range_end res = Some "2021-12-22" /\
    rendered (first_begin (hd later_report sample_reports) [later_report])
      (summary_date_range_start res) /\
    rendered (last_end (hd later_report sample_reports) [later_report])
      (summary_date_range_end res).
Proof.
  eexists. split; [vm_compute; reflexivity |].
  split; [reflexivity |]. split; [reflexivity |].
  apply (date_range_extremes (FO := exact_floats) (EV := utc_env)
           (hd later_report sample_reports) [later_report]).
  vm_compute. reflexivity.
Defined.

(** One timeline entry per day. *)
Lemma timeline_days_witness :
  exists res : analytics Q,
    _generate_analytics (FO := exact_floats) (EV := utc_env) two_day_reports = inr res /\
    map t_date (timeline res) = ["2021-12-20"; "2021-12-21"] /\
    Sorted string_le (map t_date (timeline res)) /\
    NoDup (map t_date (timeline res)) /\
    (forall d, In d (map t_date (timeline res)) <->
               day_of_some_record two_day_reports d).
Proof.
  eexists. split; [vm_compute; reflexivity |]. split; [reflexivity |].
  apply (timeline_days (FO := exact_floats) (EV := utc_env) two_day_reports).
  vm_compute. reflexivity.
Defined.

(** The source of both reports has the larger volume. *)
Lemma top_sources_cut_witness :
  exists res : analytics Q,
    _generate_analytics (FO := exact_floats) (EV := utc_env) two_day_reports = inr res /\
    ip_volume two_day_reports (Some "10.0.0.1") = 130 /\
    NoDup (map i_ip (top_sources res)) /\
    (forall i, In i (top_sources res) ->
       i_count i = ip_volume two_day_reports (i_ip i)) /\
    (forall ip i, In ip (distinct_ips two_day_reports) ->
       ~ In ip (map i_ip (top_sources res)) -> In i (top_sources res) ->
       ip_volume two_day_reports ip <= i_count i).
Proof.
  eexists. split; [vm_compute; reflexivity |]. split; [reflexivity |].
  apply (top_sources_cut (FO := exact_floats) (EV := utc_env) two_day_reports).
  vm_compute. reflexivity.
Defined.

(** A report without records gives the warning alone. *)
Lemma no_messages_flagged_witness :
  exists res : analytics Q,
    _generate_analytics (FO := exact_floats) (EV := utc_env) [sample_report] = inr res /\
    summary_total_messages res <= 0 /\
    map level (threats res) = ["warning"] /\
    auth_dkim_pass_rate res = PInt 0 /\ auth_spf_pass_rate res = PInt 0 /\
    auth_dmarc_compliance res = PInt 0 /\
    hd_error (threats res) = Some (low_compliance (PInt 0)) /\
    ~ In no_threats (threats res) /\
    (all_records [sample_report] = [] ->
       top_sources res = [] /\ timeline res = [] /\
       threats res = [low_compliance (PInt 0)]).
Proof.
  eexists. split; [vm_compute; reflexivity |]. split; [simpl; lia |].
  split; [reflexivity |].
  apply (no_messages_flagged (FO := exact_floats) (EV := utc_env) [sample_report]).
  - vm_compute. reflexivity.
  - simpl. lia.
Defined.

(** Three reports over two domains. *)
Lemma domains_distinct_witness :
  exists res : analytics Q,
    _generate_analytics (FO := exact_floats) (EV := utc_env)
      (two_day_reports ++ sample_reports) = inr res /\
    summary_total_reports res = 3%nat /\
    List.length (summary_domains res) = 2%nat /\
    NoDup (summary_domains res) /\
    (forall d, In d (summary_domains res) <->
               exists rep, In rep (two_day_reports ++ sample_reports)%list /\
                           domain rep = d) /\
    (List.length (summary_domains res) <= summary_total_reports res)%nat.
Proof.
  eexists. split; [vm_compute; reflexivity |].
  split; [reflexivity |]. split; [reflexivity |].
  apply (domains_distinct (FO := exact_floats) (EV := utc_env)
           (two_day_reports ++ sample_reports)).
  vm_compute. reflexivity.
Defined.

(** An existing and a missing XML path pass alike. *)
Lemma xml_batch_passthrough_witness :
  Forall (fun p => endswith (basename p) ".xml" = true)
    [report_path; "/elsewhere/missing.xml"] /\
  for_eachM (extract_one session) [report_path; "/elsewhere/missing.xml"] []
    (one_file report_path sample_report_xml)
  = (inr [report_path; "/elsewhere/missing.xml"],
     one_file report_path sample_report_xml).
Proof.
  assert (H : Forall (fun p => endswith (basename p) ".xml" = true)
                [report_path; "/elsewhere/missing.xml"])
    by (repeat constructor).
  split; [exact H |].
  exact (xml_batch_passthrough session _ (one_file report_path sample_report_xml) H).
Defined.

(** The compressed sample report lands at the report path. *)
Lemma gz_xml_round_trip_witness :
  basename gz_path = "report" ++ ".xml.gz" /\
  lookup_file gz_path (files gz_upload) = Some (Gzip (XmlDoc sample_report_xml)) /\
  let out := path_join session ("report" ++ ".xml") in
  let fs' := write_file out (XmlDoc sample_report_xml) (files gz_upload) in
  out = report_path /\
  _extract_files gz_path session gz_upload
  = (inr [out],
     mkWorld fs' (logged gz_upload
                  ++ [(INFO, "Extracting GZ: " ++ basename gz_path)])) /\
  lookup_file out fs' = Some (XmlDoc sample_report_xml) /\
  basename out = "report" ++ ".xml".
Proof.
  split; [reflexivity |]. split; [reflexivity |]. cbv zeta.
  split; [reflexivity |].
  apply (gz_xml_round_trip gz_path session "report" (XmlDoc sample_report_xml)
           gz_upload); reflexivity.
Defined.

(** A file that is no gzip: afterwards the directory lists an XML file
    it did not hold before. *)
Lemma bad_gzip_leaves_output_witness :
  xml_below session (files bad_gz_upload) = [] /\
  xml_below session
    (write_file (path_join session "report.xml") Other (files bad_gz_upload))
  = [report_path] /\
  exists e,
    exn_class e = BadGzipFile /\
    _extract_files gz_path session bad_gz_upload
    = (inr [],
       mkWorld (write_file (path_join session "report.xml") Other
                  (files bad_gz_upload))
         (logged bad_gz_upload
          ++ [(INFO, "Extracting GZ: " ++ basename gz_path);
              (ERROR, "Error extracting " ++ basename gz_path ++ ": "
                      ++ exn_str e)])).
Proof.
  split; [reflexivity |]. split; [vm_compute; reflexivity |].
  apply (bad_gzip_leaves_output gz_path session "report.xml" Other bad_gz_upload).
  - reflexivity.
  - discriminate.
  - reflexivity.
  - discriminate.
Defined.

(** A ZIP path that does not exist. *)
Lemma unreadable_archive_witness :
  let w := one_file report_path sample_report_xml in
  let p := "/tmp/session/missing.zip" in
  lookup_file p (files w) = None /\
  exists e,
    _extract_files p session w
    = (inr [],
       mkWorld (files w)
         (logged w ++ [(INFO, "Extracting ZIP: " ++ basename p);
                       (ERROR, "Error extracting " ++ basename p ++ ": "
                               ++ exn_str e)])) /\
    exn_class e = FileNotFoundError.
Proof.
  cbv zeta. split; [reflexivity |].
  apply (unreadable_archive "/tmp/session/missing.zip" session
           (one_file report_path sample_report_xml)).
  left. split; [reflexivity | discriminate].
Defined.

(** Three XML files: one parses, one raises (no namespace, no
    metadata), one is skipped (namespaced, no metadata). *)
Lemma response_accounting_witness :
  let w := mkWorld [(report_path, XmlDoc sample_report_xml);
                    ("/tmp/session/bare.xml", XmlDoc (no_metadata_xml plain));
                    ("/tmp/session/empty.xml", XmlDoc (no_metadata_xml dmarc_tag))] [] in
  let ps := [report_path; "/tmp/session/bare.xml"; "/tmp/session/empty.xml"] in
  exists (a : analytics Q) (errs : list string) (w' : world),
    process_files ps session w = (inr (AnalyticsResponse a 1 errs), w') /\
    List.length errs = 1%nat /\
    exists xs w1,
      for_eachM (extract_one session) ps [] w = (inr xs, w1) /\
      1 = Z.of_nat (summary_total_reports a) /\ 1 <= 1 /\
      1 + Z.of_nat (List.length errs)
        + Z.of_nat (List.length (skipped_of (files w1) xs))
      = Z.of_nat (List.length xs) /\
      errs = errors_of (files w1) xs /\
      summary_total_messages a
      = sum_counts (all_records (reports_of (files w1) xs)) /\
      files w' = files w1 /\
      (forall q, In q (map fst (files w)) -> In q (map fst (files w'))).
Proof.
  cbv zeta. eexists _, _, _. split; [vm_compute; reflexivity |].
  split; [reflexivity |].
  eapply (response_accounting (FO := exact_floats) (EV := utc_env)).
  vm_compute. reflexivity.
Defined.

(** The two records of the sample report. *)
Lemma records_follow_elements_witness :
  exists rep : report,
    parse_with_metadata (EV := utc_env) sample_report_xml (sample_metadata plain)
    = inr rep /\
    map r_count (records rep) = [100; 50] /\
    exists recs,
      record_elements sample_report_xml = inr recs /\
      Forall2 (fun el r => parse_record (EV := utc_env) (ns_for sample_report_xml) el
                           = inr r) recs (records rep) /\
      List.length (records rep) = List.length recs /\
      (ns_for sample_report_xml = [] ->
         recs = findall1 sample_report_xml (Plain "record") /\ records rep <> []).
Proof.
  eexists. split; [vm_compute; reflexivity |]. split; [reflexivity |].
  apply (records_follow_elements (EV := utc_env) sample_report_xml
           (sample_metadata plain)).
  vm_compute. reflexivity.
Defined.

End Examples.
